(** * Two game engines: a connect-four bitboard with Monte-Carlo tree search,
      and a five-in-a-row grid with Zobrist hashing and a streak heuristic.

    Shallow embedding of [ConnectFourUtility.py] and [Gomoku.py].  Python
    integers are unbounded, so they are [Z] and the bit operators are
    [Z.land], [Z.lor], [Z.lxor], [Z.shiftl], [Z.shiftr].  A Python operation
    that raises (an index out of range, a pop from an empty list, a division
    by zero) is [None] in the [option] monad. *)

From Stdlib Require Import ZArith QArith Lia Bool.
From stdpp Require Import base option list gmap strings.

Local Open Scope Z_scope.

(** ** Python sequences *)

Module Py.

(** [l[i]]: a negative index counts from the end, anything outside
    [-len, len) raises. *)
Definition index {A} (l : list A) (i : Z) : option A :=
  let n := Z.of_nat (length l) in
  if (0 <=? i) && (i <? n) then l !! Z.to_nat i
  else if (- n <=? i) && (i <? 0) then l !! Z.to_nat (n + i)
  else None.

(** [l[i] = x], same index rule. *)
Definition setitem {A} (l : list A) (i : Z) (x : A) : option (list A) :=
  let n := Z.of_nat (length l) in
  if (0 <=? i) && (i <? n) then Some (<[Z.to_nat i := x]> l)
  else if (- n <=? i) && (i <? 0) then Some (<[Z.to_nat (n + i) := x]> l)
  else None.

(** [l.pop()]: the last element and the list without it. *)
Definition pop {A} (l : list A) : option (A * list A) :=
  match reverse l with
  | [] => None
  | x :: r => Some (x, reverse r)
  end.

(** [range(a, b)] *)
Definition range (a b : Z) : list Z := seqZ a (b - a).

(** [len(l)] *)
Definition len {A} (l : list A) : Z := Z.of_nat (length l).

End Py.

(** ** Connect four: the bitboard *)

Module Board.

(** A state is the tuple (mask of player 1, mask of player 2, turn). *)
Definition State : Type := Z * Z * Z.

Definition ROWCOUNT : Z := 6.
Definition COLUMNCOUNT : Z := 7.
Definition boardMask : Z := 4398046511103.
Definition colMask : Z := 63.
Definition rowMask : Z := 69810262081.
Definition leftMask : list Z :=
  [34630287489; 541098242; 8454660; 2216338399296; 1108169199616; 554084597760].
Definition rightMask : list Z :=
  [1108378656; 17318416; 270600; 70936233984; 141872463872; 283744665600].

(** [state[i]] on the 3-tuple. *)
Definition get (state : State) (i : Z) : option Z :=
  let '(a, b, t) := state in Py.index [a; b; t] i.

Definition start : State := (0, 0, 1).

Definition updateState (state : State) (col : Z) : option State :=
  t ← get state 2;
  let playerIndex := t - 1 in
  let opponentIndex := 1 - playerIndex in
  let shift := ROWCOUNT * col in
  let colMask := Z.shiftl colMask shift in
  sp ← get state playerIndex;
  so ← get state opponentIndex;
  let playerMask := Z.land sp colMask in
  let opponentMask := Z.land so colMask in
  let curr := Z.lor playerMask opponentMask in
  let new := Z.lxor (Z.lor (Z.shiftl curr 1) (Z.shiftl 1 shift)) opponentMask in
  let playerCol := Z.lor sp new in
  s0 ← get state 0;
  s1 ← get state 1;
  Some (if playerIndex =? 0 then (playerCol, s1, 3 - t) else (s0, playerCol, 3 - t)).

Definition isColumnFull (state : State) (col : Z) : bool :=
  let '(a, b, _) := state in
  let mask := Z.shiftl colMask (ROWCOUNT * col) in
  Z.land (Z.lor a b) mask =? mask.

Definition getLegalMoves (state : State) : list Z :=
  filter (λ col, isColumnFull state col = false) (Py.range 0 COLUMNCOUNT).

Definition isLegalMove (state : State) (col : Z) : bool :=
  (0 <=? col) && (col <? COLUMNCOUNT) && negb (isColumnFull state col).

Definition isBoardFull (state : State) : bool :=
  let '(a, b, _) := state in Z.lor a b =? boardMask.

(** Python truth of an integer. *)
Definition truthy (z : Z) : bool := negb (z =? 0).

Definition hasColWinner (playerMask : Z) : bool :=
  existsb (λ col,
    let colMask := Z.land playerMask (Z.shiftl colMask (ROWCOUNT * col)) in
    truthy (Z.land (Z.land (Z.land colMask (Z.shiftl colMask 1))
                              (Z.shiftl colMask 2)) (Z.shiftl colMask 3)))
    (Py.range 0 COLUMNCOUNT).

Definition hasRowWinner (playerMask : Z) : bool :=
  existsb (λ row,
    let rowMask := Z.land playerMask (Z.shiftl rowMask row) in
    truthy (Z.land (Z.land (Z.land rowMask (Z.shiftl rowMask ROWCOUNT))
                              (Z.shiftl rowMask (ROWCOUNT * 2)))
                     (Z.shiftl rowMask (ROWCOUNT * 3))))
    (Py.range 0 ROWCOUNT).

Definition hasDiagonalWinner (playerMask : Z) : bool :=
  existsb (λ mask,
    let leftMask := Z.land playerMask mask in
    truthy (Z.land (Z.land (Z.land leftMask (Z.shiftl leftMask COLUMNCOUNT))
                              (Z.shiftl leftMask (COLUMNCOUNT * 2)))
                     (Z.shiftl leftMask (COLUMNCOUNT * 3))))
    leftMask
  ||
  (let inc := ROWCOUNT - 1 in
   existsb (λ mask,
     let rightMask := Z.land playerMask mask in
     truthy (Z.land (Z.land (Z.land rightMask (Z.shiftr rightMask inc))
                               (Z.shiftr rightMask (inc * 2)))
                      (Z.shiftr rightMask (inc * 3))))
     rightMask).

Definition hasWinner (state : State) : option Z :=
  t ← get state 2;
  mask ← get state (2 - t);
  Some (if hasRowWinner mask || hasColWinner mask || hasDiagonalWinner mask
        then 3 - t else 0).

(** Applying [updateState] along a list of columns, first to last. *)
Fixpoint play (state : State) (cols : list Z) : option State :=
  match cols with
  | [] => Some state
  | col :: rest => s ← updateState state col; play s rest
  end.

(** States reachable from [start] by legal moves. *)
Inductive reachable : State → Prop :=
| reachable_start : reachable start
| reachable_move s col s' :
    reachable s → isLegalMove s col = true → updateState s col = Some s' →
    reachable s'.

End Board.

(** ** Connect four: the Monte-Carlo tree search player *)

Module AI.
Import Board.

(** The engine object: the history of root states, the two statistics
    dictionaries, and the depth limit of a playout.  [plays] holds integer
    counts; [wins] holds counts that grow by 1 or by 0.5, kept as exact
    rationals.  The two floating-point settings are not fields:
    [calculationTime] decides how many playouts fit before the clock runs
    out, and [constant] only occurs in the UCT formula. *)
Record t : Type := mk {
  states : list State;
  plays : gmap State Z;
  wins : gmap State Q;
  maxDepth : nat
}.

(** What [getNextMoves] hands back: [False], a column, or [None]. *)
Inductive MoveResult : Type :=
| PyFalse
| PyMove (col : Z)
| PyNone.

Definition updateStates (ai : t) (state : State) : t :=
  mk (states ai ++ [state]) (plays ai) (wins ai) (maxDepth ai).

(** [d[k] = f(d[k])]; raises when the key is absent. *)
Definition bump {V} (d : gmap State V) (k : State) (f : V → V) : option (gmap State V) :=
  v ← d !! k; Some (<[k := f v]> d).

(** [all(pos in plays for pos in nextStates)] *)
Definition allIn (plays : gmap State Z) (nextStates : list State) : bool :=
  forallb (λ pos, bool_decide (is_Some (plays !! pos))) nextStates.

(** [random.choice(seq)] with the random integer [r] drawn by the
    generator: the element at position [r mod len(seq)]. *)
Definition choice {A} (r : nat) (l : list A) : option A :=
  l !! (r `mod` length l)%nat.

(** The value tested by the final selection:
    [wins.get(nextState, 0) / plays.get(nextState, 1)]. *)
Definition winRate (plays : gmap State Z) (wins : gmap State Q) (nextState : State) : option Q :=
  let w := default 0%Q (wins !! nextState) in
  let p := default 1 (plays !! nextState) in
  if p =? 0 then None else Some (w / inject_Z p)%Q.

(** The loop "selects the best move" of [getNextMoves]. *)
Fixpoint selectLoop (state : State) (plays : gmap State Z) (wins : gmap State Q)
    (legal : list Z) (nextMove : option Z) (highestWinRate : Q) : option (option Z) :=
  match legal with
  | [] => Some nextMove
  | move :: rest =>
      nextState ← updateState state move;
      rate ← winRate plays wins nextState;
      if negb (Qle_bool rate highestWinRate)
      then selectLoop state plays wins rest (Some move) rate
      else selectLoop state plays wins rest nextMove highestWinRate
  end.

Definition selectBestMove (state : State) (plays : gmap State Z) (wins : gmap State Q)
    (legal : list Z) : option MoveResult :=
  r ← selectLoop state plays wins legal None 0%Q;
  Some (match r with Some move => PyMove move | None => PyNone end).

(** The win rate of the child reached by [move], as the selection loop
    computes it. *)
Definition childRate (state : State) (plays : gmap State Z) (wins : gmap State Q)
    (move : Z) : option Q :=
  nextState ← updateState state move; winRate plays wins nextState.

Section Search.

(** The UCT branch takes the maximum of
    [wins/plays + constant * sqrt(log(total) / plays)] over the children,
    in floating point; it is a parameter of the model ([None] when the
    arithmetic raises). *)
Variable uct : gmap State Z → gmap State Q → list State → option State.

(** The child the descent moves to, [r] being the random draw. *)
Definition chooseChild (plays : gmap State Z) (wins : gmap State Q)
    (nextStates : list State) (r : nat) : option State :=
  if allIn plays nextStates then uct plays wins nextStates
  else choice r nextStates.

(** What the descent loop leaves behind. *)
Record Playout : Type := mkPlayout {
  p_plays : gmap State Z;
  p_wins : gmap State Q;
  p_visited : gset State;
  p_draw : bool;
  p_win : Z
}.

(** The [for depth in range(self.maxDepth)] loop; [rnd depth] is the
    random draw available to iteration [depth]. *)
Fixpoint descend (fuel : nat) (depth : nat) (rnd : nat → nat)
    (plays : gmap State Z) (wins : gmap State Q) (state : State)
    (visitedState : gset State) (expand : bool) (win : Z) : option Playout :=
  match fuel with
  | O => Some (mkPlayout plays wins visitedState false win)
  | S fuel' =>
      let legal := getLegalMoves state in
      if (length legal =? 0)%nat
      then Some (mkPlayout plays wins visitedState true win)
      else
        nextStates ← mapM (updateState state) legal;
        state' ← chooseChild plays wins nextStates (rnd depth);
        let fresh := expand && bool_decide (plays !! state' = None) in
        let expand' := if fresh then false else expand in
        let plays' := if fresh then <[state' := 0]> plays else plays in
        let wins' := if fresh then <[state' := 0%Q]> wins else wins in
        let visited' := {[state']} ∪ visitedState in
        win' ← hasWinner state';
        if negb (win' =? 0)
        then Some (mkPlayout plays' wins' visited' false win')
        else descend fuel' (S depth) rnd plays' wins' state' visited' expand' win'
  end.

(** One pass of the statistics update over a visited position. *)
Definition record (draw : bool) (win : Z) (acc : option (gmap State Z * gmap State Q))
    (pos : State) : option (gmap State Z * gmap State Q) :=
  '(plays, wins) ← acc;
  match plays !! pos with
  | None => Some (plays, wins)
  | Some _ =>
      plays' ← bump plays pos (λ n, n + 1);
      if draw then
        wins' ← bump wins pos (λ w, Qplus w (1 # 2));
        Some (plays', wins')
      else
        t ← get pos 2;
        if 3 - t =? win
        then (wins' ← bump wins pos (λ w, Qplus w 1%Q); Some (plays', wins'))
        else Some (plays', wins)
  end.

Definition runSimulation (ai : t) (rnd : nat → nat) : option t :=
  state ← Py.index (states ai) (-1);
  out ← descend (maxDepth ai) 0 rnd (plays ai) (wins ai) state ∅ true 0;
  '(plays', wins') ← foldl (record (p_draw out) (p_win out))
                           (Some (p_plays out, p_wins out))
                           (elements (p_visited out));
  Some (mk (states ai) plays' wins' (maxDepth ai)).

(** The simulations that fit in the time budget, in order; each comes
    with its own random draws.  How many there are is decided by the
    wall clock. *)
Fixpoint simulate (ai : t) (sims : list (nat → nat)) : option t :=
  match sims with
  | [] => Some ai
  | rnd :: rest => ai' ← runSimulation ai rnd; simulate ai' rest
  end.

Definition getNextMoves (ai : t) (sims : list (nat → nat)) : option (MoveResult * t) :=
  state ← Py.index (states ai) (-1);
  let legal := getLegalMoves state in
  if (length legal =? 0)%nat then Some (PyFalse, ai)
  else if (length legal =? 1)%nat then
    move ← Py.index legal 0; Some (PyMove move, ai)
  else
    ai' ← simulate ai sims;
    r ← selectBestMove state (plays ai') (wins ai') legal;
    Some (r, ai').

End Search.

End AI.

(** ** Five in a row: the mutable grid *)

Module ConnectFiveBoard.

(** A square holds [None] or the piece written into it. *)
Abbreviation Square := (option string).

Record t : Type := mk {
  size : Z;
  board : list (list Square);
  undoStack : list (Z * Z * string);
  hashKey : Z;
  squareValue : list (list (Z * Z))
}.

Definition winningCriteria : Z := 5.

(** The constructor; [hashKey0] and [rnd row col] stand for the values
    drawn by [randrange(0, 2 ** 64)]. *)
Definition init (size : Z) (hashKey0 : Z) (rnd : Z → Z → Z * Z) : t :=
  mk size
     (replicate (Z.to_nat size) (replicate (Z.to_nat size) None))
     []
     hashKey0
     ((λ row, (λ col, rnd row col) <$> Py.range 0 size) <$> Py.range 0 size).

(** [self.board[row][col]] *)
Definition cell (board : list (list Square)) (row col : Z) : option Square :=
  r ← Py.index board row; Py.index r col.

(** [self.board[row][col] = v] *)
Definition setCell (board : list (list Square)) (row col : Z) (v : Square)
    : option (list (list Square)) :=
  r ← Py.index board row;
  r' ← Py.setitem r col v;
  Py.setitem board row r'.

(** [self.squareValue[row][col][0 if piece == "X" else 1]] *)
Definition zobrist (g : t) (row col : Z) (piece : string) : option Z :=
  r ← Py.index (squareValue g) row;
  v ← Py.index r col;
  Some (if String.eqb piece "X" then v.1 else v.2).

Definition placePiece (g : t) (row col : Z) (piece : string) : option t :=
  board' ← setCell (board g) row col (Some piece);
  let undoStack' := undoStack g ++ [(row, col, piece)] in
  z ← zobrist g row col piece;
  Some (mk (size g) board' undoStack' (Z.lxor (hashKey g) z) (squareValue g)).

Definition undoMove (g : t) : option t :=
  '(row, col, piece, undoStack') ← Py.pop (undoStack g);
  board' ← setCell (board g) row col None;
  z ← zobrist g row col piece;
  Some (mk (size g) board' undoStack' (Z.lxor (hashKey g) z) (squareValue g)).

Definition isLegalMove (g : t) (row col : Z) : option bool :=
  if (0 <=? row) && (row <? size g) && (0 <=? col) && (col <? size g)
  then sq ← cell (board g) row col; Some (bool_decide (sq = None))
  else Some false.

Definition userPlacePiece (g : t) (row col : Z) (piece : string) : option (bool * t) :=
  legal ← isLegalMove g row col;
  if legal && (String.eqb piece "X" || String.eqb piece "O") then
    board' ← setCell (board g) row col (Some piece);
    let undoStack' := undoStack g ++ [(row, col, piece)] in
    z ← zobrist g row col piece;
    Some (true, mk (size g) board' undoStack' (Z.lxor (hashKey g) z) (squareValue g))
  else Some (false, g).

Definition userUndoMove (g : t) : option t :=
  if Py.len (undoStack g) >=? 2 then
    '(row, col, piece, undoStack1) ← Py.pop (undoStack g);
    z1 ← zobrist g row col piece;
    let hashKey1 := Z.lxor (hashKey g) z1 in
    '(row, col, piece, undoStack2) ← Py.pop undoStack1;
    z2 ← zobrist g row col piece;
    Some (mk (size g) (board g) undoStack2 (Z.lxor hashKey1 z2) (squareValue g))
  else Some g.

Definition isBoardEmpty (g : t) : bool :=
  forallb (forallb (λ square : Square, bool_decide (square = None))) (board g).

Definition isBoardFull (g : t) : bool :=
  forallb (forallb (λ square : Square, negb (bool_decide (square = None)))) (board g).

(** [a and board[r][c] != opponent] for the end of a streak. *)
Definition endNot (g : t) (opponent : string) (e : bool * (Z * Z)) : option bool :=
  if e.1 then sq ← cell (board g) e.2.1 e.2.2; Some (bool_decide (sq ≠ Some opponent))
  else Some false.

(** [a and board[r][c] is None] for the end of a streak. *)
Definition endEmpty (g : t) (e : bool * (Z * Z)) : option bool :=
  if e.1 then sq ← cell (board g) e.2.1 e.2.2; Some (bool_decide (sq = None))
  else Some false.

(** The loop shared by the four [has...Combination] methods: [at k] is
    the square visited for the loop value [k], [before k] and [after k] are
    the bounds test and the square at either end of a streak that ends at
    [k]. *)
Fixpoint scanCombination (g : t) (piece opponent : string) (criteria blockedEnds : Z)
    (at_ : Z → Z * Z) (before after : Z → bool * (Z * Z))
    (ks : list Z) (consecutive : Z) : option bool :=
  match ks with
  | [] => Some false
  | k :: rest =>
      sq ← cell (board g) (at_ k).1 (at_ k).2;
      if bool_decide (sq = Some piece) then
        let consecutive := consecutive + 1 in
        if consecutive =? criteria then
          if blockedEnds =? 2 then Some true
          else
            left ← endNot g opponent (before k);
            right ← endNot g opponent (after k);
            if (blockedEnds =? 1) && (left || right) then Some true
            else if left && right then Some true
            else scanCombination g piece opponent criteria blockedEnds
                   at_ before after rest consecutive
        else scanCombination g piece opponent criteria blockedEnds
               at_ before after rest consecutive
      else scanCombination g piece opponent criteria blockedEnds
             at_ before after rest 0
  end.

Definition opponentOf (piece : string) : string :=
  if String.eqb piece "O" then "X" else "O".

Definition hasRowCombination (g : t) (row col : Z) (piece : string)
    (criteria blockedEnds : Z) : option bool :=
  scanCombination g piece (opponentOf piece) criteria blockedEnds
    (λ eachCol, (row, eachCol))
    (λ eachCol, (eachCol - criteria >=? 0, (row, eachCol - criteria)))
    (λ eachCol, (eachCol + 1 <? size g, (row, eachCol + 1)))
    (Py.range (Z.max 0 (col - criteria + 1)) (Z.min (size g) (col + criteria))) 0.

Definition hasColCombination (g : t) (row col : Z) (piece : string)
    (criteria blockedEnds : Z) : option bool :=
  scanCombination g piece (opponentOf piece) criteria blockedEnds
    (λ eachRow, (eachRow, col))
    (λ eachRow, (eachRow - criteria >=? 0, (eachRow - criteria, col)))
    (λ eachRow, (eachRow + 1 <? size g, (eachRow + 1, col)))
    (Py.range (Z.max 0 (row - criteria + 1)) (Z.min (size g) (row + criteria))) 0.

Definition hasLeftDiagonalCombination (g : t) (row col : Z) (piece : string)
    (criteria blockedEnds : Z) : option bool :=
  scanCombination g piece (opponentOf piece) criteria blockedEnds
    (λ inc, (row + inc, col + inc))
    (λ inc, let thisRow := row + inc in let thisCol := col + inc in
            ((thisRow - criteria >=? 0) && (thisCol - criteria >=? 0),
             (thisRow - criteria, thisCol - criteria)))
    (λ inc, let thisRow := row + inc in let thisCol := col + inc in
            ((thisRow + 1 <? size g) && (thisCol + 1 <? size g),
             (thisRow + 1, thisCol + 1)))
    (Py.range ((-1) * Z.min (Z.min row col) (criteria - 1))
              (Z.min (Z.min (size g - row) (size g - col)) criteria)) 0.

Definition hasRightDiagonalCombination (g : t) (row col : Z) (piece : string)
    (criteria blockedEnds : Z) : option bool :=
  scanCombination g piece (opponentOf piece) criteria blockedEnds
    (λ inc, (row + inc, col - inc))
    (λ inc, let thisRow := row + inc in let thisCol := col - inc in
            ((thisRow - criteria >=? 0) && (thisCol + criteria <? size g),
             (thisRow - criteria, thisCol + criteria)))
    (λ inc, let thisRow := row + inc in let thisCol := col - inc in
            ((thisRow + 1 <? size g) && (thisCol - 1 >=? 0),
             (thisRow + 1, thisCol - 1)))
    (Py.range ((-1) * Z.min (Z.min row (size g - col - 1)) (criteria - 1))
              (Z.min (Z.min (size g - row) (col + 1)) criteria)) 0.

(** [a or b] on results that may raise: [b] is not evaluated when [a]
    holds. *)
Definition orElse (a b : option bool) : option bool :=
  match a with
  | Some true => Some true
  | Some false => b
  | None => None
  end.

Definition hasAnyCombination (g : t) (row col : Z) (piece : string)
    (criteria blockedEnds : Z) : option bool :=
  orElse (hasRowCombination g row col piece criteria blockedEnds)
    (orElse (hasColCombination g row col piece criteria blockedEnds)
       (orElse (hasLeftDiagonalCombination g row col piece criteria blockedEnds)
          (hasRightDiagonalCombination g row col piece criteria blockedEnds))).

Definition selfHasFour (g : t) : option bool :=
  if Py.len (undoStack g) >? 8 then
    '(row, col, piece) ← Py.index (undoStack g) (-2);
    hasAnyCombination g row col piece 4 1
  else Some false.

Definition opponentHasFour (g : t) : option bool :=
  if Py.len (undoStack g) >? 6 then
    '(row, col, piece) ← Py.index (undoStack g) (-1);
    hasAnyCombination g row col piece 4 1
  else Some false.

Definition hasWinner (g : t) : option bool :=
  if negb (Py.len (undoStack g) =? 0) then
    '(row, col, piece) ← Py.index (undoStack g) (-1);
    hasAnyCombination g row col piece 5 2
  else Some false.

(** The loop shared by the four [findQuick...Move] methods; the result is
    the tuple (status, row, col). *)
Fixpoint scanQuick (g : t) (piece : string)
    (at_ : Z → Z * Z) (before after : Z → bool * (Z * Z))
    (ks : list Z) (consecutive : Z) : option (bool * option Z * option Z) :=
  match ks with
  | [] => Some (false, None, None)
  | k :: rest =>
      sq ← cell (board g) (at_ k).1 (at_ k).2;
      if bool_decide (sq = Some piece) then
        let consecutive := consecutive + 1 in
        if consecutive =? 4 then
          lo ← endEmpty g (before k);
          if lo : bool then Some (true, Some (before k).2.1, Some (before k).2.2)
          else
            hi ← endEmpty g (after k);
            if hi : bool then Some (true, Some (after k).2.1, Some (after k).2.2)
            else scanQuick g piece at_ before after rest consecutive
        else scanQuick g piece at_ before after rest consecutive
      else scanQuick g piece at_ before after rest 0
  end.

Definition findQuickRowMove (g : t) (row col : Z) (piece : string) :=
  scanQuick g piece
    (λ eachCol, (row, eachCol))
    (λ eachCol, (eachCol - 4 >=? 0, (row, eachCol - 4)))
    (λ eachCol, (eachCol + 1 <? size g, (row, eachCol + 1)))
    (Py.range (Z.max 0 (col - 3)) (Z.min (size g) (col + 4))) 0.

Definition findQuickColMove (g : t) (row col : Z) (piece : string) :=
  scanQuick g piece
    (λ eachRow, (eachRow, col))
    (λ eachRow, (eachRow - 4 >=? 0, (eachRow - 4, col)))
    (λ eachRow, (eachRow + 1 <? size g, (eachRow + 1, col)))
    (Py.range (Z.max 0 (row - 3)) (Z.min (size g) (row + 4))) 0.

Definition findQuickLeftDiagonalMove (g : t) (row col : Z) (piece : string) :=
  scanQuick g piece
    (λ inc, (row + inc, col + inc))
    (λ inc, let thisRow := row + inc in let thisCol := col + inc in
            ((thisRow - 4 >=? 0) && (thisCol - 4 >=? 0), (thisRow - 4, thisCol - 4)))
    (λ inc, let thisRow := row + inc in let thisCol := col + inc in
            ((thisRow + 1 <? size g) && (thisCol + 1 <? size g),
             (thisRow + 1, thisCol + 1)))
    (Py.range ((-1) * Z.min (Z.min row col) 3)
              (Z.min (Z.min (size g - row) (size g - col)) 4)) 0.

Definition findQuickRightDiagonalMove (g : t) (row col : Z) (piece : string) :=
  scanQuick g piece
    (λ inc, (row + inc, col - inc))
    (λ inc, let thisRow := row + inc in let thisCol := col - inc in
            ((thisRow - 4 >=? 0) && (thisCol + 4 <? size g), (thisRow - 4, thisCol + 4)))
    (λ inc, let thisRow := row + inc in let thisCol := col - inc in
            ((thisRow + 1 <? size g) && (thisCol - 1 >=? 0), (thisRow + 1, thisCol - 1)))
    (Py.range ((-1) * Z.min (Z.min row (size g - col - 1)) 3)
              (Z.min (Z.min (size g - row) (col + 1)) 4)) 0.

(** Tries the four directions in turn; the inner [None] is the value of a
    call that falls off the end of the method. *)
Definition findQuickMove (g : t) (row col : Z) (piece : string)
    : option (option (option Z * option Z)) :=
  '(status, winRow, winCol) ← findQuickRowMove g row col piece;
  if status : bool then Some (Some (winRow, winCol)) else
  '(status, winRow, winCol) ← findQuickColMove g row col piece;
  if status : bool then Some (Some (winRow, winCol)) else
  '(status, winRow, winCol) ← findQuickLeftDiagonalMove g row col piece;
  if status : bool then Some (Some (winRow, winCol)) else
  '(status, winRow, winCol) ← findQuickRightDiagonalMove g row col piece;
  if status : bool then Some (Some (winRow, winCol)) else Some None.

Definition findQuickWin (g : t) : option (option (option Z * option Z)) :=
  '(row, col, piece) ← Py.index (undoStack g) (-2);
  findQuickMove g row col piece.

Definition findForcedBlock (g : t) : option (option (option Z * option Z)) :=
  '(row, col, piece) ← Py.index (undoStack g) (-1);
  findQuickMove g row col piece.

End ConnectFiveBoard.

(** ** Five in a row: the evaluator and the entry point of the search *)

Module ConnectFiveEngine.
Import ConnectFiveBoard.

Definition criteria : Z := 5.

(** The dictionary [combinationScore], keyed by
    (consecutive, blockedEnds, currentTurn).  The weights are written as
    exact rationals: 12.5 is 25/2, 7.5 is 15/2, 0.5 is 1/2. *)
Definition combinationScore : gmap (Z * Z * bool) Q :=
  list_to_map
    [ ((5, 0, true), 200000000%Q); ((5, 0, false), 200000000%Q);
      ((5, 1, true), 200000000%Q); ((5, 1, false), 200000000%Q);
      ((5, 2, true), 200000000%Q); ((5, 2, false), 200000000%Q);
      ((4, 0, true), 100000000%Q); ((4, 0, false), 50000000%Q);
      ((4, 1, true), 100000000%Q); ((4, 1, false), 50%Q);
      ((3, 0, true), 10000%Q); ((3, 0, false), 50%Q);
      ((3, 1, true), (25 # 2)%Q); ((3, 1, false), (15 # 2)%Q);
      ((2, 0, true), (15 # 2)%Q); ((2, 0, false), 5%Q);
      ((2, 1, true), 2%Q); ((2, 1, false), 2%Q);
      ((1, 0, true), 1%Q); ((1, 0, false), 1%Q);
      ((1, 1, true), (1 # 2)%Q); ((1, 1, false), (1 # 2)%Q) ].

(** The three loop variables of [getHeuristicScore]. *)
Record Scan : Type := mkScan {
  count : Z;
  total : Q;
  piece : Square
}.

(** The body of the loop [for index, square in enumerate(sequence)]. *)
Definition scanStep (sequence : list Square) (turn : string)
    (st : Scan) (index : Z) (square : Square) : option Scan :=
  if bool_decide (square = piece st) then
    match piece st with
    | None => Some st
    | Some _ => Some (mkScan (count st + 1) (total st) (piece st))
    end
  else
    total' ←
      match piece st with
      | Some p =>
          if count st >? 0 then
            let start := index - count st - 1 in
            let right :=
              if negb (bool_decide (square = None)) || (index >=? Py.len sequence - 1)
              then 1 else 0 in
            left ←
              (if start <? 0 then Some 1
               else sq ← Py.index sequence start;
                    Some (if negb (bool_decide (sq = None)) then 1 else 0));
            let info := (count st, right + left, String.eqb turn p) in
            Some (match combinationScore !! info with
                  | Some w => if String.eqb p "X" then Qplus (total st) w
                              else Qminus (total st) w
                  | None => total st
                  end)
          else Some (total st)
      | None => Some (total st)
      end;
    Some (mkScan (if bool_decide (square = None) then 0 else 1) total' square).

Fixpoint scanLoop (sequence : list Square) (turn : string)
    (index : Z) (rest : list Square) (st : Scan) : option Scan :=
  match rest with
  | [] => Some st
  | square :: rest' =>
      st' ← scanStep sequence turn st index square;
      scanLoop sequence turn (index + 1) rest' st'
  end.

Definition getHeuristicScore (sequence : list Square) (turn : string) : option Q :=
  st ← scanLoop sequence turn 0 sequence (mkScan 0 0%Q None);
  Some (total st).

(** [total = 0; for x in xs: total += f(x)] *)
Definition sumScores {A} (f : A → option Q) (xs : list A) : option Q :=
  foldl (λ acc x, total ← acc; v ← f x; Some (Qplus total v)) (Some 0%Q) xs.

(** The engine keeps [self.board], an alias of the grid's board, and
    [self.size = len(self.board)]. *)
Definition esize (g : t) : Z := Py.len (board g).

(** [line = [None] * length; for k in range(n): line[k] = read(k)] *)
Definition fill (length n : Z) (read : Z → option Square) : option (list Square) :=
  foldl (λ acc k, line ← acc; v ← read k; Py.setitem line k v)
        (Some (replicate (Z.to_nat length) None)) (Py.range 0 n).

Definition getColumn (g : t) (col : Z) : option (list Square) :=
  fill (esize g + 1) (esize g) (λ row, cell (board g) row col).

Definition getLeftDiagonal (g : t) (row col : Z) : option (list Square) :=
  let n := esize g - Z.max row col in
  fill (n + 1) n (λ inc, cell (board g) (row + inc) (col + inc)).

Definition getRightDiagonal (g : t) (row col : Z) : option (list Square) :=
  let n := if col =? 0 then row + 1 else esize g - col in
  fill (n + 1) n (λ inc, cell (board g) (row - inc) (col + inc)).

Definition horizontalHeuristic (g : t) (turn : string) : option Q :=
  sumScores (λ row, getHeuristicScore (row ++ [None]) turn) (board g).

Definition verticalHeuristic (g : t) (turn : string) : option Q :=
  sumScores (λ col, column ← getColumn g col; getHeuristicScore column turn)
            (Py.range 0 (esize g)).

Definition leftDiagonalHeuristic (g : t) (turn : string) : option Q :=
  let endRow := esize g - criteria + 1 in
  let startingSquares :=
    ((λ row, (row, 0)) <$> Py.range 0 endRow) ++ ((λ col, (0, col)) <$> Py.range 1 endRow) in
  sumScores (λ rc : Z * Z, diagonal ← getLeftDiagonal g rc.1 rc.2;
                           getHeuristicScore diagonal turn) startingSquares.

Definition rightDiagonalHeuristic (g : t) (turn : string) : option Q :=
  let initialRow := criteria - 1 in
  let endColumn := esize g - criteria + 1 in
  let startingSquares :=
    ((λ row, (row, 0)) <$> Py.range initialRow (esize g))
    ++ ((λ col, (esize g - 1, col)) <$> Py.range 1 endColumn) in
  sumScores (λ rc : Z * Z, diagonal ← getRightDiagonal g rc.1 rc.2;
                           getHeuristicScore diagonal turn) startingSquares.

Definition overallHeuristicScore (g : t) (turn : string) : option Q :=
  h ← horizontalHeuristic g turn;
  l ← leftDiagonalHeuristic g turn;
  v ← verticalHeuristic g turn;
  r ← rightDiagonalHeuristic g turn;
  Some (Qplus (Qplus (Qplus h l) v) r).

(** An evaluation: a number, or one of the two infinities the search
    starts from. *)
Inductive Number : Type :=
| Finite (q : Q)
| PosInf
| NegInf.

(** The tuple (evaluation, row, col) returned to the game loop. *)
Definition Answer : Type := Number * option Z * option Z.

(** Which of the three [return] statements of [findNextMove] produced
    the answer. *)
Inductive Path : Type :=
| Opening
| QuickWin
| DeepSearch.

Section Search.

(** The iterated deepening search polls the wall clock; it is a
    parameter of the model. *)
Variable iteratedDeepeningSearch : t → string → option (Answer * t).

Definition findNextMoveVia (g : t) (turn : string) : option (Path * Answer * t) :=
  if isBoardEmpty g then
    let row := esize g `div` 2 in
    let col := row in
    g1 ← placePiece g row col turn;
    heuristic ← overallHeuristicScore g1 (if String.eqb turn "O" then "X" else "O");
    g2 ← undoMove g1;
    Some (Opening, (Finite heuristic, Some row, Some col), g2)
  else
    four ← selfHasFour g;
    if four : bool then
      win ← findQuickWin g;
      '(winRow, winCol) ← win;
      Some (QuickWin,
            (Finite (if String.eqb turn "X" then 200000000 else -200000000)%Q,
             winRow, winCol), g)
    else
      '(answer, g') ← iteratedDeepeningSearch g turn;
      Some (DeepSearch, answer, g').

Definition findNextMove (g : t) (turn : string) : option (Answer * t) :=
  '(_, answer, g') ← findNextMoveVia g turn; Some (answer, g').

End Search.

End ConnectFiveEngine.

(** ** The shape of a connect-four position *)

Module BoardShape.
Import Board.

(** Bit [n] is taken by one of the two players. *)
Definition occupied (p o : Z) (n : Z) : bool := Z.testbit p n || Z.testbit o n.

(** Column [col] is filled from the bottom up to height [h]. *)
Definition stacked (p o : Z) (col h : Z) : Prop :=
  0 <= h <= 6 ∧ ∀ r, 0 <= r < 6 → occupied p o (6 * col + r) = (r <? h).

(** Two masks that form a position: no shared bit, nothing at or above
    bit 42, every column stacked without holes. *)
Definition shaped (p o : Z) : Prop :=
  (∀ n, Z.testbit p n && Z.testbit o n = false) ∧
  (∀ n, 42 <= n → occupied p o n = false) ∧
  (∀ col, 0 <= col < 7 → ∃ h, stacked p o col h).

Definition wellFormed (s : State) : Prop :=
  let '(a, b, t) := s in (t = 1 ∨ t = 2) ∧ shaped a b.

(** The bits the mover's mask gains in [updateState]. *)
Definition dropped (p o col : Z) : Z :=
  let cm := Z.shiftl colMask (ROWCOUNT * col) in
  let curr := Z.lor (Z.land p cm) (Z.land o cm) in
  Z.lxor (Z.lor (Z.shiftl curr 1) (Z.shiftl 1 (ROWCOUNT * col))) (Z.land o cm).

End BoardShape.

(** ** Concrete positions and engines used below *)

Module Scenes.
Import Board.

(** A game of 36 legal moves that fills columns 0 to 5 with no winner. *)
Definition sixColumns : list Z :=
  [4; 4; 5; 5; 3; 1; 0; 2; 2; 1; 4; 5; 3; 3; 1; 3; 1; 3; 0; 0; 5; 4; 3; 2; 1; 2; 4; 2;
   5; 4; 2; 1; 5; 0; 0; 0].

(** A game of 42 legal moves that fills the board with no winner. *)
Definition drawnGame : list Z :=
  [4; 1; 6; 2; 1; 0; 1; 4; 4; 2; 4; 1; 3; 6; 3; 3; 1; 0; 4; 6; 6; 1; 2; 3; 2; 3; 2; 2;
   6; 5; 5; 0; 5; 4; 6; 5; 5; 5; 0; 0; 3; 0].

Definition oneMoveLeft : State := (61564921619, 7154555116, 1).
Definition fullBoard : State := (3941128324488, 456918186615, 1).

(** A fresh engine looking at the initial position. *)
Definition fresh : AI.t := AI.mk [start] ∅ ∅ 50.

(** The random draws of a playout that goes 0, 1, 0, 1, 0, 1, 2, 1: the
    second player completes column 1. *)
Definition lostPlayout (depth : nat) : nat :=
  match depth with
  | 0 => 0 | 1 => 1 | 2 => 0 | 3 => 1 | 4 => 0 | 5 => 1 | 6 => 2 | _ => 1
  end%nat.

(** The engine after that playout: the child for column 0 was played
    once and never won. *)
Definition afterLoss : AI.t :=
  AI.mk [start] {[ (1, 0, 2) := 1 ]} {[ (1, 0, 2) := 0%Q ]} 50.

(** A stand-in for the UCT branch. *)
Definition noUct : gmap State Z → gmap State Q → list State → option State :=
  λ _ _ _, None.

End Scenes.

(** ** The shape of a grid *)

Module GridShape.
Import ConnectFiveBoard.

(** What the constructor sets up and every method keeps: a square board
    and a square table of random values, both of side [size]. *)
Definition wellFormed (g : t) : Prop :=
  0 <= size g ∧
  length (board g) = Z.to_nat (size g) ∧
  Forall (λ r, length r = Z.to_nat (size g)) (board g) ∧
  length (squareValue g) = Z.to_nat (size g) ∧
  Forall (λ r, length r = Z.to_nat (size g)) (squareValue g).

Definition inBounds (g : t) (row col : Z) : Prop :=
  0 <= row < size g ∧ 0 <= col < size g.

(** A run of [placePiece] calls. *)
Fixpoint placeAll (g : t) (moves : list (Z * Z * string)) : option t :=
  match moves with
  | [] => Some g
  | (row, col, piece) :: rest => g' ← placePiece g row col piece; placeAll g' rest
  end.

(** Fixed values standing for the random draws of the constructor. *)
Definition draws (row col : Z) : Z * Z :=
  ((11400714819323198485 * (15 * row + col + 1)) `mod` 2 ^ 64,
   (14029467366897019727 * (15 * row + col + 1)) `mod` 2 ^ 64).

Definition empty15 : t := init 15 1311768467463790320 draws.

(** Eight plies: X holds (7,3) to (7,6) with both ends free, O played
    along the top row, X is to move. *)
Definition openFourMoves : list (Z * Z * string) :=
  [(7, 3, "X"); (0, 0, "O"); (7, 4, "X"); (0, 2, "O");
   (7, 5, "X"); (0, 4, "O"); (7, 6, "X"); (0, 6, "O")]%string.

Definition openFour : t := default empty15 (placeAll empty15 openFourMoves).

(** The first six of those plies. *)
Definition sixPlies : t := default empty15 (placeAll empty15 (take 6 openFourMoves)).

(** Two plies: X in the centre, O next to it. *)
Definition twoPlies : t :=
  default empty15 (placeAll empty15 [(7, 7, "X"); (7, 8, "O")]%string).

End GridShape.

(** ** Maximal runs of a line *)

Module Streaks.
Import ConnectFiveBoard ConnectFiveEngine.

(** How many squares at the front of [l] hold the piece [p]. *)
Fixpoint runLength (p : string) (l : list Square) : nat :=
  match l with
  | sq :: rest => if bool_decide (sq = Some p) then S (runLength p rest) else O
  | [] => O
  end.

(** The piece of the maximal run that begins at position [s], when one
    does: the square holds a piece and the square before it, if there is
    one, does not hold that same piece. *)
Definition runStart (sequence : list Square) (s : nat) : option string :=
  match sequence !! s with
  | Some (Some p) =>
      match s with
      | O => Some p
      | S s' => if bool_decide (sequence !! s' = Some (Some p)) then None else Some p
      end
  | _ => None
  end.

Record Run : Type := mkRun {
  r_start : nat;
  r_length : nat;
  r_piece : string
}.

Definition runAt (sequence : list Square) (s : nat) : option Run :=
  p ← runStart sequence s;
  Some (mkRun s (runLength p (drop s sequence)) p).

(** The maximal runs that begin before position [k], left to right. *)
Definition runsBefore (sequence : list Square) (k : nat) : list Run :=
  omap (runAt sequence) (seq 0 k).

(** Every maximal run of identical pieces of the line, left to right. *)
Definition maximalRuns (sequence : list Square) : list Run :=
  runsBefore sequence (length sequence).

(** The number of blocked ends of a run.  The right end is free when the
    square after the run is empty and is not the last square of the line;
    the left end is free when there is a square before the run and it is
    empty. *)
Definition blockedEnds (sequence : list Square) (r : Run) : Z :=
  let stop := (r_start r + r_length r)%nat in
  (if bool_decide (sequence !! stop = Some None)
      && bool_decide (S stop < length sequence)%nat
   then 0 else 1)
  + match r_start r with
    | O => 1
    | S s' => if bool_decide (sequence !! s' = Some None) then 0 else 1
    end.

(** The dictionary key of a run: its length as it is, its blocked ends,
    and whether it belongs to the mover. *)
Definition runKey (sequence : list Square) (turn : string) (r : Run) : Z * Z * bool :=
  (Z.of_nat (r_length r), blockedEnds sequence r, String.eqb turn (r_piece r)).

(** The same key with the length capped at the winning length. *)
Definition cappedKey (sequence : list Square) (turn : string) (r : Run) : Z * Z * bool :=
  (Z.min (Z.of_nat (r_length r)) criteria, blockedEnds sequence r,
   String.eqb turn (r_piece r)).

(** Adding the weight found under [key r], if any, for X and taking it
    away for the other piece. *)
Definition addRun (key : Run → Z * Z * bool) (total : Q) (r : Run) : Q :=
  match combinationScore !! key r with
  | Some w => if String.eqb (r_piece r) "X" then Qplus total w else Qminus total w
  | None => total
  end.

Definition runScore (key : Run → Z * Z * bool) (sequence : list Square) : Q :=
  foldl (addRun key) 0%Q (maximalRuns sequence).

(** The square before position [i], empty at the left edge. *)
Definition prevSquare (sequence : list Square) (i : nat) : Square :=
  match i with
  | O => None
  | S i' => default None (sequence !! i')
  end.

(** What holds of the loop variables of [getHeuristicScore] when the
    loop reaches position [i]: [count] is the length of the run that ends
    just before [i], [piece] is the square before [i], and [total] has
    gathered the runs that begin before the current one. *)
Definition scanInv (sequence : list Square) (turn : string) (i : nat) (st : Scan) : Prop :=
  ∃ c : nat,
    count st = Z.of_nat c ∧ (c ≤ i)%nat ∧
    piece st = prevSquare sequence i ∧
    total st = foldl (addRun (runKey sequence turn)) 0%Q (runsBefore sequence (i - c)) ∧
    match piece st with
    | None => c = O
    | Some p =>
        (0 < c)%nat ∧ runStart sequence (i - c) = Some p ∧
        ∀ j, (i - c ≤ j < i)%nat → sequence !! j = Some (Some p)
    end.

(** A maximal run, said directly: [r_length] squares from [r_start] on
    hold the piece, and neither the square before nor the square after
    holds it. *)
Definition isMaximalRun (sequence : list Square) (r : Run) : Prop :=
  (0 < r_length r)%nat ∧
  (∀ j, (r_start r ≤ j < r_start r + r_length r)%nat →
        sequence !! j = Some (Some (r_piece r))) ∧
  (∀ s', r_start r = S s' → sequence !! s' ≠ Some (Some (r_piece r))) ∧
  sequence !! (r_start r + r_length r)%nat ≠ Some (Some (r_piece r)).

Definition sX : Square := Some "X"%string.
Definition sO : Square := Some "O"%string.

End Streaks.

(** ** Four in a line on the connect-four board *)

Module Lines.
Import Board.

(** The bit of the square in column [col] and row [row], row 0 being the
    bottom of the column. *)
Definition bitOf (col row : Z) : Z := ROWCOUNT * col + row.

Definition onBoard (sq : Z * Z) : bool :=
  (0 <=? sq.1) && (sq.1 <? COLUMNCOUNT) && (0 <=? sq.2) && (sq.2 <? ROWCOUNT).

(** The four squares that start at (col, row) and go on in direction
    (dc, dr). *)
Definition squaresFrom (line : Z * Z * (Z * Z)) : list (Z * Z) :=
  (λ k, (line.1.1 + k * line.2.1, line.1.2 + k * line.2.2)) <$> [0; 1; 2; 3].

(** Up, right, up-right and down-right. *)
Definition directions : list (Z * Z) := [(0, 1); (1, 0); (1, 1); (1, -1)].

(** Every group of four squares in a line that fits on the board. *)
Definition winningLines : list (Z * Z * (Z * Z)) :=
  filter (λ line, forallb onBoard (squaresFrom line) = true)
    (col ← Py.range 0 COLUMNCOUNT; row ← Py.range 0 ROWCOUNT;
     dir ← directions; [(col, row, dir)]).

(** The mask holds all four squares of the line. *)
Definition owns (mask : Z) (line : Z * Z * (Z * Z)) : bool :=
  forallb (λ sq, Z.testbit mask (bitOf sq.1 sq.2)) (squaresFrom line).

Definition fourInLine (mask : Z) : bool := existsb (owns mask) winningLines.

(** The four bits [start], [start + step], [start + 2 step] and
    [start + 3 step] are all set. *)
Definition bitsSet (mask : Z) (p : Z * Z) : bool :=
  Z.testbit mask p.1 && Z.testbit mask (p.1 + p.2)
  && Z.testbit mask (p.1 + 2 * p.2) && Z.testbit mask (p.1 + 3 * p.2).

(** The shifted-and test of the three winner checks, on the bits of the
    player under [K]. *)
Definition shiftedLeft (K s mask : Z) : bool :=
  let m := Z.land mask K in
  truthy (Z.land (Z.land (Z.land m (Z.shiftl m s)) (Z.shiftl m (s * 2)))
                 (Z.shiftl m (s * 3))).

Definition shiftedRight (K s mask : Z) : bool :=
  let m := Z.land mask K in
  truthy (Z.land (Z.land (Z.land m (Z.shiftr m s)) (Z.shiftr m (s * 2)))
                 (Z.shiftr m (s * 3))).

(** The (start, step) pairs whose four bits all lie under [K]. *)
Definition under (K s : Z) : list (Z * Z) :=
  (λ b, (b, s)) <$> filter (λ b, bitsSet K (b, s) = true) (seqZ 0 42).

(** The pairs the three checks look at, and the pairs of the lines of
    the board. *)
Definition checkedPairs : list (Z * Z) :=
  (row ← Py.range 0 ROWCOUNT; under (Z.shiftl rowMask row) ROWCOUNT)
  ++ (col ← Py.range 0 COLUMNCOUNT; under (Z.shiftl colMask (ROWCOUNT * col)) 1)
  ++ (K ← leftMask; under K COLUMNCOUNT)
  ++ (K ← rightMask; under K (ROWCOUNT - 1)).

Definition pairOf (line : Z * Z * (Z * Z)) : Z * Z :=
  (bitOf line.1.1 line.1.2, ROWCOUNT * line.2.1 + line.2.2).

(** A game as the game loop plays it: a column is dropped into only when
    [isLegalMove] accepts it. *)
Fixpoint playChecked (state : State) (cols : list Z) : option State :=
  match cols with
  | [] => Some state
  | col :: rest =>
      if isLegalMove state col
      then s ← updateState state col; playChecked s rest
      else None
  end.

(** A mask the shifted-and test can be trusted on: not negative and with
    no bit outside the board. *)
Definition boardOnly (K : Z) : bool := (0 <=? K) && (Z.land K boardMask =? K).

End Lines.

(** ** The statistics store of the connect-four player *)

Module Store.
Import Board AI.

(** Grows with every piece dropped. *)
Definition measure (s : State) : Z := s.1.1 + s.1.2.

(** The two dictionaries have the same keys and every play count is at
    least one; this is how every playout leaves them. *)
Definition storeOk (plays : gmap State Z) (wins : gmap State Q) : Prop :=
  dom plays = dom wins ∧ map_Forall (λ _ n, 1 <= n) plays.

(** What is asked of the UCT branch: when every child is in the store
    with a play count of at least one, it picks one of the children. *)
Definition uctOk (uct : gmap State Z → gmap State Q → list State → option State) : Prop :=
  ∀ plays wins nextStates,
    nextStates ≠ [] → dom plays = dom wins →
    (∀ s, s ∈ nextStates → ∃ n, plays !! s = Some n ∧ 1 <= n) →
    ∃ s, uct plays wins nextStates = Some s ∧ s ∈ nextStates.

(** A UCT stand-in that takes the first child. *)
Definition firstChild : gmap State Z → gmap State Q → list State → option State :=
  λ _ _ nextStates, head nextStates.

(** What holds of the store while a playout descends: a play count below
    one belongs to the state entered by this playout, which has been
    visited and lies at or above the current state in the game. *)
Definition descending (plays : gmap State Z) (wins : gmap State Q) (state : State)
    (visitedState : gset State) (expand : bool) : Prop :=
  dom plays = dom wins ∧
  ∀ k n, plays !! k = Some n →
    1 <= n ∨ (n = 0 ∧ expand = false ∧ k ∈ visitedState ∧ measure k <= measure state).

(** What a playout has left when the descent ends. *)
Definition descended (plays : gmap State Z) (wins : gmap State Q)
    (visitedState : gset State) (expand : bool) (out : Playout) : Prop :=
  dom (p_plays out) = dom (p_wins out) ∧
  visitedState ⊆ p_visited out ∧
  (∀ k n, p_plays out !! k = Some n → 1 <= n ∨ (n = 0 ∧ k ∈ p_visited out)) ∧
  ((p_plays out = plays ∧ p_wins out = wins) ∨
   (expand = true ∧ ∃ s, plays !! s = None ∧
      p_plays out = <[s := 0]> plays ∧ p_wins out = <[s := 0%Q]> wins)).

End Store.

(** ** The hash and the move history of a grid *)

Module History.
Import ConnectFiveBoard.

(** The XOR of the random values of all the moves on the undo stack. *)
Definition stackXor (g : t) : option Z :=
  foldl (λ acc (m : Z * Z * string),
           a ← acc; z ← zobrist g m.1.1 m.1.2 m.2; Some (Z.lxor a z))
        (Some 0) (undoStack g).

(** The hash with the moves of the undo stack taken out again: the hash
    the grid was created with, as long as the hash follows the stack. *)
Definition baseHash (g : t) : option Z :=
  x ← stackXor g; Some (Z.lxor (hashKey g) x).

(** Five squares in a line through (row, col) in direction [d], all on the
    board and all holding [piece]; the line starts [-i] steps before
    (row, col), with [i] between -4 and 0. *)
Definition fiveThrough (g : t) (row col : Z) (piece : string) (d : Z * Z) : Prop :=
  ∃ i, -4 <= i <= 0 ∧
    ∀ j, 0 <= j < 5 →
      GridShape.inBounds g (row + (i + j) * d.1) (col + (i + j) * d.2) ∧
      cell (board g) (row + (i + j) * d.1) (col + (i + j) * d.2) = Some (Some piece).

(** The [n] squares visited for the loop values [k - n + 1] to [k] all
    hold [piece]. *)
Definition streak (g : t) (piece : string) (at_ : Z → Z * Z) (k n : Z) : Prop :=
  ∀ j, 0 <= j < n → cell (board g) (at_ (k - j)).1 (at_ (k - j)).2 = Some (Some piece).

(** The four squares after (r, c) in the direction [d] are on the board
    and hold [piece]. *)
Definition fourBeside (g : t) (r c : Z) (piece : string) (d : Z * Z) : Prop :=
  ∀ j, 1 <= j <= 4 →
    GridShape.inBounds g (r + j * d.1) (c + j * d.2) ∧
    cell (board g) (r + j * d.1) (c + j * d.2) = Some (Some piece).

(** Every square is empty or holds one of the two pieces of the game. *)
Definition twoPieces (g : t) : Prop :=
  Forall (Forall (λ sq : Square, sq = None ∨ sq = Some "X"%string ∨ sq = Some "O"%string))
         (board g).

(** Ten plies: X holds (7,3) to (7,6) with both ends free and a stray
    piece at (9,9); the move before the newest one is (7,6). *)
Definition tenMoves : list (Z * Z * string) :=
  [(9, 9, "X"); (0, 0, "O"); (7, 3, "X"); (0, 2, "O"); (7, 4, "X"); (0, 4, "O");
   (7, 5, "X"); (0, 6, "O"); (7, 6, "X"); (0, 8, "O")]%string.

Definition tenPlies : t :=
  default GridShape.empty15 (GridShape.placeAll GridShape.empty15 tenMoves).

(** The first nine of those plies: the newest move is (7,6). *)
Definition ninePlies : t :=
  default GridShape.empty15 (GridShape.placeAll GridShape.empty15 (take 9 tenMoves)).

(** Nine plies: the open four of [GridShape.openFour], completed by X at
    (7,7). *)
Definition fiveInRow : t :=
  default GridShape.empty15
    (GridShape.placeAll GridShape.empty15 (GridShape.openFourMoves ++ [(7, 7, "X"%string)])).

(** One ply, and the grid [userUndoMove] leaves after two. *)
Definition onePly : t := default GridShape.empty15 (placePiece GridShape.empty15 7 7 "X").
Definition undone : t := default GridShape.empty15 (userUndoMove GridShape.twoPlies).

End History.

(** ** Connect four: the picture of a position *)

Module Display.
Import Board.

(** [board[row][col] = colour] *)
Definition setColour (board : list (list string)) (row col : Z) (colour : string)
    : option (list (list string)) :=
  r ← Py.index board row;
  r' ← Py.setitem r col colour;
  Py.setitem board row r'.

(** The body of the loop of [displayBoard]; the loop carries the board and
    [bit]. *)
Definition paint (player1 player2 : Z) (acc : option (list (list string) * Z)) (shift : Z)
    : option (list (list string) * Z) :=
  '(board, bit) ← acc;
  board' ←
    (if truthy (Z.land bit player1) then
       let col := shift `div` ROWCOUNT in
       let row := 5 - shift `mod` ROWCOUNT in
       setColour board row col "red"
     else if truthy (Z.land bit player2) then
       let col := shift `div` ROWCOUNT in
       let row := 5 - shift `mod` ROWCOUNT in
       setColour board row col "yellow"
     else Some board);
  Some (board', Z.shiftl bit 1).

Definition displayBoard (state : State) : option (list (list string)) :=
  let '(player1, player2, _) := state in
  let board := (λ _, replicate (Z.to_nat COLUMNCOUNT) ""%string) <$> Py.range 0 ROWCOUNT in
  '(board, _) ← foldl (paint player1 player2) (Some (board, 1))
                      (Py.range 0 (ROWCOUNT * COLUMNCOUNT));
  Some board.

(** The colour of bit [n]: player 1 is looked at first. *)
Definition colourOf (player1 player2 : Z) (n : Z) : string :=
  if Z.testbit player1 n then "red" else if Z.testbit player2 n then "yellow" else "".

(** [board[row][col]] for indices inside the picture. *)
Definition shown (board : list (list string)) (row col : Z) : option string :=
  r ← board !! Z.to_nat row; r !! Z.to_nat col.

(** The picture after the bits below [m] have been looked at. *)
Definition painted (player1 player2 : Z) (m : Z) (st : list (list string) * Z) : Prop :=
  st.2 = 2 ^ m ∧ length st.1 = 6%nat ∧ Forall (λ r, length r = 7%nat) st.1 ∧
  ∀ row col, 0 <= row < 6 → 0 <= col < 7 →
    shown st.1 row col =
      Some (if 6 * col + (5 - row) <? m then colourOf player1 player2 (6 * col + (5 - row))
            else ""%string).

End Display.

(** ** Five in a row: the first empty square *)

Module FirstFree.
Import ConnectFiveBoard.

(** The inner loop of [getFirstFreeSquare], over the columns left in
    [row]; the inner [None] stands for a loop that ran to its end. *)
Fixpoint firstFreeIn (g : t) (row : Z) (cols : list Z) : option (option (Z * Z)) :=
  match cols with
  | [] => Some None
  | col :: rest =>
      sq ← cell (board g) row col;
      if bool_decide (sq = None) then Some (Some (row, col))
      else firstFreeIn g row rest
  end.

(** The outer loop; a call that falls off its end returns [None]. *)
Fixpoint firstFreeFrom (g : t) (rows : list Z) : option (option (Z * Z)) :=
  match rows with
  | [] => Some None
  | row :: rest =>
      found ← firstFreeIn g row (Py.range 0 (size g));
      match found with
      | Some sq => Some (Some sq)
      | None => firstFreeFrom g rest
      end
  end.

Definition getFirstFreeSquare (g : t) : option (option (Z * Z)) :=
  firstFreeFrom g (Py.range 0 (size g)).

(** (r', c') comes before (r, c) when the board is read row by row. *)
Definition before (r' c' r c : Z) : Prop := r' < r ∨ (r' = r ∧ c' < c).

End FirstFree.

(** ** Five in a row: the squares the search looks at *)

Module Candidates.
Import ConnectFiveBoard ConnectFiveEngine.

(** [if guard and self.board[r][c] is None: adj.add((r, c))] *)
Definition addIfFree (g : t) (adj : gset (Z * Z)) (guard : bool) (r c : Z)
    : option (gset (Z * Z)) :=
  free ← endEmpty g (guard, (r, c));
  Some (if free : bool then adj ∪ {[(r, c)]} else adj).

Definition getFreeAdjacentSquares (g : t) (row col : Z) : option (gset (Z * Z)) :=
  let adj : gset (Z * Z) := ∅ in
  adj ← (if row - 1 >=? 0 then
           let above := row - 1 in
           adj ← addIfFree g adj (col - 1 >=? 0) above (col - 1);
           adj ← addIfFree g adj true above col;
           addIfFree g adj (col + 1 <? esize g) above (col + 1)
         else Some adj);
  adj ← (if row + 1 <? esize g then
           let below := row + 1 in
           adj ← addIfFree g adj (col - 1 >=? 0) below (col - 1);
           adj ← addIfFree g adj true below col;
           addIfFree g adj (col + 1 <? esize g) below (col + 1)
         else Some adj);
  adj ← addIfFree g adj (col - 1 >=? 0) row (col - 1);
  addIfFree g adj (col + 1 <? esize g) row (col + 1).

(** The body of the inner loop of [findNeighbourSquares]. *)
Definition visit (g : t) (row : Z) (acc : option (gset (Z * Z))) (col : Z)
    : option (gset (Z * Z)) :=
  available ← acc;
  sq ← cell (board g) row col;
  if negb (bool_decide (sq = None)) then
    adj ← getFreeAdjacentSquares g row col;
    Some (available ∪ adj)
  else Some available.

Definition findNeighbourSquares (g : t) : option (gset (Z * Z)) :=
  foldl (λ acc row, foldl (visit g row) acc (Py.range 0 (esize g)))
        (Some ∅) (Py.range 0 (esize g)).

(** (r, c) is one of the eight squares around (row, col). *)
Definition around (row col r c : Z) : Prop :=
  -1 <= r - row <= 1 ∧ -1 <= c - col <= 1 ∧ (r ≠ row ∨ c ≠ col).

End Candidates.

Module BoardFacts.
Import Board BoardShape.

Lemma testbit_colMask shift m :
  0 <= shift →
  Z.testbit (Z.shiftl colMask shift) m = (shift <=? m) && (m <? shift + 6).
Proof.
  intros Hs. destruct (Z.ltb_spec m 0) as [Hm|Hm].
  - rewrite Z.testbit_neg_r by lia.
    symmetry. apply andb_false_iff. left. apply Z.leb_gt. lia.
  - rewrite Z.shiftl_spec by lia.
    change colMask with (Z.ones 6). rewrite Z.testbit_ones by lia.
    destruct (Z.leb_spec shift m), (Z.leb_spec 0 (m - shift)),
      (Z.ltb_spec m (shift + 6)), (Z.ltb_spec (m - shift) 6); simpl; lia.
Qed.

Lemma testbit_one_shifted shift m :
  0 <= shift → Z.testbit (Z.shiftl 1 shift) m = (m =? shift).
Proof.
  intros Hs. rewrite Z.shiftl_1_l, Z.pow2_bits_eqb by lia. apply Z.eqb_sym.
Qed.

Lemma testbit_boardMask m : Z.testbit boardMask m = (0 <=? m) && (m <? 42).
Proof. change boardMask with (Z.ones 42). apply Z.testbit_ones. lia. Qed.

Lemma occupied_sym p o n : occupied p o n = occupied o p n.
Proof. unfold occupied. apply orb_comm. Qed.

Lemma stacked_sym p o col h : stacked p o col h → stacked o p col h.
Proof.
  intros [Hh Hr]. split; [done|]. intros r Hlt. rewrite occupied_sym. auto.
Qed.

Lemma shaped_sym p o : shaped p o → shaped o p.
Proof.
  intros (Hd & Hb & Hc). split_and!.
  - intros n. rewrite andb_comm. apply Hd.
  - intros n Hn. rewrite occupied_sym. auto.
  - intros col Hcol. destruct (Hc col Hcol) as [h Hh]. exists h. by apply stacked_sym.
Qed.

(** A column that [isColumnFull] rejects has room left. *)
Lemma not_full_height a b t col h :
  0 <= col →
  stacked a b col h → isColumnFull (a, b, t) col = false → h < 6.
Proof.
  intros Hcol [Hh Hr] Hfull.
  destruct (Z.eq_dec h 6) as [->|]; [|lia].
  exfalso. unfold isColumnFull in Hfull. apply Z.eqb_neq in Hfull. apply Hfull.
  apply Z.bits_inj'. intros n Hn.
  rewrite Z.land_spec, Z.lor_spec, testbit_colMask by (unfold ROWCOUNT; lia).
  unfold ROWCOUNT.
  destruct (Z.leb_spec (6 * col) n), (Z.ltb_spec n (6 * col + 6)); simpl;
    try apply andb_false_r.
  rewrite andb_true_r.
  specialize (Hr (n - 6 * col) ltac:(lia)).
  replace (6 * col + (n - 6 * col)) with n in Hr by lia.
  unfold occupied in Hr. rewrite Hr. apply Z.ltb_lt. lia.
Qed.

(** The bits gained by the mover: its own bits of the column, and the
    first free bit of the column. *)
Lemma testbit_dropped p o col h n :
  0 <= col →
  (∀ m, Z.testbit p m && Z.testbit o m = false) →
  stacked p o col h → h < 6 → 0 <= n →
  Z.testbit (dropped p o col) n =
    (Z.testbit p n && (6 * col <=? n) && (n <? 6 * col + 6)) || (n =? 6 * col + h).
Proof.
  intros Hcol Hd [Hh Hr] Hlt Hn. unfold dropped, ROWCOUNT.
  rewrite Z.lxor_spec, Z.lor_spec, Z.shiftl_spec, Z.lor_spec, !Z.land_spec by lia.
  rewrite !testbit_colMask, testbit_one_shifted by lia.
  assert (Hocc : ∀ m, 6 * col <= m < 6 * col + 6 →
            Z.testbit p m || Z.testbit o m = (m - 6 * col <? h)).
  { intros m Hm. specialize (Hr (m - 6 * col) ltac:(lia)).
    replace (6 * col + (m - 6 * col)) with m in Hr by lia. exact Hr. }
  destruct (Z.ltb_spec n (6 * col)) as [Hlo|Hlo].
  { (* below the column *)
    replace (6 * col <=? n - 1) with false by (symmetry; apply Z.leb_gt; lia).
    replace (6 * col <=? n) with false by (symmetry; apply Z.leb_gt; lia).
    replace (n =? 6 * col) with false by (symmetry; apply Z.eqb_neq; lia).
    replace (n =? 6 * col + h) with false by (symmetry; apply Z.eqb_neq; lia).
    by rewrite !andb_false_r. }
  destruct (Z.ltb_spec n (6 * col + 6)) as [Hhi|Hhi].
  - (* inside the column *)
    replace (6 * col <=? n) with true by (symmetry; apply Z.leb_le; lia).
    rewrite !andb_true_r.
    pose proof (Hocc n ltac:(lia)) as Hon.
    pose proof (Hd n) as Hdn.
    destruct (Z.eqb_spec n (6 * col)) as [->|Hne].
    + replace (6 * col <=? 6 * col - 1) with false by (symmetry; apply Z.leb_gt; lia).
      rewrite !andb_false_r. simpl.
      destruct (Z.eqb_spec (6 * col) (6 * col + h)) as [Hz|Hz].
      * assert (h = 0) as -> by lia.
        replace (6 * col - 6 * col <? 0) with false in Hon
          by (symmetry; apply Z.ltb_ge; lia).
        apply orb_false_iff in Hon as [-> ->]. done.
      * replace (6 * col - 6 * col <? h) with true in Hon
          by (symmetry; apply Z.ltb_lt; lia).
        destruct (Z.testbit p (6 * col)), (Z.testbit o (6 * col)); done.
    + replace (6 * col <=? n - 1) with true by (symmetry; apply Z.leb_le; lia).
      replace (n - 1 <? 6 * col + 6) with true by (symmetry; apply Z.ltb_lt; lia).
      rewrite !andb_true_r, orb_false_r.
      rewrite (Hocc (n - 1)) by lia.
      destruct (Z.eqb_spec n (6 * col + h)) as [->|Hz].
      * replace (6 * col + h - 6 * col <? h) with false in Hon
          by (symmetry; apply Z.ltb_ge; lia).
        apply orb_false_iff in Hon as [-> ->].
        replace (6 * col + h - 1 - 6 * col <? h) with true
          by (symmetry; apply Z.ltb_lt; lia).
        done.
      * destruct (Z.ltb_spec (n - 6 * col) h) as [Hb|Hb].
        -- replace (n - 1 - 6 * col <? h) with true by (symmetry; apply Z.ltb_lt; lia).
           destruct (Z.testbit p n), (Z.testbit o n); done.
        -- replace (n - 1 - 6 * col <? h) with false by (symmetry; apply Z.ltb_ge; lia).
           apply orb_false_iff in Hon as [-> ->]. done.
  - (* above the column *)
    replace (n =? 6 * col) with false by (symmetry; apply Z.eqb_neq; lia).
    replace (n =? 6 * col + h) with false by (symmetry; apply Z.eqb_neq; lia).
    rewrite !andb_false_r, !orb_false_r.
    destruct (Z.eqb_spec n (6 * col + 6)) as [->|Hne].
    + replace (6 * col <=? 6 * col + 6 - 1) with true by (symmetry; apply Z.leb_le; lia).
      replace (6 * col + 6 - 1 <? 6 * col + 6) with true by (symmetry; apply Z.ltb_lt; lia).
      rewrite !andb_true_r.
      rewrite (Hocc (6 * col + 6 - 1)) by lia.
      rewrite xorb_false_r. apply Z.ltb_ge. lia.
    + replace (n - 1 <? 6 * col + 6) with false by (symmetry; apply Z.ltb_ge; lia).
      by rewrite !andb_false_r.
Qed.

Lemma testbit_moved p o col h n :
  0 <= col →
  (∀ m, Z.testbit p m && Z.testbit o m = false) →
  stacked p o col h → h < 6 →
  Z.testbit (Z.lor p (dropped p o col)) n = Z.testbit p n || (n =? 6 * col + h).
Proof.
  intros Hcol Hd Hst Hlt. destruct (Z.ltb_spec n 0) as [Hn|Hn].
  - rewrite !Z.testbit_neg_r by lia. destruct Hst as [Hh _].
    symmetry. apply Z.eqb_neq. lia.
  - rewrite Z.lor_spec, (testbit_dropped p o col h) by done.
    destruct (Z.testbit p n), (6 * col <=? n), (n <? 6 * col + 6),
      (n =? 6 * col + h); done.
Qed.

(** Dropping a piece into a column with room keeps the position well
    shaped, whichever of the two masks is the mover's. *)
Lemma shaped_drop p o col h :
  0 <= col < 7 → shaped p o → stacked p o col h → h < 6 →
  shaped (Z.lor p (dropped p o col)) o.
Proof.
  intros Hcol (Hd & Hb & Hc) Hst Hlt.
  pose proof Hst as [Hh Hr].
  assert (Hfree : occupied p o (6 * col + h) = false).
  { rewrite Hr by lia. apply Z.ltb_ge. lia. }
  split_and!.
  - intros n. rewrite (testbit_moved p o col h) by (done || lia).
    destruct (Z.eqb_spec n (6 * col + h)) as [->|_].
    + apply orb_false_iff in Hfree as [_ ->]. apply andb_false_r.
    + rewrite orb_false_r. apply Hd.
  - intros n Hn. unfold occupied.
    rewrite (testbit_moved p o col h) by (done || lia).
    replace (n =? 6 * col + h) with false by (symmetry; apply Z.eqb_neq; lia).
    rewrite orb_false_r. by apply Hb.
  - intros c Hc'. destruct (Z.eq_dec c col) as [->|Hne].
    + exists (h + 1). split; [lia|]. intros r Hrr. unfold occupied.
      rewrite (testbit_moved p o col h) by (done || lia).
      specialize (Hr r Hrr). unfold occupied in Hr.
      destruct (Z.eqb_spec (6 * col + r) (6 * col + h)) as [Heq|Hneq].
      * rewrite orb_true_r. simpl. symmetry. apply Z.ltb_lt. lia.
      * rewrite orb_false_r, Hr.
        destruct (Z.ltb_spec r h), (Z.ltb_spec r (h + 1)); (done || lia).
    + destruct (Hc c Hc') as [h' [Hh' Hr']]. exists h'. split; [done|].
      intros r Hrr. unfold occupied.
      rewrite (testbit_moved p o col h) by (done || lia).
      replace (6 * c + r =? 6 * col + h) with false by (symmetry; apply Z.eqb_neq; lia).
      rewrite orb_false_r. by apply Hr'.
Qed.

Lemma get_fields a b t :
  get (a, b, t) 0 = Some a ∧ get (a, b, t) 1 = Some b ∧ get (a, b, t) 2 = Some t.
Proof. done. Qed.

(** On a well-formed state, [updateState] adds the dropped bits to the
    mover's mask and hands the turn over. *)
Lemma updateState_eq a b t col :
  (t = 1 ∨ t = 2) →
  updateState (a, b, t) col =
    Some (if t =? 1 then (Z.lor a (dropped a b col), b, 2)
          else (a, Z.lor b (dropped b a col), 1)).
Proof. intros [-> | ->]; reflexivity. Qed.

Lemma wellFormed_start : wellFormed start.
Proof.
  split; [by left|]. split_and!.
  - intros n. by rewrite Z.bits_0.
  - intros n _. unfold occupied. by rewrite Z.bits_0.
  - intros col Hcol. exists 0. split; [lia|]. intros r Hr. unfold occupied.
    rewrite Z.bits_0. simpl. symmetry. apply Z.ltb_ge. lia.
Qed.

Lemma wellFormed_updateState s col :
  wellFormed s → isLegalMove s col = true →
  ∃ s', updateState s col = Some s' ∧ wellFormed s'.
Proof.
  destruct s as [[a b] t]. intros [Ht Hsh] Hlegal.
  unfold isLegalMove, COLUMNCOUNT in Hlegal.
  apply andb_true_iff in Hlegal as [Hrange Hfull].
  apply andb_true_iff in Hrange as [H0 H7].
  apply Z.leb_le in H0. apply Z.ltb_lt in H7. apply negb_true_iff in Hfull.
  pose proof Hsh as (_ & _ & Hc). destruct (Hc col ltac:(lia)) as [h Hst].
  pose proof (not_full_height a b t col h H0 Hst Hfull) as Hlt.
  rewrite updateState_eq by done. eexists; split; [done|].
  destruct Ht as [-> | ->]; simpl.
  - split; [by right|]. apply shaped_drop with h; (done || lia).
  - split; [by left|]. apply shaped_sym.
    apply shaped_drop with h; [lia | by apply shaped_sym | by apply stacked_sym | done].
Qed.

Lemma wellFormed_reachable s : reachable s → wellFormed s.
Proof.
  induction 1 as [|s col s' _ IH Hlegal Hupd]; [apply wellFormed_start|].
  destruct (wellFormed_updateState s col IH Hlegal) as (s'' & Heq & Hwf).
  congruence.
Qed.

(** From bits back to the masks. *)
Lemma shaped_masks a b :
  shaped a b → Z.land a b = 0 ∧ Z.land (Z.lor a b) boardMask = Z.lor a b.
Proof.
  intros (Hd & Hb & _). split; apply Z.bits_inj'; intros n Hn.
  - rewrite Z.land_spec, Z.bits_0. apply Hd.
  - rewrite Z.land_spec, Z.lor_spec, testbit_boardMask.
    replace (0 <=? n) with true by (symmetry; apply Z.leb_le; lia). simpl.
    destruct (Z.ltb_spec n 42); [apply andb_true_r|].
    rewrite andb_false_r. symmetry. by apply Hb.
Qed.

(** C8: for every state reachable from [start] by legal moves and every
    column that is not full in it, the state returned by [updateState] has
    disjoint masks ([maskA & maskB == 0]) and all its occupied bits inside
    the board mask. *)
Theorem updateState_keeps_masks s col :
  reachable s → 0 <= col < COLUMNCOUNT → isColumnFull s col = false →
  ∃ a' b' t', updateState s col = Some (a', b', t') ∧
    Z.land a' b' = 0 ∧ Z.land (Z.lor a' b') boardMask = Z.lor a' b'.
Proof.
  intros Hreach Hcol Hfull.
  assert (Hlegal : isLegalMove s col = true).
  { unfold isLegalMove. rewrite Hfull.
    replace (0 <=? col) with true by (symmetry; apply Z.leb_le; lia).
    replace (col <? COLUMNCOUNT) with true by (symmetry; apply Z.ltb_lt; lia).
    done. }
  destruct (wellFormed_updateState s col (wellFormed_reachable s Hreach) Hlegal)
    as ([[a' b'] t'] & Heq & _ & Hsh).
  exists a', b', t'. split; [done|]. by apply shaped_masks.
Qed.

Lemma updateState_keeps_masks_witness :
  ∃ a' b' t', updateState (262144, 0, 2) 3 = Some (a', b', t') ∧
    Z.land a' b' = 0 ∧ Z.land (Z.lor a' b') boardMask = Z.lor a' b'.
Proof.
  apply (updateState_keeps_masks (262144, 0, 2) 3).
  - apply (reachable_move start 3); [apply reachable_start | reflexivity | reflexivity].
  - unfold COLUMNCOUNT. lia.
  - reflexivity.
Defined.



End BoardFacts.

Module AIFacts.
Import Board AI Scenes.

Lemma sixColumns_play : play start sixColumns = Some oneMoveLeft.
Proof. by vm_compute. Qed.

Lemma drawnGame_play : play start drawnGame = Some fullBoard.
Proof. by vm_compute. Qed.

Lemma choice_elem {A} r (l : list A) x : choice r l = Some x → x ∈ l.
Proof. unfold choice. apply list_elem_of_lookup_2. Qed.

Lemma choice_total {A} r (l : list A) : l ≠ [] → is_Some (choice r l).
Proof.
  intros Hne. unfold choice. apply lookup_lt_is_Some.
  apply Nat.mod_upper_bound. by destruct l.
Qed.

Lemma choice_any {A} (l : list A) x : x ∈ l → ∃ r, choice r l = Some x.
Proof.
  intros Hin. apply list_elem_of_lookup_1 in Hin as [i Hi]. exists i.
  unfold choice. rewrite Nat.mod_small; [done|]. by eapply lookup_lt_Some.
Qed.

Lemma allIn_false_nonempty plays nextStates :
  allIn plays nextStates = false → nextStates ≠ [].
Proof. by intros H ->. Qed.

(** C5, as stated, fails: with the child for column 0 already in the
    store and the six others not, a draw of 0 moves to the stored child. *)
Lemma random_step_may_revisit :
  ¬ ∀ uct plays wins state nextStates r s,
      mapM (updateState state) (getLegalMoves state) = Some nextStates →
      allIn plays nextStates = false →
      chooseChild uct plays wins nextStates r = Some s →
      plays !! s = None.
Proof.
  intros H.
  specialize (H noUct (plays afterLoss) (wins afterLoss) start
    [(1, 0, 2); (64, 0, 2); (4096, 0, 2); (262144, 0, 2); (16777216, 0, 2);
     (1073741824, 0, 2); (68719476736, 0, 2)] 0%nat (1, 0, 2)).
  discriminate H; by vm_compute.
Qed.

(** C5, amended: in an iteration where not all children are in the
    store, the random step moves to one of the children of the current
    state, and every child, stored or not, is a possible outcome. *)
Theorem random_step_support uct plays wins nextStates :
  allIn plays nextStates = false →
  (∀ r, ∃ s, chooseChild uct plays wins nextStates r = Some s ∧ s ∈ nextStates) ∧
  (∀ s, s ∈ nextStates → ∃ r, chooseChild uct plays wins nextStates r = Some s).
Proof.
  intros Hall. unfold chooseChild. rewrite Hall. split.
  - intros r.
    destruct (choice_total r nextStates (allIn_false_nonempty _ _ Hall)) as [s Hs].
    exists s. split; [done|]. by eapply choice_elem.
  - apply choice_any.
Qed.

Lemma random_step_support_witness :
  let nextStates := [(1, 0, 2); (64, 0, 2); (4096, 0, 2)] in
  (∀ r, ∃ s, chooseChild noUct (plays afterLoss) (wins afterLoss) nextStates r = Some s
             ∧ s ∈ nextStates) ∧
  (∀ s, s ∈ nextStates →
        ∃ r, chooseChild noUct (plays afterLoss) (wins afterLoss) nextStates r = Some s).
Proof.
  apply (random_step_support noUct (plays afterLoss) (wins afterLoss)
           [(1, 0, 2); (64, 0, 2); (4096, 0, 2)]).
  reflexivity.
Defined.

(** When no child of the root has a positive win rate, the selection
    loop never replaces its initial [None]. *)
Lemma selectLoop_no_positive state plays wins legal :
  Forall (λ move, ∃ nextState rate,
            updateState state move = Some nextState ∧
            winRate plays wins nextState = Some rate ∧
            Qle_bool rate 0 = true) legal →
  selectLoop state plays wins legal None 0%Q = Some None.
Proof.
  induction 1 as [|move legal (ns & rate & Hu & Hw & Hle) _ IH]; [done|].
  simpl. rewrite Hu. simpl. rewrite Hw. simpl. by rewrite Hle.
Qed.

(** What the selection loop returns in general: either no move beats the
    rate it started from and its initial answer stands, or it returns the
    earliest move of the highest rate. *)
Lemma selectLoop_spec state plays wins legal nextMove highest r :
  selectLoop state plays wins legal nextMove highest = Some r →
  (r = nextMove ∧
   Forall (λ move, ∃ q, childRate state plays wins move = Some q ∧ (q <= highest)%Q)
          legal) ∨
  (∃ pre move post q,
     legal = pre ++ move :: post ∧ r = Some move ∧
     childRate state plays wins move = Some q ∧ (highest < q)%Q ∧
     Forall (λ m, ∃ q', childRate state plays wins m = Some q' ∧ (q' < q)%Q) pre ∧
     Forall (λ m, ∃ q', childRate state plays wins m = Some q' ∧ (q' <= q)%Q) post).
Proof.
  revert nextMove highest.
  induction legal as [|move legal IH]; intros nextMove highest Hloop; simpl in Hloop.
  { injection Hloop as <-. left. by split. }
  assert (∃ rate, childRate state plays wins move = Some rate) as [rate Hrate].
  { unfold childRate. destruct (updateState state move) as [ns|]; [|done]. simpl in *.
    destruct (winRate plays wins ns) as [q|]; [by exists q|done]. }
  assert (Hloop' :
    (if negb (Qle_bool rate highest)
     then selectLoop state plays wins legal (Some move) rate
     else selectLoop state plays wins legal nextMove highest) = Some r).
  { unfold childRate in Hrate. destruct (updateState state move) as [ns|]; [|done].
    simpl in *. by rewrite Hrate in Hloop. }
  clear Hloop. destruct (Qle_bool rate highest) eqn:Hle; simpl in Hloop'.
  - apply Qle_bool_iff in Hle.
    destruct (IH _ _ Hloop') as [[-> Hall] | (pre & m & post & q & -> & -> & Hq & Hlt & Hpre & Hpost)].
    + left. split; [done|]. constructor; [by exists rate|done].
    + right. exists (move :: pre), m, post, q. split_and!; try done.
      constructor; [|done]. exists rate. split; [done|]. by eapply Qle_lt_trans.
  - assert (Hlt : (highest < rate)%Q).
    { apply Qnot_le_lt. intros H. apply Qle_bool_iff in H. congruence. }
    destruct (IH _ _ Hloop') as [[-> Hall] | (pre & m & post & q & -> & -> & Hq & Hlt' & Hpre & Hpost)].
    + right. exists [], move, legal, rate. by split_and!.
    + right. exists (move :: pre), m, post, q. split_and!; try done.
      * by eapply Qlt_trans.
      * constructor; [|done]. by exists rate.
Qed.

(** C6 fails on the code: from the initial position (seven legal moves),
    after a playout that the opponent wins, every child has win rate 0 and
    [getNextMoves] returns [None] instead of a legal move. *)
Theorem getNextMoves_none_after_loss uct :
  getLegalMoves start = [0; 1; 2; 3; 4; 5; 6] ∧
  getNextMoves uct fresh [lostPlayout] = Some (PyNone, afterLoss) ∧
  getNextMoves uct fresh [] = Some (PyNone, fresh).
Proof. split_and!; by vm_compute. Qed.

(** C7: with exactly one legal move [getNextMoves] returns it and leaves
    the engine, and so both statistics dictionaries, as they were; with no
    legal move it returns [False]. *)
Theorem getNextMoves_forced uct ai sims state :
  Py.index (states ai) (-1) = Some state →
  (∀ move, getLegalMoves state = [move] →
     getNextMoves uct ai sims = Some (PyMove move, ai)) ∧
  (getLegalMoves state = [] → getNextMoves uct ai sims = Some (PyFalse, ai)).
Proof.
  intros Hlast. unfold getNextMoves. rewrite Hlast. simpl.
  split; [intros move|]; intros ->; done.
Qed.

Lemma getNextMoves_forced_witness :
  getNextMoves noUct (AI.mk [start; oneMoveLeft] (plays afterLoss) (wins afterLoss) 50)
      [lostPlayout] =
    Some (PyMove 6, AI.mk [start; oneMoveLeft] (plays afterLoss) (wins afterLoss) 50) ∧
  getNextMoves noUct (AI.mk [start; fullBoard] (plays afterLoss) (wins afterLoss) 50)
      [lostPlayout] =
    Some (PyFalse, AI.mk [start; fullBoard] (plays afterLoss) (wins afterLoss) 50).
Proof.
  split.
  - apply (getNextMoves_forced noUct
             (AI.mk [start; oneMoveLeft] (plays afterLoss) (wins afterLoss) 50)
             [lostPlayout] oneMoveLeft); reflexivity.
  - apply (getNextMoves_forced noUct
             (AI.mk [start; fullBoard] (plays afterLoss) (wins afterLoss) 50)
             [lostPlayout] fullBoard); reflexivity.
Defined.

End AIFacts.

Module GridFacts.
Import ConnectFiveBoard GridShape.

Lemma index_in_range {A} (l : list A) i :
  0 <= i < Py.len l → Py.index l i = l !! Z.to_nat i.
Proof.
  intros Hi. unfold Py.index, Py.len in *.
  replace (0 <=? i) with true by (symmetry; apply Z.leb_le; lia).
  by replace (i <? Z.of_nat (length l)) with true by (symmetry; apply Z.ltb_lt; lia).
Qed.

Lemma setitem_in_range {A} (l : list A) i x :
  0 <= i < Py.len l → Py.setitem l i x = Some (<[Z.to_nat i := x]> l).
Proof.
  intros Hi. unfold Py.setitem, Py.len in *.
  replace (0 <=? i) with true by (symmetry; apply Z.leb_le; lia).
  by replace (i <? Z.of_nat (length l)) with true by (symmetry; apply Z.ltb_lt; lia).
Qed.

Lemma pop_snoc {A} (l : list A) x : Py.pop (l ++ [x]) = Some (x, l).
Proof. unfold Py.pop. by rewrite reverse_snoc, reverse_involutive. Qed.

Lemma pop_Some {A} (l : list A) x r : Py.pop l = Some (x, r) → l = r ++ [x].
Proof.
  unfold Py.pop. destruct (reverse l) as [|y k] eqn:Hrev; [done|].
  intros [= -> <-]. rewrite <- (reverse_involutive l), Hrev. apply reverse_cons.
Qed.

Lemma len_snoc {A} (l : list A) x : Py.len (l ++ [x]) = Py.len l + 1.
Proof. unfold Py.len. rewrite length_app. simpl. lia. Qed.

Section InBounds.
Context (g : t) (row col : Z).
Hypothesis Hwf : wellFormed g.
Hypothesis Hin : inBounds g row col.

Lemma row_in_bounds :
  ∃ r, board g !! Z.to_nat row = Some r ∧ Py.index (board g) row = Some r ∧
       Py.len r = size g.
Proof using Hwf Hin.
  destruct Hwf as (H0 & Hlen & Hrows & _), Hin as [Hr Hc].
  destruct (lookup_lt_is_Some_2 (board g) (Z.to_nat row)) as [r Hlk]; [lia|].
  exists r. split; [done|]. split.
  - rewrite index_in_range; [done|]. unfold Py.len. lia.
  - unfold Py.len. rewrite (Forall_lookup_1 _ _ _ _ Hrows Hlk). lia.
Qed.

Lemma cell_in_bounds :
  ∃ r sq, board g !! Z.to_nat row = Some r ∧ r !! Z.to_nat col = Some sq ∧
          cell (board g) row col = Some sq.
Proof using Hwf Hin.
  destruct row_in_bounds as (r & Hlk & Hidx & Hlen). destruct Hin as [_ Hc].
  destruct (lookup_lt_is_Some_2 r (Z.to_nat col)) as [sq Hsq].
  { unfold Py.len in Hlen. lia. }
  exists r, sq. split_and!; [done..|].
  unfold cell. rewrite Hidx. simpl. rewrite index_in_range; [done|lia].
Qed.

Lemma setCell_in_bounds r v :
  board g !! Z.to_nat row = Some r →
  setCell (board g) row col v =
    Some (<[Z.to_nat row := <[Z.to_nat col := v]> r]> (board g)).
Proof using Hwf Hin.
  intros Hlk. destruct row_in_bounds as (r' & Hlk' & Hidx & Hlen).
  assert (r' = r) as -> by congruence.
  destruct Hwf as (H0 & Hblen & _), Hin as [Hr Hc].
  unfold setCell. rewrite Hidx. simpl.
  rewrite setitem_in_range by lia. simpl.
  rewrite setitem_in_range; [done|]. unfold Py.len. lia.
Qed.

Lemma zobrist_in_bounds piece : is_Some (zobrist g row col piece).
Proof using Hwf Hin.
  destruct Hwf as (H0 & _ & _ & Hlen & Hrows), Hin as [Hr Hc].
  destruct (lookup_lt_is_Some_2 (squareValue g) (Z.to_nat row)) as [r Hlk]; [lia|].
  pose proof (Forall_lookup_1 _ _ _ _ Hrows Hlk) as Hrl. simpl in Hrl.
  destruct (lookup_lt_is_Some_2 r (Z.to_nat col)) as [v Hv]; [lia|].
  unfold zobrist. rewrite index_in_range by (unfold Py.len; lia).
  rewrite Hlk. simpl. rewrite index_in_range by (unfold Py.len; lia).
  rewrite Hv. simpl. done.
Qed.

End InBounds.

(** Reading a square inside the board after writing to the board. *)
Lemma cell_written g row col r v :
  wellFormed g → inBounds g row col →
  board g !! Z.to_nat row = Some r →
  cell (<[Z.to_nat row := <[Z.to_nat col := v]> r]> (board g)) row col = Some v.
Proof.
  intros (H0 & Hlen & Hrows & _) [Hr Hc] Hlk.
  pose proof (Forall_lookup_1 _ _ _ _ Hrows Hlk) as Hrl. simpl in Hrl.
  unfold cell. rewrite index_in_range by (unfold Py.len; rewrite length_insert; lia).
  rewrite list_lookup_insert_eq by lia. simpl.
  rewrite index_in_range by (unfold Py.len; rewrite length_insert; lia).
  apply list_lookup_insert_eq. lia.
Qed.

Lemma lxor_twice h z : Z.lxor (Z.lxor h z) z = h.
Proof. by rewrite Z.lxor_assoc, Z.lxor_nilpotent, Z.lxor_0_r. Qed.

Lemma init_wellFormed n h rnd : 0 <= n → wellFormed (init n h rnd).
Proof.
  intros Hn. unfold wellFormed, init, Py.range. simpl. split_and!.
  - done.
  - apply length_replicate.
  - apply Forall_replicate, length_replicate.
  - rewrite length_fmap, length_seqZ. lia.
  - apply Forall_fmap, Forall_forall. intros row _. simpl.
    rewrite length_fmap, length_seqZ. lia.
Qed.

(** What [placePiece] does to a square of the board. *)
Lemma placePiece_in_bounds g row col piece r :
  wellFormed g → inBounds g row col → board g !! Z.to_nat row = Some r →
  ∃ z, zobrist g row col piece = Some z ∧
    placePiece g row col piece =
      Some (mk (size g) (<[Z.to_nat row := <[Z.to_nat col := Some piece]> r]> (board g))
               (undoStack g ++ [(row, col, piece)]) (Z.lxor (hashKey g) z)
               (squareValue g)).
Proof.
  intros Hwf Hin Hlk. destruct (zobrist_in_bounds g row col Hwf Hin piece) as [z Hz].
  exists z. split; [done|]. unfold placePiece.
  rewrite (setCell_in_bounds g row col Hwf Hin r) by done. simpl. by rewrite Hz.
Qed.

Lemma written_wellFormed g row col r v u h :
  wellFormed g → inBounds g row col → board g !! Z.to_nat row = Some r →
  wellFormed (mk (size g) (<[Z.to_nat row := <[Z.to_nat col := v]> r]> (board g)) u h
                 (squareValue g)).
Proof.
  intros (H0 & Hlen & Hrows & Hsq) _ Hlk. unfold wellFormed. simpl.
  split_and!; [done | by rewrite length_insert | | apply Hsq..].
  apply Forall_insert; [done|]. rewrite length_insert.
  by apply (Forall_lookup_1 _ _ _ _ Hrows Hlk).
Qed.

Lemma placePiece_wellFormed g row col piece g' :
  wellFormed g → inBounds g row col → placePiece g row col piece = Some g' →
  wellFormed g'.
Proof.
  intros Hwf Hin Hp. destruct (cell_in_bounds g row col Hwf Hin) as (r & sq & Hlk & _).
  destruct (placePiece_in_bounds g row col piece r Hwf Hin Hlk) as (z & _ & Heq).
  rewrite Heq in Hp. injection Hp as <-. by apply written_wellFormed.
Qed.

(** C2: for every grid state, every empty in-bounds cell and every piece
    X or O, [placePiece] followed by [undoMove] restores the hash to its
    value before the call, the cell to empty and the undo stack to its
    prior contents. *)
Theorem place_undo_roundtrip g row col piece :
  wellFormed g → inBounds g row col → cell (board g) row col = Some None →
  piece = "X"%string ∨ piece = "O"%string →
  ∃ g1 g2, placePiece g row col piece = Some g1 ∧ undoMove g1 = Some g2 ∧
    cell (board g1) row col = Some (Some piece) ∧
    hashKey g2 = hashKey g ∧ cell (board g2) row col = Some None ∧
    undoStack g2 = undoStack g ∧ g2 = g.
Proof.
  intros Hwf Hin Hempty _.
  destruct (cell_in_bounds g row col Hwf Hin) as (r & sq & Hlk & Hsq & Hcell).
  assert (sq = None) as -> by congruence.
  destruct (placePiece_in_bounds g row col piece r Hwf Hin Hlk) as (z & Hz & Hplace).
  set (g1 := mk _ _ _ _ _) in Hplace.
  assert (Hwf1 : wellFormed g1) by (by apply written_wellFormed).
  assert (Hlk1 : board g1 !! Z.to_nat row = Some (<[Z.to_nat col := Some piece]> r)).
  { simpl. apply list_lookup_insert_eq. by eapply lookup_lt_Some. }
  assert (Hundo : undoMove g1 = Some g).
  { pose proof (setCell_in_bounds g1 row col Hwf1 Hin _ None Hlk1) as Hset.
    simpl in Hset. unfold undoMove. simpl. rewrite pop_snoc. simpl.
    rewrite Hset. simpl.
    change (zobrist _ row col piece) with (zobrist g row col piece).
    rewrite Hz. simpl. rewrite lxor_twice, !list_insert_insert_eq.
    rewrite (list_insert_id r) by done. rewrite list_insert_id by done.
    by destruct g. }
  exists g1, g. split_and!; try done.
  simpl. by apply cell_written.
Qed.

Lemma place_undo_roundtrip_witness :
  ∃ g1 g2, placePiece empty15 7 7 "X" = Some g1 ∧ undoMove g1 = Some g2 ∧
    cell (board g1) 7 7 = Some (Some "X"%string) ∧
    hashKey g2 = hashKey empty15 ∧ cell (board g2) 7 7 = Some None ∧
    undoStack g2 = undoStack empty15 ∧ g2 = empty15.
Proof.
  apply (place_undo_roundtrip empty15 7 7 "X").
  - apply init_wellFormed. lia.
  - unfold inBounds. simpl. lia.
  - reflexivity.
  - by left.
Defined.

Lemma isLegalMove_spec g row col :
  wellFormed g →
  ∃ legal, isLegalMove g row col = Some legal ∧
    (legal = true ↔ inBounds g row col ∧ cell (board g) row col = Some None).
Proof.
  intros Hwf. unfold isLegalMove.
  destruct ((0 <=? row) && (row <? size g) && (0 <=? col) && (col <? size g)) eqn:Hb.
  - apply andb_true_iff in Hb as [Hb H4]. apply andb_true_iff in Hb as [Hb H3].
    apply andb_true_iff in Hb as [H1 H2].
    assert (Hin : inBounds g row col) by (unfold inBounds; lia).
    destruct (cell_in_bounds g row col Hwf Hin) as (r & sq & _ & _ & ->). simpl.
    eexists; split; [done|]. rewrite bool_decide_eq_true.
    split; [intros ->; by split | intros [_ Heq]; congruence].
  - exists false. split; [done|]. split; [done|]. intros [[Hr Hc] _].
    exfalso. apply not_true_iff_false in Hb. apply Hb.
    rewrite !andb_true_iff. lia.
Qed.




(** What [userUndoMove] does when the two newest moves are in bounds: two
    entries leave the stack, both random values are XORed back, and the
    board is the one it was given. *)
Lemma userUndoMove_two g rest r2 c2 p2 r1 c1 p1 :
  wellFormed g → undoStack g = rest ++ [(r2, c2, p2); (r1, c1, p1)] →
  inBounds g r1 c1 → inBounds g r2 c2 →
  ∃ z1 z2, zobrist g r1 c1 p1 = Some z1 ∧ zobrist g r2 c2 p2 = Some z2 ∧
    userUndoMove g =
      Some (mk (size g) (board g) rest (Z.lxor (Z.lxor (hashKey g) z1) z2)
               (squareValue g)).
Proof.
  intros Hwf Hstack Hin1 Hin2.
  destruct (zobrist_in_bounds g r1 c1 Hwf Hin1 p1) as [z1 Hz1].
  destruct (zobrist_in_bounds g r2 c2 Hwf Hin2 p2) as [z2 Hz2].
  exists z1, z2. split_and!; [done..|]. unfold userUndoMove.
  replace (undoStack g) with ((rest ++ [(r2, c2, p2)]) ++ [(r1, c1, p1)])
    by (by rewrite Hstack, <- app_assoc).
  replace (Py.len _ >=? 2) with true.
  2:{ symmetry. apply Z.geb_le. rewrite !len_snoc. unfold Py.len. lia. }
  rewrite pop_snoc. simpl.
  rewrite Hz1. simpl. rewrite pop_snoc. simpl. by rewrite Hz2.
Qed.

Lemma userUndoMove_short g :
  Py.len (undoStack g) < 2 → userUndoMove g = Some g.
Proof.
  intros Hlen. unfold userUndoMove.
  by replace (_ >=? 2) with false by (symmetry; rewrite Z.geb_leb; apply Z.leb_gt; lia).
Qed.

Lemma userUndoMove_board g g' : userUndoMove g = Some g' → board g' = board g.
Proof.
  unfold userUndoMove. destruct (_ >=? 2); [|by intros [= <-]].
  intros H. repeat (simplify_option_eq || case_match). done.
Qed.

(** C1 fails on the code: after X at (7,7) and O at (7,8) on the empty
    15 by 15 grid, [userUndoMove] empties the undo stack and brings the
    hash back to its initial value, but both squares still hold their
    pieces, so that replaying (7,7) is refused. *)
Theorem userUndoMove_leaves_pieces :
  ∃ g', userUndoMove twoPlies = Some g' ∧
    undoStack twoPlies = [(7, 7, "X"); (7, 8, "O")]%string ∧
    undoStack g' = [] ∧ hashKey g' = hashKey empty15 ∧
    board g' = board twoPlies ∧
    cell (board g') 7 7 = Some (Some "X"%string) ∧
    cell (board g') 7 8 = Some (Some "O"%string) ∧
    userPlacePiece g' 7 7 "X" = Some (false, g').
Proof. eexists. split; [by vm_compute|]. split_and!; by vm_compute. Qed.

(** C10: [selfHasFour] is [False] whenever the undo stack holds eight
    moves or fewer, and [opponentHasFour] whenever it holds six or fewer,
    whatever the board holds; so [findNextMove] never leaves by its
    quick-win return during the first eight plies. *)
Theorem four_checks_guarded g :
  (Py.len (undoStack g) <= 8 →
     selfHasFour g = Some false ∧
     ∀ search turn path answer g',
       ConnectFiveEngine.findNextMoveVia search g turn = Some (path, answer, g') →
       path ≠ ConnectFiveEngine.QuickWin) ∧
  (Py.len (undoStack g) <= 6 → opponentHasFour g = Some false).
Proof.
  split.
  - intros Hlen.
    assert (Hfour : selfHasFour g = Some false).
    { unfold selfHasFour.
      by replace (_ >? 8) with false by (symmetry; rewrite Z.gtb_ltb; apply Z.ltb_ge; lia). }
    split; [done|]. intros search turn path answer g'.
    unfold ConnectFiveEngine.findNextMoveVia. rewrite Hfour. simpl.
    destruct (isBoardEmpty g).
    + destruct (placePiece g _ _ turn) as [g1|]; simpl; [|done].
      destruct (ConnectFiveEngine.overallHeuristicScore g1 _); simpl; [|done].
      destruct (undoMove g1); simpl; [|done]. by intros [= <- _ _].
    + destruct (search g turn) as [[? ?]|]; simpl; [|done]. by intros [= <- _ _].
  - intros Hlen. unfold opponentHasFour.
    by replace (_ >? 6) with false by (symmetry; rewrite Z.gtb_ltb; apply Z.ltb_ge; lia).
Qed.

(** The position of the witness does hold an open four for the side to
    move, and the quick search would find its winning square. *)
Lemma openFour_is_open :
  Py.len (undoStack openFour) = 8 ∧
  Py.index (undoStack openFour) (-2) = Some (7, 6, "X"%string) ∧
  hasRowCombination openFour 7 6 "X" 4 1 = Some true ∧
  findQuickWin openFour = Some (Some (Some 7, Some 2)).
Proof. split_and!; by vm_compute. Qed.

Lemma four_checks_guarded_witness :
  (selfHasFour openFour = Some false ∧
   ∀ search turn path answer g',
     ConnectFiveEngine.findNextMoveVia search openFour turn = Some (path, answer, g') →
     path ≠ ConnectFiveEngine.QuickWin) ∧
  opponentHasFour sixPlies = Some false.
Proof.
  split.
  - apply (four_checks_guarded openFour). by vm_compute.
  - apply (four_checks_guarded sixPlies). by vm_compute.
Defined.

End GridFacts.

Module HeuristicFacts.
Import ConnectFiveBoard ConnectFiveEngine Streaks.

Lemma runsBefore_S sequence k :
  runsBefore sequence (S k) =
    runsBefore sequence k ++ option_list (runAt sequence k).
Proof.
  unfold runsBefore. rewrite seq_S, omap_app. simpl.
  by destruct (runAt sequence k).
Qed.

Lemma runsBefore_skip sequence a k :
  (∀ j, (a ≤ j < a + k)%nat → runAt sequence j = None) →
  runsBefore sequence (a + k) = runsBefore sequence a.
Proof.
  induction k as [|k IH]; intros Hnone.
  - by rewrite Nat.add_0_r.
  - rewrite Nat.add_succ_r, runsBefore_S, Hnone by lia. simpl.
    rewrite app_nil_r. apply IH. intros j Hj. apply Hnone. lia.
Qed.

Lemma runLength_exact p l c :
  (∀ j, (j < c)%nat → l !! j = Some (Some p)) →
  l !! c ≠ Some (Some p) →
  runLength p l = c.
Proof.
  revert l. induction c as [|c IH]; intros l Hin Hout.
  - destruct l as [|sq l]; [done|]. simpl in *.
    rewrite bool_decide_eq_false_2; [done|]. intros ->. by apply Hout.
  - destruct l as [|sq l]; [by specialize (Hin 0%nat ltac:(lia))|].
    pose proof (Hin 0%nat ltac:(lia)) as H0. simpl in H0. injection H0 as ->.
    simpl. rewrite bool_decide_eq_true_2 by done. f_equal.
    apply IH; [|done]. intros j Hj. apply (Hin (S j)). lia.
Qed.

Lemma runAt_inside sequence j p :
  sequence !! j = Some (Some p) → sequence !! S j = Some (Some p) →
  runAt sequence (S j) = None.
Proof.
  intros Hj HSj. unfold runAt, runStart. rewrite HSj.
  by rewrite bool_decide_eq_true_2.
Qed.

Lemma runAt_empty sequence j : sequence !! j = Some None → runAt sequence j = None.
Proof. intros Hj. unfold runAt, runStart. by rewrite Hj. Qed.

Lemma prevSquare_S sequence i sq :
  sequence !! i = Some sq → prevSquare sequence (S i) = sq.
Proof. intros H. unfold prevSquare. by rewrite H. Qed.

(** The run that the loop closes at position [i]. *)
Lemma runAt_closed sequence i c p square :
  (0 < c ≤ i)%nat → runStart sequence (i - c) = Some p →
  (∀ j, (i - c ≤ j < i)%nat → sequence !! j = Some (Some p)) →
  sequence !! i = Some square → square ≠ Some p →
  runAt sequence (i - c) = Some (mkRun (i - c) c p).
Proof.
  intros Hc Hstart Hall Hsq Hne. unfold runAt. rewrite Hstart. simpl.
  do 2 f_equal. apply runLength_exact.
  - intros j Hj. rewrite lookup_drop. apply Hall. lia.
  - rewrite lookup_drop. replace (i - c + c)%nat with i by lia.
    rewrite Hsq. congruence.
Qed.

Lemma runsBefore_closed sequence i c p square :
  (0 < c ≤ i)%nat → runStart sequence (i - c) = Some p →
  (∀ j, (i - c ≤ j < i)%nat → sequence !! j = Some (Some p)) →
  sequence !! i = Some square → square ≠ Some p →
  runsBefore sequence i = runsBefore sequence (i - c) ++ [mkRun (i - c) c p].
Proof.
  intros Hc Hstart Hall Hsq Hne.
  replace i with (S (i - c) + (c - 1))%nat at 1 by lia.
  rewrite runsBefore_skip.
  - by rewrite runsBefore_S, (runAt_closed sequence i c p square).
  - intros j Hj. destruct j as [|j]; [lia|].
    apply (runAt_inside sequence j p); apply Hall; lia.
Qed.

(** The two ends as the loop counts them and as [blockedEnds] does. *)
Lemma right_end (sequence : list Square) i square :
  sequence !! i = Some square →
  (if negb (bool_decide (square = None)) || (Z.of_nat i >=? Py.len sequence - 1)
   then 1 else 0) =
  (if bool_decide (sequence !! i = Some None)
      && bool_decide (S i < length sequence)%nat
   then 0 else 1).
Proof.
  intros Hsq. rewrite Hsq. unfold Py.len.
  destruct square as [q|].
  - by rewrite (bool_decide_eq_false_2 (Some (Some q) = Some None)).
  - rewrite !bool_decide_eq_true_2 by done. simpl.
    destruct (Z.geb_spec (Z.of_nat i) (Z.of_nat (length sequence) - 1)).
    + by rewrite bool_decide_eq_false_2 by lia.
    + by rewrite bool_decide_eq_true_2 by lia.
Qed.

Lemma left_end (sequence : list Square) i c :
  (c ≤ i < length sequence)%nat →
  (if Z.of_nat i - Z.of_nat c - 1 <? 0 then Some 1
   else sq ← Py.index sequence (Z.of_nat i - Z.of_nat c - 1);
        Some (if negb (bool_decide (sq = None)) then 1 else 0)) =
  Some (match (i - c)%nat with
        | O => 1
        | S s' => if bool_decide (sequence !! s' = Some None) then 0 else 1
        end).
Proof.
  intros Hi. destruct (i - c)%nat as [|s'] eqn:Hs.
  - by replace (_ <? 0) with true by (symmetry; apply Z.ltb_lt; lia).
  - replace (_ <? 0) with false by (symmetry; apply Z.ltb_ge; lia).
    rewrite GridFacts.index_in_range by (unfold Py.len; lia).
    replace (Z.to_nat _) with s' by lia.
    destruct (lookup_lt_is_Some_2 sequence s') as [sq Hsq]; [lia|].
    rewrite Hsq. simpl. destruct sq as [q|].
    + by rewrite (bool_decide_eq_false_2 (Some (Some q) = Some None)).
    + by rewrite !bool_decide_eq_true_2.
Qed.

(** One turn of the loop keeps [scanInv]. *)
(** No key of the dictionary has a length above five. *)
Lemma combinationScore_long n b m : 5 < n → combinationScore !! (n, b, m) = None.
Proof.
  intros Hn. unfold combinationScore. apply not_elem_of_list_to_map. simpl.
  intros Hin.
  repeat (apply elem_of_cons in Hin as [Heq|Hin]; [injection Heq; lia|]).
  by apply elem_of_nil in Hin.
Qed.

Lemma runLength_spec p l :
  (∀ j, (j < runLength p l)%nat → l !! j = Some (Some p)) ∧
  l !! runLength p l ≠ Some (Some p).
Proof.
  induction l as [|sq l [IH1 IH2]]; simpl; [split; [lia|done]|].
  destruct (decide (sq = Some p)) as [->|Hne].
  - rewrite bool_decide_eq_true_2 by done. split; [|done].
    intros [|j] Hj; [done|]. apply IH1. lia.
  - rewrite bool_decide_eq_false_2 by done. split; [lia|]. simpl. congruence.
Qed.

(** [maximalRuns] lists exactly the maximal runs of the line. *)
Lemma maximalRuns_spec sequence r :
  r ∈ maximalRuns sequence ↔ isMaximalRun sequence r.
Proof.
  unfold maximalRuns, runsBefore. rewrite list_elem_of_omap. split.
  - intros (s & _ & Hat). unfold runAt in Hat.
    destruct (runStart sequence s) as [p|] eqn:Hstart; [|done].
    injection Hat as <-. unfold isMaximalRun. simpl.
    destruct (runLength_spec p (drop s sequence)) as [Hin Hout].
    unfold runStart in Hstart.
    destruct (sequence !! s) as [[q|]|] eqn:Hs; try done.
    assert (Hq : q = p ∧ ∀ s', s = S s' → sequence !! s' ≠ Some (Some p)).
    { destruct s as [|s']; [by injection Hstart as ->|].
      destruct (decide (sequence !! s' = Some (Some q))) as [He|He].
      - by rewrite bool_decide_eq_true_2 in Hstart.
      - rewrite bool_decide_eq_false_2 in Hstart by done. injection Hstart as ->.
        split; [done|]. by intros ? [= <-]. }
    destruct Hq as [-> Hbefore]. split_and!.
    + destruct (drop s sequence) as [|sq l] eqn:Hd.
      * apply (f_equal (λ l, l !! 0%nat)) in Hd. rewrite lookup_drop, Nat.add_0_r in Hd.
        simpl in Hd. congruence.
      * apply (f_equal (λ l, l !! 0%nat)) in Hd. rewrite lookup_drop, Nat.add_0_r in Hd.
        simpl in Hd. assert (sq = Some p) as -> by congruence.
        simpl. rewrite bool_decide_eq_true_2 by done. lia.
    + intros j Hj. specialize (Hin (j - s)%nat ltac:(lia)).
      rewrite lookup_drop in Hin. by replace (s + (j - s))%nat with j in Hin by lia.
    + done.
    + by rewrite lookup_drop in Hout.
  - destruct r as [s n p]. intros (Hpos & Hin & Hbefore & Hafter). simpl in *.
    assert (Hs : sequence !! s = Some (Some p)) by (apply Hin; lia).
    exists s. split.
    + apply elem_of_seq. pose proof (lookup_lt_Some _ _ _ Hs). lia.
    + unfold runAt.
      assert (Hstart : runStart sequence s = Some p).
      { unfold runStart. rewrite Hs. destruct s as [|s']; [done|].
        rewrite bool_decide_eq_false_2; [done|]. by apply Hbefore. }
      rewrite Hstart. simpl. do 2 f_equal. apply runLength_exact.
      * intros j Hj. rewrite lookup_drop. apply Hin. lia.
      * by rewrite lookup_drop.
Qed.

Local Opaque combinationScore.

Lemma scanStep_inv sequence turn i st square :
  scanInv sequence turn i st → sequence !! i = Some square →
  ∃ st', scanStep sequence turn st (Z.of_nat i) square = Some st' ∧
         scanInv sequence turn (S i) st'.
Proof.
  destruct st as [cnt tot pc].
  intros (c & Hc & Hle & Hprev & Htot & Hrun) Hsq. simpl in *. subst cnt.
  pose proof (lookup_lt_Some _ _ _ Hsq) as Hlen.
  unfold scanStep. simpl.
  destruct (decide (square = pc)) as [->|Hne].
  - rewrite bool_decide_eq_true_2 by done. destruct pc as [p|].
    + (* the run goes on *)
      destruct Hrun as (Hpos & Hstart & Hall).
      eexists. split; [done|]. exists (S c). simpl.
      replace (S i - S c)%nat with (i - c)%nat by lia.
      split_and!; [lia | lia | symmetry; by apply prevSquare_S | done | lia | done |].
      intros j Hj. destruct (decide (j = i)) as [->|]; [done|]. apply Hall. lia.
    + (* empty squares *)
      subst c. eexists. split; [done|]. exists 0%nat. simpl.
      split_and!; [done | lia | symmetry; by apply prevSquare_S | | done].
      rewrite Nat.sub_0_r in *. rewrite runsBefore_S, runAt_empty by done.
      simpl. by rewrite app_nil_r.
  - rewrite bool_decide_eq_false_2 by done. destruct pc as [p|].
    + (* a run of [p] ends at [i] *)
      destruct Hrun as (Hpos & Hstart & Hall).
      replace (Z.of_nat c >? 0) with true by (symmetry; apply Z.gtb_lt; lia).
      rewrite (left_end sequence i c) by lia. simpl.
      rewrite (right_end sequence i square) by done.
      assert (Hruns := runsBefore_closed sequence i c p square
                         ltac:(lia) Hstart Hall Hsq Hne).
      set (r := mkRun (i - c) c p) in *.
      assert (Htot' :
        match combinationScore !!
                (Z.of_nat c,
                 (if bool_decide (sequence !! i = Some None)
                     && bool_decide (S i < length sequence)%nat then 0 else 1)
                 + match (i - c)%nat with
                   | O => 1
                   | S s' => if bool_decide (sequence !! s' = Some None) then 0 else 1
                   end,
                 String.eqb turn p) with
        | Some w => if String.eqb p "X" then Qplus tot w else Qminus tot w
        | None => tot
        end = foldl (addRun (runKey sequence turn)) 0%Q (runsBefore sequence i)).
      { rewrite Hruns, foldl_app, <- Htot. simpl. unfold addRun, runKey, blockedEnds.
        simpl. by replace (i - c + c)%nat with i by lia. }
      rewrite Htot'. eexists. split; [done|].
      destruct square as [q|].
      * exists 1%nat. simpl.
        rewrite Nat.sub_0_r.
        split_and!; [done | lia | symmetry; by apply prevSquare_S | done | lia | |].
        -- unfold runStart. rewrite Hsq. destruct i as [|i']; [done|].
           rewrite (Hall i') by lia.
           rewrite bool_decide_eq_false_2; [done|]. congruence.
        -- intros j Hj. by replace j with i by lia.
      * exists 0%nat. simpl.
        split_and!; [done | lia | symmetry; by apply prevSquare_S | | done].
        rewrite runsBefore_S, runAt_empty by done. simpl. by rewrite app_nil_r.
    + (* a run starts at [i] *)
      subst c. rewrite Nat.sub_0_r in Htot. destruct square as [q|]; [|done].
      eexists. split; [done|]. exists 1%nat. simpl. rewrite Nat.sub_0_r.
      split_and!; [done | lia | symmetry; by apply prevSquare_S | done | lia | |].
      * unfold runStart. rewrite Hsq. destruct i as [|i']; [done|].
        unfold prevSquare in Hprev.
        destruct (lookup_lt_is_Some_2 sequence i') as [sq Hi']; [lia|].
        rewrite Hi' in Hprev |- *. simpl in Hprev. subst sq.
        by rewrite bool_decide_eq_false_2.
      * intros j Hj. by replace j with i by lia.
Qed.

(** The loop from position [length pre] to the end of the line. *)
Lemma scanLoop_inv sequence turn pre rest st :
  sequence = pre ++ rest → scanInv sequence turn (length pre) st →
  ∃ st', scanLoop sequence turn (Z.of_nat (length pre)) rest st = Some st' ∧
         scanInv sequence turn (length sequence) st'.
Proof.
  revert pre st. induction rest as [|square rest IH]; intros pre st Hseq Hinv.
  - exists st. split; [done|]. rewrite app_nil_r in Hseq. by subst pre.
  - assert (Hsq : sequence !! length pre = Some square).
    { rewrite Hseq. by apply list_lookup_middle. }
    destruct (scanStep_inv sequence turn (length pre) st square Hinv Hsq)
      as (st1 & Hstep & Hinv1).
    destruct (IH (pre ++ [square]) st1) as (st' & Hloop & Hinv').
    + by rewrite Hseq, <- app_assoc.
    + by rewrite length_app, Nat.add_1_r.
    + exists st'. split; [|done]. simpl. rewrite Hstep. simpl.
      rewrite length_app, Nat.add_1_r in Hloop.
      by replace (Z.of_nat (length pre) + 1) with (Z.of_nat (S (length pre))) by lia.
Qed.

Lemma scanInv_start sequence turn : scanInv sequence turn 0 (mkScan 0 0%Q None).
Proof. exists 0%nat. by simpl. Qed.

(** On a line that ends with the empty padding square, the loop adds up,
    run by run, the weights found under the runs' own keys. *)
Lemma getHeuristicScore_runScore body turn :
  getHeuristicScore (body ++ [None]) turn =
    Some (runScore (runKey (body ++ [None]) turn) (body ++ [None])).
Proof.
  destruct (scanLoop_inv (body ++ [None]) turn [] (body ++ [None]) (mkScan 0 0%Q None)
              eq_refl (scanInv_start _ _)) as (st & Hloop & c & Hc & _ & Hprev & Htot & Hrun).
  unfold getHeuristicScore.
  change (Z.of_nat (length (@nil Square))) with 0 in Hloop.
  rewrite Hloop. simpl. f_equal.
  assert (Hp : piece st = None).
  { rewrite Hprev, length_app, Nat.add_1_r. unfold prevSquare.
    by rewrite lookup_app_r, Nat.sub_diag by lia. }
  rewrite Hp in Hrun. subst c. by rewrite Nat.sub_0_r in Htot.
Qed.

(** C3, as stated, fails: a line with a run of six X scores nothing,
    while the same line with five X scores 200000000; a key with the length
    capped at five would give the run of six that weight too. *)
Lemma overline_not_capped :
  let six := [None; sX; sX; sX; sX; sX; sX; None; None] in
  let five := [None; sX; sX; sX; sX; sX; None; None] in
  maximalRuns six = [mkRun 1 6 "X"] ∧
  getHeuristicScore six "X" = Some 0%Q ∧
  getHeuristicScore five "X" = Some 200000000%Q ∧
  runScore (cappedKey six "X") six = 200000000%Q ∧
  getHeuristicScore six "X" ≠ Some (runScore (cappedKey six "X") six).
Proof. split_and!; by vm_compute. Qed.

(** C3, amended: on a line that ends with the padding square,
    [getHeuristicScore] adds up, for every maximal run of identical pieces
    from left to right, the weight found under the key (run length as it
    is, number of blocked ends, whether the run's piece is the mover's),
    added for X and taken away for the other piece, and nothing when the
    dictionary has no such key; a run longer than five has no key and
    leaves the total as it was. *)
Theorem getHeuristicScore_by_runs body turn :
  getHeuristicScore (body ++ [None]) turn =
    Some (runScore (runKey (body ++ [None]) turn) (body ++ [None])) ∧
  ∀ r total, (5 < r_length r)%nat →
    addRun (runKey (body ++ [None]) turn) total r = total.
Proof.
  split; [apply getHeuristicScore_runScore|].
  intros r tot Hlong. unfold addRun, runKey.
  by rewrite combinationScore_long by lia.
Qed.

Lemma getHeuristicScore_by_runs_witness :
  let six := [None; sX; sX; sX; sX; sX; sX; None] ++ [None] in
  getHeuristicScore six "X" = Some (runScore (runKey six "X") six) ∧
  addRun (runKey six "X") 0%Q (mkRun 1 6 "X") = 0%Q.
Proof.
  destruct (getHeuristicScore_by_runs [None; sX; sX; sX; sX; sX; sX; None] "X")
    as [Hscore Hlong].
  split; [exact Hscore|]. apply Hlong. simpl. lia.
Defined.

End HeuristicFacts.


Module BoardMore.
Import Board BoardShape BoardFacts Lines.

(** [getLegalMoves] lists exactly the columns that [isLegalMove]
    accepts. *)
Lemma getLegalMoves_isLegalMove state col :
  col ∈ getLegalMoves state ↔ isLegalMove state col = true.
Proof.
  unfold getLegalMoves, isLegalMove, Py.range, COLUMNCOUNT.
  rewrite list_elem_of_filter, elem_of_seqZ, !andb_true_iff, negb_true_iff.
  rewrite Z.leb_le, Z.ltb_lt. intuition lia.
Qed.

Lemma drop_one_bit p o col h :
  0 <= col → (∀ m, Z.testbit p m && Z.testbit o m = false) →
  stacked p o col h → h < 6 →
  Z.lor p (dropped p o col) = Z.lor p (Z.shiftl 1 (bitOf col h)).
Proof.
  intros Hcol Hd Hst Hlt. apply Z.bits_inj'. intros n Hn.
  pose proof Hst as [Hh _].
  rewrite (testbit_moved p o col h) by done.
  rewrite Z.lor_spec, testbit_one_shifted by (unfold bitOf, ROWCOUNT; lia).
  done.
Qed.

(** The piece of [updateState] lands on the lowest free square. *)
Lemma updateState_lowest_free a b t col :
  reachable (a, b, t) → isLegalMove (a, b, t) col = true →
  ∃ h, 0 <= h < 6 ∧ stacked a b col h ∧
    Z.testbit (Z.lor a b) (bitOf col h) = false ∧
    updateState (a, b, t) col =
      Some (if t =? 1 then (Z.lor a (Z.shiftl 1 (bitOf col h)), b, 2)
            else (a, Z.lor b (Z.shiftl 1 (bitOf col h)), 1)).
Proof.
  intros Hreach Hlegal.
  destruct (wellFormed_reachable _ Hreach) as [Ht (Hd & Hb & Hc)].
  unfold isLegalMove, COLUMNCOUNT in Hlegal.
  apply andb_true_iff in Hlegal as [Hrange Hfull].
  apply andb_true_iff in Hrange as [H0 H7].
  apply Z.leb_le in H0. apply Z.ltb_lt in H7. apply negb_true_iff in Hfull.
  destruct (Hc col ltac:(lia)) as [h Hst].
  pose proof (not_full_height a b t col h H0 Hst Hfull) as Hlt.
  pose proof Hst as [Hh Hr].
  exists h. split_and!; [lia | lia | done | |].
  - rewrite Z.lor_spec. specialize (Hr h ltac:(lia)). unfold occupied in Hr.
    unfold bitOf, ROWCOUNT. rewrite Hr. apply Z.ltb_ge. lia.
  - rewrite updateState_eq by done. destruct Ht as [-> | ->]; simpl; do 2 f_equal.
    + f_equal. by apply drop_one_bit.
    + f_equal. apply drop_one_bit; [done | | by apply stacked_sym | done].
      intros m. rewrite andb_comm. apply Hd.
Qed.

(** X1: on a position reached by legal moves, [updateState] on a column
    with room puts one piece of the mover on the lowest free square of that
    column ([h] squares of the column are taken, the new bit is the one of
    row [h]), leaves the other player's mask as it is and hands the turn
    over. *)
Theorem updateState_drops a b t col :
  reachable (a, b, t) → isLegalMove (a, b, t) col = true →
  ∃ h, 0 <= h < 6 ∧ stacked a b col h ∧
    Z.testbit (Z.lor a b) (bitOf col h) = false ∧
    updateState (a, b, t) col =
      Some (if t =? 1 then (Z.lor a (Z.shiftl 1 (bitOf col h)), b, 2)
            else (a, Z.lor b (Z.shiftl 1 (bitOf col h)), 1)).
Proof. apply updateState_lowest_free. Qed.

Lemma updateState_drops_witness :
  ∃ h, 0 <= h < 6 ∧ stacked 262144 0 3 h ∧
    Z.testbit (Z.lor 262144 0) (bitOf 3 h) = false ∧
    updateState (262144, 0, 2) 3 =
      Some (if 2 =? 1 then (Z.lor 262144 (Z.shiftl 1 (bitOf 3 h)), 0, 2)
            else (262144, Z.lor 0 (Z.shiftl 1 (bitOf 3 h)), 1)).
Proof.
  apply (updateState_drops 262144 0 2 3).
  - apply (reachable_move start 3); [apply reachable_start | reflexivity | reflexivity].
  - reflexivity.
Defined.

Lemma playChecked_reachable s cols s' :
  reachable s → playChecked s cols = Some s' → reachable s'.
Proof.
  revert s. induction cols as [|col cols IH]; intros s Hs Hplay; simpl in Hplay.
  - by injection Hplay as <-.
  - destruct (isLegalMove s col) eqn:Hlegal; [|done].
    destruct (updateState s col) as [s1|] eqn:Hupd; [|done]. simpl in Hplay.
    apply (IH s1); [|done]. by apply (reachable_move s col).
Qed.

Lemma reachable_fullBoard : reachable Scenes.fullBoard.
Proof.
  apply (playChecked_reachable start Scenes.drawnGame); [apply reachable_start|].
  by vm_compute.
Qed.

Lemma isColumnFull_height a b t col h :
  0 <= col → stacked a b col h → isColumnFull (a, b, t) col = true → h = 6.
Proof.
  intros Hcol [Hh Hr] Hfull. destruct (Z.eq_dec h 6) as [|Hne]; [done|].
  exfalso. unfold isColumnFull in Hfull. apply Z.eqb_eq in Hfull.
  apply (f_equal (λ x, Z.testbit x (6 * col + h))) in Hfull.
  rewrite Z.land_spec, Z.lor_spec, testbit_colMask in Hfull by (unfold ROWCOUNT; lia).
  unfold ROWCOUNT in Hfull. specialize (Hr h ltac:(lia)). unfold occupied in Hr.
  rewrite Hr in Hfull.
  replace (h <? h) with false in Hfull by (symmetry; apply Z.ltb_ge; lia).
  replace (6 * col <=? 6 * col + h) with true in Hfull by (symmetry; apply Z.leb_le; lia).
  replace (6 * col + h <? 6 * col + 6) with true in Hfull by (symmetry; apply Z.ltb_lt; lia).
  done.
Qed.

(** X2: on a position reached by legal moves, [isBoardFull] holds exactly
    when [getLegalMoves] is empty: the draw test of the game loop and the
    draw test of the playouts agree. *)
Theorem isBoardFull_no_moves s :
  reachable s → isBoardFull s = true ↔ getLegalMoves s = [].
Proof.
  intros Hreach. destruct s as [[a b] t].
  destruct (wellFormed_reachable _ Hreach) as [_ (_ & Hb & Hc)]. split.
  - unfold isBoardFull, getLegalMoves, isColumnFull. intros Hfull.
    apply Z.eqb_eq in Hfull. rewrite Hfull. reflexivity.
  - intros Hnone. unfold isBoardFull. apply Z.eqb_eq. apply Z.bits_inj'. intros n Hn.
    rewrite testbit_boardMask.
    replace (0 <=? n) with true by (symmetry; apply Z.leb_le; lia). simpl.
    destruct (Z.ltb_spec n 42) as [Hlt|Hge]; [|rewrite Z.lor_spec; by apply Hb].
    assert (Hcol : 0 <= n `div` 6 < 7).
    { split; [apply Z.div_pos; lia | apply Z.div_lt_upper_bound; lia]. }
    destruct (Hc _ Hcol) as [h Hst].
    assert (Hfull : isColumnFull (a, b, t) (n `div` 6) = true).
    { destruct (isColumnFull (a, b, t) (n `div` 6)) eqn:Hf; [done|].
      assert (Hin : n `div` 6 ∈ getLegalMoves (a, b, t)).
      { apply getLegalMoves_isLegalMove. unfold isLegalMove, COLUMNCOUNT. rewrite Hf.
        replace (0 <=? n `div` 6) with true by (symmetry; apply Z.leb_le; lia).
        by replace (n `div` 6 <? 7) with true by (symmetry; apply Z.ltb_lt; lia). }
      rewrite Hnone in Hin. by apply elem_of_nil in Hin. }
    assert (h = 6) as ->
      by apply (isColumnFull_height a b t (n `div` 6) h (proj1 Hcol) Hst Hfull).
    destruct Hst as [_ Hr]. specialize (Hr (n `mod` 6) ltac:(apply Z.mod_pos_bound; lia)).
    rewrite <- Z.div_mod in Hr by lia. unfold occupied in Hr.
    rewrite Z.lor_spec, Hr. apply Z.ltb_lt. apply Z.mod_pos_bound. lia.
Qed.

Lemma isBoardFull_no_moves_witness :
  isBoardFull Scenes.fullBoard = true ↔ getLegalMoves Scenes.fullBoard = [].
Proof. apply (isBoardFull_no_moves Scenes.fullBoard). apply reachable_fullBoard. Defined.

Lemma existsb_fmap {A B} (f : A → B) (P : B → bool) l :
  existsb P (f <$> l) = existsb (λ x, P (f x)) l.
Proof.
  induction l as [|x l IH]; [done|]. rewrite fmap_cons. cbn [existsb].
  by rewrite IH.
Qed.

Lemma existsb_filter_and {A} (g h : A → bool) l :
  existsb (λ x, g x && h x) l = existsb h (filter (λ x, g x = true) l).
Proof.
  induction l as [|x l IH]; [done|]. cbn [existsb]. rewrite filter_cons.
  destruct (decide (g x = true)) as [Hg|Hg].
  - rewrite Hg. cbn [existsb andb]. by rewrite IH.
  - apply not_true_is_false in Hg. rewrite Hg. cbn [andb orb]. by rewrite IH.
Qed.

Lemma existsb_bind {A B} (f : A → list B) (P : B → bool) l :
  existsb (λ x, existsb P (f x)) l = existsb P (l ≫= f).
Proof.
  induction l as [|x l IH]; [done|]. cbn [existsb]. rewrite bind_cons.
  by rewrite existsb_app, IH.
Qed.

Lemma existsb_ext_in {A} (f g : A → bool) l :
  (∀ x, x ∈ l → f x = g x) → existsb f l = existsb g l.
Proof.
  induction l as [|x l IH]; intros Hfg; [done|]. cbn [existsb].
  rewrite (Hfg x) by left. rewrite IH; [done|]. intros y Hy. apply Hfg. by right.
Qed.

Lemma existsb_subseteq {A} (P : A → bool) (l1 l2 : list A) :
  l1 ⊆ l2 → existsb P l1 = true → existsb P l2 = true.
Proof.
  intros Hsub. rewrite !existsb_exists. intros (x & Hin & HP). exists x.
  split; [|done]. apply list_elem_of_In, Hsub, list_elem_of_In, Hin.
Qed.

Lemma existsb_same {A} (P : A → bool) (l1 l2 : list A) :
  l1 ⊆ l2 → l2 ⊆ l1 → existsb P l1 = existsb P l2.
Proof.
  intros H12 H21. apply eq_true_iff_eq. split; by apply existsb_subseteq.
Qed.

Lemma subseteq_check (l1 l2 : list (Z * Z)) :
  forallb (λ x, bool_decide (x ∈ l2)) l1 = true → l1 ⊆ l2.
Proof.
  rewrite forallb_forall. intros H x Hx.
  apply list_elem_of_In, H in Hx. by apply bool_decide_eq_true in Hx.
Qed.

Lemma truthy_testbit x :
  0 <= x → truthy x = true ↔ ∃ n, 0 <= n ∧ Z.testbit x n = true.
Proof.
  intros Hx. unfold truthy. rewrite negb_true_iff, Z.eqb_neq. split.
  - intros Hne. exists (Z.log2 x). split; [apply Z.log2_nonneg|].
    apply Z.bit_log2. lia.
  - intros (n & _ & Hn) ->. by rewrite Z.bits_0 in Hn.
Qed.

Lemma boardOnly_spec K :
  boardOnly K = true → 0 <= K ∧ ∀ n, Z.testbit K n = true → 0 <= n < 42.
Proof.
  unfold boardOnly. rewrite andb_true_iff, Z.leb_le, Z.eqb_eq. intros [H0 Hland].
  split; [done|]. intros n Hn. rewrite <- Hland, Z.land_spec, testbit_boardMask in Hn.
  apply andb_true_iff in Hn as [_ Hn]. apply andb_true_iff in Hn as [Hlo Hhi].
  apply Z.leb_le in Hlo. apply Z.ltb_lt in Hhi. lia.
Qed.

Lemma bitsSet_land mask K p :
  bitsSet (Z.land mask K) p = bitsSet K p && bitsSet mask p.
Proof.
  unfold bitsSet. rewrite !Z.land_spec.
  destruct (Z.testbit mask p.1), (Z.testbit K p.1); simpl; try done;
    destruct (Z.testbit mask (p.1 + p.2)), (Z.testbit K (p.1 + p.2)); simpl; try done;
    destruct (Z.testbit mask (p.1 + 2 * p.2)), (Z.testbit K (p.1 + 2 * p.2));
    simpl; try done;
    by destruct (Z.testbit mask (p.1 + 3 * p.2)), (Z.testbit K (p.1 + 3 * p.2)).
Qed.

Lemma bitsSet_all m b s :
  bitsSet m (b, s) = true ↔
  Z.testbit m b = true ∧ Z.testbit m (b + s) = true ∧
  Z.testbit m (b + 2 * s) = true ∧ Z.testbit m (b + 3 * s) = true.
Proof. unfold bitsSet. simpl. rewrite !andb_true_iff. tauto. Qed.

(** The shifted-and test to the left finds the groups of four bits at
    distance [s] that lie under [K]. *)
Lemma shiftedLeft_spec K s mask :
  0 < s → boardOnly K = true →
  shiftedLeft K s mask = existsb (bitsSet mask) (under K s).
Proof.
  intros Hs HK. destruct (boardOnly_spec K HK) as [HK0 Hbits].
  unfold under. rewrite existsb_fmap, <- existsb_filter_and.
  rewrite (existsb_ext_in _ (λ b, bitsSet (Z.land mask K) (b, s)))
    by (intros b _; by rewrite bitsSet_land).
  unfold shiftedLeft. set (m := Z.land mask K).
  assert (Hm0 : 0 <= m) by (apply Z.land_nonneg; by right).
  assert (Hm : ∀ n, Z.testbit m n = true → 0 <= n < 42).
  { intros n Hn. apply Hbits. unfold m in Hn. rewrite Z.land_spec in Hn.
    by apply andb_true_iff in Hn as [_ Hn]. }
  apply eq_true_iff_eq. rewrite truthy_testbit, existsb_exists.
  2:{ apply Z.land_nonneg. left. apply Z.land_nonneg. left.
      apply Z.land_nonneg. by left. }
  split.
  - intros (n & Hn & Hbit). rewrite !Z.land_spec, !Z.shiftl_spec in Hbit by done.
    rewrite !andb_true_iff in Hbit. destruct Hbit as [[[H0 H1] H2] H3].
    exists (n - s * 3). split.
    + apply list_elem_of_In, elem_of_seqZ. specialize (Hm _ H3). lia.
    + apply bitsSet_all. split_and!; [done | | |].
      * by replace (n - s * 3 + s) with (n - s * 2) by lia.
      * by replace (n - s * 3 + 2 * s) with (n - s) by lia.
      * by replace (n - s * 3 + 3 * s) with n by lia.
  - intros (b & Hin & Hset). apply list_elem_of_In, elem_of_seqZ in Hin.
    apply bitsSet_all in Hset as (H0 & H1 & H2 & H3).
    exists (b + 3 * s). split; [lia|].
    rewrite !Z.land_spec, !Z.shiftl_spec by lia. rewrite !andb_true_iff.
    split_and!; [done | | |].
    + by replace (b + 3 * s - s) with (b + 2 * s) by lia.
    + by replace (b + 3 * s - s * 2) with (b + s) by lia.
    + by replace (b + 3 * s - s * 3) with b by lia.
Qed.

Lemma shiftedRight_spec K s mask :
  0 < s → boardOnly K = true →
  shiftedRight K s mask = existsb (bitsSet mask) (under K s).
Proof.
  intros Hs HK. destruct (boardOnly_spec K HK) as [HK0 Hbits].
  unfold under. rewrite existsb_fmap, <- existsb_filter_and.
  rewrite (existsb_ext_in _ (λ b, bitsSet (Z.land mask K) (b, s)))
    by (intros b _; by rewrite bitsSet_land).
  unfold shiftedRight. set (m := Z.land mask K).
  assert (Hm0 : 0 <= m) by (apply Z.land_nonneg; by right).
  assert (Hm : ∀ n, Z.testbit m n = true → 0 <= n < 42).
  { intros n Hn. apply Hbits. unfold m in Hn. rewrite Z.land_spec in Hn.
    by apply andb_true_iff in Hn as [_ Hn]. }
  apply eq_true_iff_eq. rewrite truthy_testbit, existsb_exists.
  2:{ apply Z.land_nonneg. left. apply Z.land_nonneg. left.
      apply Z.land_nonneg. by left. }
  split.
  - intros (n & Hn & Hbit). rewrite !Z.land_spec, !Z.shiftr_spec in Hbit by done.
    rewrite !andb_true_iff in Hbit. destruct Hbit as [[[H0 H1] H2] H3].
    exists n. split.
    + apply list_elem_of_In, elem_of_seqZ. specialize (Hm _ H0). lia.
    + apply bitsSet_all. split_and!; [done | done | |].
      * by replace (n + 2 * s) with (n + s * 2) by lia.
      * by replace (n + 3 * s) with (n + s * 3) by lia.
  - intros (b & Hin & Hset). apply list_elem_of_In, elem_of_seqZ in Hin.
    apply bitsSet_all in Hset as (H0 & H1 & H2 & H3).
    exists b. split; [lia|].
    rewrite !Z.land_spec, !Z.shiftr_spec by lia. rewrite !andb_true_iff.
    split_and!; [done | done | |].
    + by replace (b + s * 2) with (b + 2 * s) by lia.
    + by replace (b + s * 3) with (b + 3 * s) by lia.
Qed.

Lemma boardOnly_masks :
  forallb (λ row, boardOnly (Z.shiftl rowMask row)) (Py.range 0 ROWCOUNT) = true ∧
  forallb (λ col, boardOnly (Z.shiftl colMask (ROWCOUNT * col))) (Py.range 0 COLUMNCOUNT)
    = true ∧
  forallb boardOnly leftMask = true ∧ forallb boardOnly rightMask = true.
Proof. split_and!; by vm_compute. Qed.

Lemma hasRowWinner_pairs mask :
  hasRowWinner mask =
    existsb (bitsSet mask)
      (row ← Py.range 0 ROWCOUNT; under (Z.shiftl rowMask row) ROWCOUNT).
Proof.
  rewrite <- existsb_bind. unfold hasRowWinner. apply existsb_ext_in. intros row Hrow.
  change (shiftedLeft (Z.shiftl rowMask row) ROWCOUNT mask = existsb (bitsSet mask) (under (Z.shiftl rowMask row) ROWCOUNT)).
  apply shiftedLeft_spec; [done|].
  destruct boardOnly_masks as (H & _). rewrite forallb_forall in H.
  by apply H, list_elem_of_In.
Qed.

Lemma hasColWinner_pairs mask :
  hasColWinner mask =
    existsb (bitsSet mask)
      (col ← Py.range 0 COLUMNCOUNT; under (Z.shiftl colMask (ROWCOUNT * col)) 1).
Proof.
  rewrite <- existsb_bind. unfold hasColWinner. apply existsb_ext_in. intros col Hcol.
  change (shiftedLeft (Z.shiftl colMask (ROWCOUNT * col)) 1 mask = existsb (bitsSet mask) (under (Z.shiftl colMask (ROWCOUNT * col)) 1)).
  apply shiftedLeft_spec; [done|].
  destruct boardOnly_masks as (_ & H & _). rewrite forallb_forall in H.
  by apply H, list_elem_of_In.
Qed.

Lemma hasDiagonalWinner_pairs mask :
  hasDiagonalWinner mask =
    existsb (bitsSet mask)
      ((K ← leftMask; under K COLUMNCOUNT) ++ (K ← rightMask; under K (ROWCOUNT - 1))).
Proof.
  rewrite existsb_app, <- !existsb_bind. unfold hasDiagonalWinner. f_equal.
  - apply existsb_ext_in. intros K HK.
    change (shiftedLeft K COLUMNCOUNT mask = existsb (bitsSet mask) (under K COLUMNCOUNT)).
    apply shiftedLeft_spec; [done|].
    destruct boardOnly_masks as (_ & _ & H & _). rewrite forallb_forall in H.
    by apply H, list_elem_of_In.
  - apply existsb_ext_in. intros K HK.
    change (shiftedRight K (ROWCOUNT - 1) mask = existsb (bitsSet mask) (under K (ROWCOUNT - 1))).
    apply shiftedRight_spec; [done|].
    destruct boardOnly_masks as (_ & _ & _ & H). rewrite forallb_forall in H.
    by apply H, list_elem_of_In.
Qed.

Lemma owns_pairOf mask line : owns mask line = bitsSet mask (pairOf line).
Proof.
  destruct line as [[c r] [dc dr]].
  unfold owns, squaresFrom, bitsSet, pairOf, bitOf, ROWCOUNT.
  cbn [fmap list_fmap forallb fst snd]. rewrite andb_true_r, !andb_assoc.
  repeat (f_equal; try lia).
Qed.

(** The three bit tests together find exactly the masks that hold four
    squares in a line, upwards, to the right or along either diagonal, with
    all four squares on the board. *)
Lemma winner_tests_fourInLine mask :
  hasRowWinner mask || hasColWinner mask || hasDiagonalWinner mask = fourInLine mask.
Proof.
  rewrite hasRowWinner_pairs, hasColWinner_pairs, hasDiagonalWinner_pairs.
  rewrite <- orb_assoc, <- !existsb_app. fold checkedPairs.
  unfold fourInLine.
  rewrite (existsb_ext_in _ (λ line, bitsSet mask (pairOf line)))
    by (intros line _; apply owns_pairOf).
  rewrite <- (existsb_fmap pairOf).
  apply existsb_same; apply subseteq_check; by vm_compute.
Qed.

(** X3: [hasWinner] answers the player who has just moved when that
    player's mask holds four squares in a line (upwards, to the right or
    along either diagonal, all four squares on the board), and 0
    otherwise. *)
Theorem hasWinner_fourInLine a b t :
  t = 1 ∨ t = 2 →
  hasWinner (a, b, t) =
    Some (if fourInLine (if t =? 1 then b else a) then 3 - t else 0).
Proof.
  intros [-> | ->]; unfold hasWinner; simpl; by rewrite winner_tests_fourInLine.
Qed.

Lemma hasWinner_fourInLine_witness :
  hasWinner (2113665, 4096, 2) =
    Some (if fourInLine (if 2 =? 1 then 4096 else 2113665) then 3 - 2 else 0).
Proof. apply (hasWinner_fourInLine 2113665 4096 2). by right. Defined.

Lemma lor_fresh_bit a n :
  0 <= n → Z.testbit a n = false → Z.lor a (Z.shiftl 1 n) = a + 2 ^ n.
Proof.
  intros Hn Hbit. rewrite Z.shiftl_1_l. symmetry. apply Z.add_nocarry_lor.
  apply Z.bits_inj'. intros m Hm. rewrite Z.land_spec, Z.bits_0, Z.pow2_bits_eqb by done.
  destruct (Z.eqb_spec n m) as [->|]; [by rewrite Hbit|apply andb_false_r].
Qed.

(** Every legal move makes the position larger. *)
Lemma updateState_measure s col s' :
  reachable s → isLegalMove s col = true → updateState s col = Some s' →
  Store.measure s < Store.measure s'.
Proof.
  destruct s as [[a b] t]. intros Hreach Hlegal Hupd.
  destruct (updateState_lowest_free a b t col Hreach Hlegal) as (h & Hh & Hst & Hfree & Heq).
  rewrite Heq in Hupd. injection Hupd as <-.
  rewrite Z.lor_spec in Hfree. apply orb_false_iff in Hfree as [Ha Hb].
  assert (Hbit : 0 <= bitOf col h).
  { unfold isLegalMove in Hlegal. unfold bitOf, ROWCOUNT.
    apply andb_true_iff in Hlegal as [Hr _]. apply andb_true_iff in Hr as [H0 _].
    apply Z.leb_le in H0. lia. }
  assert (0 < 2 ^ bitOf col h) by (by apply Z.pow_pos_nonneg).
  unfold Store.measure. destruct (t =? 1); simpl; rewrite lor_fresh_bit by done; lia.
Qed.

End BoardMore.


Module AIMore.
Import Board AI Store BoardShape BoardFacts BoardMore AIFacts.

(** The children of a position reached by legal moves: [updateState]
    gives one for every legal move, each reached by a legal move and larger
    than its parent. *)
Lemma children_ok state :
  reachable state →
  ∃ nextStates, mapM (updateState state) (getLegalMoves state) = Some nextStates ∧
    length nextStates = length (getLegalMoves state) ∧
    ∀ s', s' ∈ nextStates → reachable s' ∧ measure state < measure s'.
Proof.
  intros Hreach.
  assert (Hall : Forall (is_Some ∘ updateState state) (getLegalMoves state)).
  { apply Forall_forall. intros move Hmove. apply getLegalMoves_isLegalMove in Hmove.
    destruct (wellFormed_updateState state move (wellFormed_reachable _ Hreach) Hmove)
      as (s' & Hs' & _). simpl. by rewrite Hs'. }
  apply mapM_is_Some_2 in Hall as [nextStates Hmap]. exists nextStates.
  split; [done|]. split; [symmetry; by eapply length_mapM|].
  intros s' Hin. apply mapM_Some_1 in Hmap.
  apply list_elem_of_lookup_1 in Hin as [i Hi].
  destruct (Forall2_lookup_r _ _ _ _ _ Hmap Hi) as (move & Hmove & Hupd).
  assert (Hlegal : isLegalMove state move = true).
  { apply getLegalMoves_isLegalMove. by eapply list_elem_of_lookup_2. }
  split; [by apply (reachable_move state move)|by apply (updateState_measure state move)].
Qed.

Lemma hasWinner_total s : reachable s → is_Some (hasWinner s).
Proof.
  intros Hreach. destruct s as [[a b] t].
  destruct (wellFormed_reachable _ Hreach) as [Ht _].
  destruct Ht as [-> | ->]; by eexists.
Qed.

Lemma chooseChild_ok uct plays wins state nextStates visitedState expand r :
  uctOk uct → nextStates ≠ [] → descending plays wins state visitedState expand →
  (∀ s', s' ∈ nextStates → measure state < measure s') →
  ∃ s', chooseChild uct plays wins nextStates r = Some s' ∧ s' ∈ nextStates.
Proof.
  intros Huct Hne [Hdom Hcount] Hlarger. unfold chooseChild.
  destruct (allIn plays nextStates) eqn:Hall.
  - apply Huct; [done..|]. intros s' Hs'. unfold allIn in Hall.
    rewrite forallb_forall in Hall. specialize (Hall s').
    rewrite <- list_elem_of_In in Hall. specialize (Hall Hs').
    apply bool_decide_eq_true in Hall as [n Hn]. exists n. split; [done|].
    destruct (Hcount _ _ Hn) as [|(_ & _ & _ & Hle)]; [done|].
    specialize (Hlarger _ Hs'). lia.
  - destruct (choice_total r nextStates Hne) as [s' Hs']. exists s'.
    split; [done|]. by eapply choice_elem.
Qed.

(** The descent of a playout never raises and leaves the store as
    [descended] says. *)
Lemma descend_ok uct fuel :
  uctOk uct →
  ∀ depth rnd plays wins state visitedState expand win,
    reachable state → descending plays wins state visitedState expand →
    ∃ out, descend uct fuel depth rnd plays wins state visitedState expand win = Some out
           ∧ descended plays wins visitedState expand out.
Proof.
  intros Huct. induction fuel as [|fuel IH];
    intros depth rnd plays wins state visitedState expand win Hreach Hdesc.
  { eexists. split; [done|]. destruct Hdesc as [Hdom Hcount].
    split_and!; simpl; [done | done | | by left].
    intros k n Hk. destruct (Hcount k n Hk) as [|(? & _ & ? & _)]; [by left|by right]. }
  simpl. destruct (length (getLegalMoves state) =? 0)%nat eqn:Hlen.
  { eexists. split; [done|]. destruct Hdesc as [Hdom Hcount].
    split_and!; simpl; [done | done | | by left].
    intros k n Hk. destruct (Hcount k n Hk) as [|(? & _ & ? & _)]; [by left|by right]. }
  apply Nat.eqb_neq in Hlen.
  destruct (children_ok state Hreach) as (nextStates & -> & Hsame & Hchildren). simpl.
  assert (Hne : nextStates ≠ []) by (intros ->; simpl in Hsame; lia).
  destruct (chooseChild_ok uct plays wins state nextStates visitedState expand (rnd depth)
              Huct Hne Hdesc (λ s' Hs', proj2 (Hchildren s' Hs')))
    as (state' & -> & Hin). simpl.
  destruct (Hchildren state' Hin) as [Hreach' Hlarger].
  destruct (hasWinner_total state' Hreach') as [win' ->]. simpl.
  destruct Hdesc as [Hdom Hcount].
  set (fresh := expand && bool_decide (plays !! state' = None)).
  assert (Hdesc' : descending (if fresh then <[state' := 0]> plays else plays)
                     (if fresh then <[state' := 0%Q]> wins else wins) state'
                     ({[state']} ∪ visitedState) (if fresh then false else expand)).
  { destruct fresh eqn:Hfresh.
    - apply andb_true_iff in Hfresh as [-> Hnone]. split.
      + by rewrite !dom_insert_L, Hdom.
      + intros k n Hk. apply lookup_insert_Some in Hk as [[<- <-]|[Hne' Hk]].
        * right. split_and!; [done | done | by apply elem_of_union_l, elem_of_singleton | lia].
        * destruct (Hcount k n Hk) as [|(_ & ? & _)]; [by left|done].
    - split; [done|]. intros k n Hk.
      destruct (Hcount k n Hk) as [|(? & ? & ? & ?)]; [by left|].
      right. split_and!; [done | done | by apply elem_of_union_r | lia]. }
  assert (Hout : ∀ out,
    descended (if fresh then <[state' := 0]> plays else plays)
      (if fresh then <[state' := 0%Q]> wins else wins)
      ({[state']} ∪ visitedState) (if fresh then false else expand) out →
    descended plays wins visitedState expand out).
  { intros out (Hd & Hv & Hc & Hrel).
    split_and!; [done | intros x Hx; by apply Hv, elem_of_union_r | done |].
    destruct fresh eqn:Hfresh.
    - apply andb_true_iff in Hfresh as [-> Hnone]. apply bool_decide_eq_true in Hnone.
      destruct Hrel as [[-> ->]|[? _]]; [|done]. right. split; [done|]. by exists state'.
    - done. }
  destruct (negb (win' =? 0)).
  - eexists. split; [done|]. apply Hout. destruct Hdesc' as [Hdom' Hcount'].
    split_and!; simpl; [done | done | | by left].
    intros k n Hk. destruct (Hcount' k n Hk) as [|(? & _ & ? & _)]; [by left|by right].
  - destruct (IH (S depth) rnd _ _ state' _ _ win' Hreach' Hdesc') as (out & -> & Hdescended).
    exists out. split; [done|]. by apply Hout.
Qed.

(** One visited position of the statistics update. *)
Lemma record_step (draw : bool) (win : Z) (P : gmap State Z) (W : gmap State Q)
    (pos : State) :
  dom P = dom W →
  ∃ P1 W1, record draw win (Some (P, W)) pos = Some (P1, W1) ∧
    dom P1 = dom P ∧ dom W1 = dom W ∧
    ∀ k, P1 !! k = if decide (k = pos) then (λ n, n + 1) <$> P !! k else P !! k.
Proof.
  intros Hdom. unfold record. simpl. destruct (P !! pos) as [n|] eqn:HP.
  - assert (HW : is_Some (W !! pos)).
    { apply elem_of_dom. rewrite <- Hdom. apply elem_of_dom. by exists n. }
    destruct HW as [w HW].
    assert (HdP : dom (<[pos := n + 1]> P) = dom P).
    { rewrite dom_insert_L. apply subseteq_union_1_L, singleton_subseteq_l.
      apply elem_of_dom. by exists n. }
    assert (HdW : ∀ w', dom (<[pos := w']> W) = dom W).
    { intros w'. rewrite dom_insert_L. apply subseteq_union_1_L, singleton_subseteq_l.
      apply elem_of_dom. by exists w. }
    assert (Hlk : ∀ k, <[pos := n + 1]> P !! k =
                       if decide (k = pos) then (λ n, n + 1) <$> P !! k else P !! k).
    { intros k. destruct (decide (k = pos)) as [->|Hne].
      - by rewrite lookup_insert_eq, HP.
      - by rewrite lookup_insert_ne. }
    unfold bump. rewrite HP, HW. simpl. destruct draw; simpl.
    + by eexists _, _.
    + destruct pos as [[a b] t]. simpl.
      change (get (a, b, t) 2) with (Some t). simpl.
      destruct (3 - t =? win); simpl; by eexists _, _.
  - exists P, W. split_and!; try done. intros k.
    destruct (decide (k = pos)) as [->|]; [by rewrite HP|done].
Qed.

Lemma record_none (draw : bool) (win : Z) (l : list State) :
  foldl (record draw win) None l = None.
Proof. by induction l. Qed.

(** The whole statistics update: every visited position that is in the
    store has its play count raised by one, nothing else changes in
    [plays], and no key comes or goes. *)
Lemma record_all (draw : bool) (win : Z) (l : list State) :
  NoDup l → ∀ (P : gmap State Z) (W : gmap State Q),
  dom P = dom W →
  ∃ P' W', foldl (record draw win) (Some (P, W)) l = Some (P', W') ∧
    dom P' = dom P ∧ dom W' = dom W ∧
    ∀ k, P' !! k = if decide (k ∈ l) then (λ n, n + 1) <$> P !! k else P !! k.
Proof.
  induction 1 as [|pos l Hnotin Hnodup IH]; intros P W Hdom.
  { exists P, W. by split_and!. }
  destruct (record_step draw win P W pos Hdom) as (P1 & W1 & Hstep & HdP & HdW & Hlk).
  destruct (IH P1 W1) as (P' & W' & Hfold & HdP' & HdW' & Hlk'); [congruence|].
  exists P', W'. split_and!; [by cbn [foldl]; rewrite Hstep | congruence | congruence |].
  intros k. rewrite Hlk', Hlk.
  destruct (decide (k = pos)) as [->|Hne].
  - rewrite decide_False by done. by rewrite decide_True by left.
  - destruct (decide (k ∈ l)) as [Hin|Hout].
    + by rewrite decide_True by (by right).
    + rewrite decide_False; [done|]. by intros [?|?]%elem_of_cons.
Qed.

(** One playout on a store in shape. *)
Lemma runSimulation_keeps uct ai rnd root :
  uctOk uct → Py.index (states ai) (-1) = Some root → reachable root →
  storeOk (plays ai) (wins ai) →
  ∃ ai', runSimulation uct ai rnd = Some ai' ∧
    states ai' = states ai ∧ maxDepth ai' = maxDepth ai ∧
    storeOk (plays ai') (wins ai') ∧
    (size (plays ai') ≤ S (size (plays ai)))%nat ∧
    ∀ k n, plays ai !! k = Some n →
      ∃ n', plays ai' !! k = Some n' ∧ n <= n' <= n + 1.
Proof.
  intros Huct Hroot Hreach [Hdom Hcount]. unfold runSimulation. rewrite Hroot. simpl.
  assert (Hdesc : descending (plays ai) (wins ai) root ∅ true).
  { split; [done|]. intros k n Hk. left. by apply (Hcount k n). }
  destruct (descend_ok uct (maxDepth ai) Huct 0%nat rnd _ _ root ∅ true 0 Hreach Hdesc)
    as (out & -> & Hd & _ & Hc & Hrel). simpl.
  destruct (record_all (p_draw out) (p_win out) (elements (p_visited out))
              (NoDup_elements _) (p_plays out) (p_wins out) Hd)
    as (P' & W' & -> & HdP & HdW & Hlk). simpl.
  eexists. split; [done|]. simpl. split_and!; [done | done | | |].
  - split; [congruence|]. intros k n' Hk. simpl in Hk. rewrite Hlk in Hk.
    destruct (decide (k ∈ elements (p_visited out))) as [Hin|Hout].
    + destruct (p_plays out !! k) as [m|] eqn:Hm; [|done]. injection Hk as <-.
      destruct (Hc k m Hm) as [|[-> _]]; lia.
    + destruct (Hc k n' Hk) as [|[_ Hin]]; [done|]. by apply elem_of_elements in Hin.
  - rewrite <- (size_dom P'), HdP, size_dom.
    destruct Hrel as [[-> _]|(_ & s & Hnone & -> & _)]; [lia|].
    rewrite map_size_insert_None by done. lia.
  - intros k n Hk.
    assert (Hk1 : p_plays out !! k = Some n).
    { destruct Hrel as [[-> _]|(_ & s & Hnone & -> & _)]; [done|].
      rewrite lookup_insert_ne; [done|]. congruence. }
    rewrite Hlk, Hk1. destruct (decide _); eexists; (split; [done|lia]).
Qed.

(** X4: a playout from a position reached by legal moves never raises, on
    a store whose dictionaries have the same keys and whose play counts are
    all at least one.  It keeps that shape of the store, keeps every key,
    adds at most one key, and raises a play count by one or not at all. *)
Theorem runSimulation_ok uct ai rnd root :
  uctOk uct → Py.index (states ai) (-1) = Some root → reachable root →
  storeOk (plays ai) (wins ai) →
  ∃ ai', runSimulation uct ai rnd = Some ai' ∧
    states ai' = states ai ∧ maxDepth ai' = maxDepth ai ∧
    storeOk (plays ai') (wins ai') ∧
    (size (plays ai') ≤ S (size (plays ai)))%nat ∧
    ∀ k n, plays ai !! k = Some n →
      ∃ n', plays ai' !! k = Some n' ∧ n <= n' <= n + 1.
Proof. apply runSimulation_keeps. Qed.

Lemma firstChild_ok : uctOk firstChild.
Proof.
  intros plays wins [|s l] Hne _ _; [done|]. exists s. split; [done|]. by left.
Qed.

Lemma runSimulation_ok_witness :
  ∃ ai', runSimulation firstChild Scenes.fresh Scenes.lostPlayout = Some ai' ∧
    states ai' = states Scenes.fresh ∧ maxDepth ai' = maxDepth Scenes.fresh ∧
    storeOk (plays ai') (wins ai') ∧
    (size (plays ai') ≤ S (size (plays Scenes.fresh)))%nat ∧
    ∀ k n, plays Scenes.fresh !! k = Some n →
      ∃ n', plays ai' !! k = Some n' ∧ n <= n' <= n + 1.
Proof.
  apply (runSimulation_ok firstChild Scenes.fresh Scenes.lostPlayout start).
  - apply firstChild_ok.
  - reflexivity.
  - apply reachable_start.
  - split; [reflexivity|]. apply map_Forall_empty.
Defined.

(** The playouts that fit in the time budget, one after the other. *)
Lemma simulate_ok uct sims :
  uctOk uct → ∀ ai root,
  Py.index (states ai) (-1) = Some root → reachable root →
  storeOk (plays ai) (wins ai) →
  ∃ ai', simulate uct ai sims = Some ai' ∧ states ai' = states ai ∧
    storeOk (plays ai') (wins ai').
Proof.
  intros Huct. induction sims as [|rnd sims IH]; intros ai root Hroot Hreach Hok.
  { by exists ai. }
  destruct (runSimulation_keeps uct ai rnd root Huct Hroot Hreach Hok)
    as (ai1 & Hrun & Hstates & _ & Hok1 & _).
  destruct (IH ai1 root) as (ai' & Hsim & Hstates' & Hok'); [congruence | done | done |].
  exists ai'. split_and!; [|congruence|done]. simpl. by rewrite Hrun.
Qed.

Lemma winRate_ok plays wins nextState :
  map_Forall (λ _ n, 1 <= n) plays → is_Some (winRate plays wins nextState).
Proof.
  intros Hcount. unfold winRate.
  destruct (plays !! nextState) as [n|] eqn:Hn; simpl; [|done].
  specialize (Hcount _ _ Hn). simpl in Hcount.
  by replace (n =? 0) with false by (symmetry; apply Z.eqb_neq; lia).
Qed.

Lemma selectLoop_total state plays wins legal :
  Forall (λ move, is_Some (childRate state plays wins move)) legal →
  ∀ nextMove highest, is_Some (selectLoop state plays wins legal nextMove highest).
Proof.
  induction 1 as [|move legal [q Hq] _ IH]; intros nextMove highest; [done|].
  simpl. unfold childRate in Hq.
  destruct (updateState state move) as [ns|]; [|done]. simpl in *. rewrite Hq. simpl.
  destruct (negb (Qle_bool q highest)); apply IH.
Qed.

(** X5: under the same conditions [getNextMoves] never raises, whatever the
    number of playouts; it leaves the store in the same shape, and its
    answer is [False] when the root has no legal move, and otherwise [None]
    or a legal move of the root. *)
Theorem getNextMoves_ok uct ai sims root :
  uctOk uct → Py.index (states ai) (-1) = Some root → reachable root →
  storeOk (plays ai) (wins ai) →
  ∃ r ai', getNextMoves uct ai sims = Some (r, ai') ∧
    states ai' = states ai ∧ storeOk (plays ai') (wins ai') ∧
    ((r = PyFalse ∧ getLegalMoves root = []) ∨
     (r = PyNone ∧ getLegalMoves root ≠ []) ∨
     (∃ col, r = PyMove col ∧ isLegalMove root col = true)).
Proof.
  intros Huct Hroot Hreach Hok. unfold getNextMoves. rewrite Hroot. simpl.
  destruct (getLegalMoves root) as [|move [|move' legal]] eqn:Hlegal; simpl.
  - exists PyFalse, ai. split_and!; try done. by left.
  - exists (PyMove move), ai. split_and!; try done. right. right. exists move.
    split; [done|]. apply getLegalMoves_isLegalMove. rewrite Hlegal. by left.
  - destruct (simulate_ok uct sims Huct ai root Hroot Hreach Hok)
      as (ai' & -> & Hstates & Hok'). simpl.
    assert (Hrates : Forall (λ m, is_Some (childRate root (plays ai') (wins ai') m))
                       (move :: move' :: legal)).
    { apply Forall_forall. intros m Hm. rewrite <- Hlegal in Hm.
      apply getLegalMoves_isLegalMove in Hm.
      destruct (wellFormed_updateState root m (wellFormed_reachable _ Hreach) Hm)
        as (ns & Hns & _).
      unfold childRate. rewrite Hns. simpl. apply winRate_ok. by destruct Hok'. }
    destruct (selectLoop_total root _ _ _ Hrates None 0%Q) as [r Hr].
    unfold selectBestMove. rewrite Hr. simpl. eexists _, ai'. split; [done|].
    split_and!; [done | done |].
    destruct (selectLoop_spec _ _ _ _ _ _ _ Hr)
      as [[-> _] | (pre & m & post & q & Heq & -> & _)].
    + right. left. by split.
    + right. right. exists m. split; [done|].
      apply getLegalMoves_isLegalMove. rewrite Hlegal, Heq.
      apply elem_of_app. right. by left.
Qed.

Lemma getNextMoves_ok_witness :
  ∃ r ai', getNextMoves firstChild Scenes.fresh [Scenes.lostPlayout; λ _, 0%nat]
             = Some (r, ai') ∧
    states ai' = states Scenes.fresh ∧ storeOk (plays ai') (wins ai') ∧
    ((r = PyFalse ∧ getLegalMoves start = []) ∨
     (r = PyNone ∧ getLegalMoves start ≠ []) ∨
     (∃ col, r = PyMove col ∧ isLegalMove start col = true)).
Proof.
  apply (getNextMoves_ok firstChild Scenes.fresh [Scenes.lostPlayout; λ _, 0%nat] start).
  - apply firstChild_ok.
  - reflexivity.
  - apply reachable_start.
  - split; [reflexivity|]. apply map_Forall_empty.
Defined.

End AIMore.


Module GridMore.
Import ConnectFiveBoard GridShape GridFacts History.

Lemma stackXor_snoc g g' m :
  squareValue g' = squareValue g → undoStack g' = undoStack g ++ [m] →
  stackXor g' = (a ← stackXor g; z ← zobrist g m.1.1 m.1.2 m.2; Some (Z.lxor a z)).
Proof.
  intros Hsq Hstack. unfold stackXor. rewrite Hstack, foldl_app. simpl.
  unfold zobrist. by rewrite Hsq.
Qed.

Lemma lxor_cancel h a z : Z.lxor (Z.lxor h z) (Z.lxor a z) = Z.lxor h a.
Proof.
  rewrite (Z.lxor_comm a z), Z.lxor_assoc, <- (Z.lxor_assoc z z a).
  by rewrite Z.lxor_nilpotent, Z.lxor_0_l.
Qed.

(** Pushing a move and XORing its value in leaves [baseHash] alone. *)
Lemma baseHash_push g g' row col piece z :
  squareValue g' = squareValue g →
  undoStack g' = undoStack g ++ [(row, col, piece)] →
  zobrist g row col piece = Some z → hashKey g' = Z.lxor (hashKey g) z →
  baseHash g' = baseHash g.
Proof.
  intros Hsq Hstack Hz Hhash. unfold baseHash.
  rewrite (stackXor_snoc g g' (row, col, piece)) by done. simpl. rewrite Hz, Hhash.
  destruct (stackXor g) as [a|]; [|done]. simpl. by rewrite lxor_cancel.
Qed.

(** So does popping one and XORing its value out. *)
Lemma baseHash_pop g g' row col piece z :
  squareValue g' = squareValue g →
  undoStack g = undoStack g' ++ [(row, col, piece)] →
  zobrist g row col piece = Some z → hashKey g' = Z.lxor (hashKey g) z →
  baseHash g' = baseHash g.
Proof.
  intros Hsq Hstack Hz Hhash. unfold baseHash at 2.
  assert (Hz' : zobrist g' row col piece = Some z) by (unfold zobrist in *; by rewrite Hsq).
  rewrite (stackXor_snoc g' g (row, col, piece)) by done. simpl. rewrite Hz'.
  unfold baseHash. rewrite Hhash. destruct (stackXor g') as [a|]; [|done]. simpl.
  f_equal. rewrite <- (lxor_cancel (hashKey g) (Z.lxor a z) z).
  by rewrite lxor_twice.
Qed.

(** X6: the hash follows the undo stack.  The hash of a new grid is the
    value it was created with, and each of the four methods that change the
    grid leaves the hash equal to that value XORed with the random values of
    the moves on the undo stack. *)
Theorem hash_follows_stack g g' row col piece :
  (∀ n h rnd, baseHash (init n h rnd) = Some h) ∧
  (placePiece g row col piece = Some g' → baseHash g' = baseHash g) ∧
  (undoMove g = Some g' → baseHash g' = baseHash g) ∧
  (∀ ok, userPlacePiece g row col piece = Some (ok, g') → baseHash g' = baseHash g) ∧
  (userUndoMove g = Some g' → baseHash g' = baseHash g).
Proof.
  split_and!.
  - intros n h rnd. unfold baseHash, stackXor. simpl. by rewrite Z.lxor_0_r.
  - unfold placePiece. intros H.
    destruct (setCell (board g) row col (Some piece)) as [b|]; [|done]. simpl in H.
    destruct (zobrist g row col piece) as [z|] eqn:Hz; [|done]. injection H as <-.
    by apply (baseHash_push g _ row col piece z).
  - unfold undoMove. intros H.
    destruct (Py.pop (undoStack g)) as [[[[r c] p] rest]|] eqn:Hpop; [|done].
    simpl in H. destruct (setCell (board g) r c None) as [b|]; [|done]. simpl in H.
    destruct (zobrist g r c p) as [z|] eqn:Hz; [|done]. injection H as <-.
    apply (baseHash_pop g _ r c p z); try done. by apply pop_Some.
  - intros ok. unfold userPlacePiece. intros H.
    destruct (isLegalMove g row col) as [legal|]; [|done]. simpl in H.
    destruct (legal && _); [|by injection H as _ <-].
    destruct (setCell (board g) row col (Some piece)) as [b|]; [|done]. simpl in H.
    destruct (zobrist g row col piece) as [z|] eqn:Hz; [|done]. injection H as _ <-.
    by apply (baseHash_push g _ row col piece z).
  - unfold userUndoMove. intros H. destruct (_ >=? 2); [|by injection H as <-].
    destruct (Py.pop (undoStack g)) as [[[[r1 c1] p1] rest1]|] eqn:Hpop1; [|done].
    simpl in H. destruct (zobrist g r1 c1 p1) as [z1|] eqn:Hz1; [|done]. simpl in H.
    destruct (Py.pop rest1) as [[[[r2 c2] p2] rest2]|] eqn:Hpop2; [|done].
    simpl in H. destruct (zobrist g r2 c2 p2) as [z2|] eqn:Hz2; [|done].
    injection H as <-. apply pop_Some in Hpop1, Hpop2.
    set (g1 := mk (size g) (board g) rest1 (Z.lxor (hashKey g) z1) (squareValue g)).
    transitivity (baseHash g1).
    + by apply (baseHash_pop g1 _ r2 c2 p2 z2).
    + by apply (baseHash_pop g g1 r1 c1 p1 z1).
Qed.

Lemma hash_follows_stack_witness :
  baseHash twoPlies = baseHash onePly ∧ baseHash onePly = baseHash twoPlies ∧
  baseHash undone = baseHash twoPlies.
Proof.
  split_and!.
  - destruct (hash_follows_stack onePly twoPlies 7 8 "O") as (_ & H & _).
    apply H. by vm_compute.
  - destruct (hash_follows_stack twoPlies onePly 7 8 "O") as (_ & _ & H & _).
    apply H. by vm_compute.
  - destruct (hash_follows_stack twoPlies undone 7 8 "O") as (_ & _ & _ & _ & H).
    apply H. by vm_compute.
Defined.

Lemma isBoardEmpty_false g row col r sq :
  board g !! row = Some r → r !! col = Some (Some sq) → isBoardEmpty g = false.
Proof.
  intros Hrow Hcol. apply not_true_iff_false. unfold isBoardEmpty.
  rewrite forallb_forall. intros Hall.
  specialize (Hall r). rewrite <- list_elem_of_In in Hall.
  specialize (Hall (list_elem_of_lookup_2 _ _ _ Hrow)).
  rewrite forallb_forall in Hall. specialize (Hall (Some sq)).
  rewrite <- list_elem_of_In in Hall.
  specialize (Hall (list_elem_of_lookup_2 _ _ _ Hcol)).
  by apply bool_decide_eq_true in Hall.
Qed.

(** X7: a new grid is empty for [isBoardEmpty]; after any [placePiece] on a
    square of the board it is not, and [findNextMove] then never leaves by
    its opening return. *)
Theorem placed_board_not_empty g row col piece g' :
  wellFormed g → inBounds g row col → placePiece g row col piece = Some g' →
  (∀ n h rnd, isBoardEmpty (init n h rnd) = true) ∧
  isBoardEmpty g' = false ∧
  ∀ search turn path answer g'',
    ConnectFiveEngine.findNextMoveVia search g' turn = Some (path, answer, g'') →
    path ≠ ConnectFiveEngine.Opening.
Proof.
  intros Hwf Hin Hplace.
  assert (Hempty : isBoardEmpty g' = false).
  { destruct (cell_in_bounds g row col Hwf Hin) as (r & sq & Hlk & Hsq & _).
    destruct (placePiece_in_bounds g row col piece r Hwf Hin Hlk) as (z & _ & Heq).
    rewrite Heq in Hplace. injection Hplace as <-.
    destruct Hwf as (H0 & Hlen & _), Hin as [Hr Hc].
    apply (isBoardEmpty_false _ (Z.to_nat row) (Z.to_nat col)
             (<[Z.to_nat col := Some piece]> r) piece); simpl.
    - apply list_lookup_insert_eq. by eapply lookup_lt_Some.
    - apply list_lookup_insert_eq. by eapply lookup_lt_Some. }
  split_and!; [|done|].
  - intros n h rnd. unfold isBoardEmpty, init. simpl. apply forallb_forall.
    intros r Hr%list_elem_of_In%elem_of_replicate. destruct Hr as [-> _].
    apply forallb_forall. intros sq Hsq%list_elem_of_In%elem_of_replicate.
    destruct Hsq as [-> _]. done.
  - intros search turn path answer g''. unfold ConnectFiveEngine.findNextMoveVia.
    rewrite Hempty. destruct (selfHasFour g') as [[|]|]; simpl; [| |done].
    + destruct (findQuickWin g') as [[[? ?]|]|]; simpl; [|done..]. by intros [= <- _ _].
    + destruct (search g' turn) as [[? ?]|]; simpl; [|done]. by intros [= <- _ _].
Qed.

Lemma placed_board_not_empty_witness :
  (∀ n h rnd, isBoardEmpty (init n h rnd) = true) ∧
  isBoardEmpty onePly = false ∧
  ∀ search turn path answer g'',
    ConnectFiveEngine.findNextMoveVia search onePly turn = Some (path, answer, g'') →
    path ≠ ConnectFiveEngine.Opening.
Proof.
  apply (placed_board_not_empty empty15 7 7 "X" onePly).
  - apply init_wellFormed. lia.
  - unfold inBounds. simpl. lia.
  - by vm_compute.
Defined.

Lemma seqZ_nat a n : seqZ a n = seqZ a (Z.of_nat (Z.to_nat n)).
Proof. unfold seqZ. by rewrite Nat2Z.id. Qed.

Lemma seqZ_S a m : seqZ a (Z.of_nat (S m)) = a :: seqZ (a + 1) (Z.of_nat m).
Proof.
  rewrite seqZ_cons by lia. f_equal. f_equal; lia.
Qed.

(** The winning test of the four [has...Combination] loops, from loop
    value [a] on, with [c] squares of the piece just behind: it never raises
    on readable squares, and answers [True] exactly when some run of
    [criteria] squares of the piece ends in the window without starting
    before those [c] squares. *)
Lemma scan_win g piece opponent criteria at_ before after m :
  ∀ a c,
    0 <= c < criteria →
    (∀ k, a <= k < a + Z.of_nat m → is_Some (cell (board g) (at_ k).1 (at_ k).2)) →
    (∀ j, 1 <= j <= c → cell (board g) (at_ (a - j)).1 (at_ (a - j)).2 = Some (Some piece)) →
    ∃ b, scanCombination g piece opponent criteria 2 at_ before after
           (seqZ a (Z.of_nat m)) c = Some b ∧
      (b = true ↔ ∃ k, a <= k < a + Z.of_nat m ∧ a - c <= k - criteria + 1 ∧
                       streak g piece at_ k criteria).
Proof.
  induction m as [|m IH]; intros a c Hc Hread Hprev.
  { exists false. split; [done|]. split; [done|]. intros (k & Hk & _). lia. }
  rewrite seqZ_S. cbn [scanCombination].
  destruct (Hread a ltac:(lia)) as [sq Hsq]. rewrite Hsq. cbn [mbind option_bind].
  destruct (decide (sq = Some piece)) as [->|Hne].
  - rewrite bool_decide_eq_true_2 by done.
    destruct (Z.eqb_spec (c + 1) criteria) as [Heq|Hneq].
    + replace (2 =? 2) with true by done. exists true. split; [done|]. split; [|done].
      intros _. exists a. split; [lia|split; [lia|]]. intros j Hj.
      destruct (Z.eq_dec j 0) as [->|]; [by rewrite Z.sub_0_r|]. apply Hprev. lia.
    + destruct (IH (a + 1) (c + 1)) as (b & -> & Hb).
      * lia.
      * intros k Hk. apply Hread. lia.
      * intros j Hj. destruct (Z.eq_dec j 1) as [->|].
        -- by replace (a + 1 - 1) with a by lia.
        -- replace (a + 1 - j) with (a - (j - 1)) by lia. apply Hprev. lia.
      * exists b. split; [done|]. rewrite Hb. split.
        -- intros (k & Hk & Hs & Hst). exists k. split; [lia|split; [lia|done]].
        -- intros (k & Hk & Hs & Hst). exists k. split; [lia|split; [lia|done]].
  - rewrite bool_decide_eq_false_2 by done.
    destruct (IH (a + 1) 0) as (b & -> & Hb).
    + lia.
    + intros k Hk. apply Hread. lia.
    + intros j Hj. lia.
    + exists b. split; [done|]. rewrite Hb. split.
      * intros (k & Hk & Hs & Hst). exists k. split; [lia|split; [lia|done]].
      * intros (k & Hk & Hs & Hst). exists k. split; [|split; [|done]].
        -- destruct (Z.eq_dec k a) as [->|]; [|lia].
           specialize (Hst 0 ltac:(lia)). rewrite Z.sub_0_r, Hsq in Hst. congruence.
        -- destruct (Z_le_gt_dec (k - criteria + 1) a) as [Hle|]; [|lia].
           specialize (Hst (k - a) ltac:(lia)).
           replace (k - (k - a)) with a in Hst by lia. rewrite Hsq in Hst. congruence.
Qed.

(** One direction of the winning test: when the loop runs over the
    squares of the line through (row, col) that are on the board and within
    four steps, it answers [True] exactly for five in that line. *)
Lemma direction_win g row col piece opponent dr dc off at_ before after lo hi :
  wellFormed g →
  (∀ k, at_ k = (row + (k - off) * dr, col + (k - off) * dc)) →
  (∀ k, lo <= k < hi ↔
        -4 <= k - off <= 4 ∧ inBounds g (row + (k - off) * dr) (col + (k - off) * dc)) →
  ∃ b, scanCombination g piece opponent 5 2 at_ before after (Py.range lo hi) 0 = Some b ∧
    (b = true ↔ fiveThrough g row col piece (dr, dc)).
Proof.
  intros Hwf Hat Hwin. unfold Py.range. rewrite seqZ_nat.
  destruct (scan_win g piece opponent 5 at_ before after (Z.to_nat (hi - lo)) lo 0)
    as (b & Hscan & Hb).
  - lia.
  - intros k Hk. rewrite Hat. simpl.
    destruct (cell_in_bounds g _ _ Hwf (proj2 (proj1 (Hwin k) ltac:(lia))))
      as (r & sq & _ & _ & ->). done.
  - intros j Hj. lia.
  - exists b. split; [done|]. rewrite Hb. unfold fiveThrough, streak. simpl. split.
    + intros (k & Hk & Hs & Hst). exists (k - 4 - off).
      destruct (proj1 (Hwin k) ltac:(lia)) as [Hk4 _].
      destruct (proj1 (Hwin (k - 4)) ltac:(lia)) as [Hk0 _].
      split; [lia|]. intros j Hj.
      replace (k - 4 - off + j) with (k - (4 - j) - off) by lia. split.
      * apply (Hwin (k - (4 - j))). lia.
      * specialize (Hst (4 - j) ltac:(lia)). by rewrite Hat in Hst.
    + intros (i & Hi & Hfive). exists (off + i + 4).
      assert (Hin : ∀ j, 0 <= j < 5 → lo <= off + i + j < hi).
      { intros j Hj. apply Hwin. split; [lia|].
        replace (off + i + j - off) with (i + j) by lia. by apply Hfive. }
      pose proof (Hin 0 ltac:(lia)). pose proof (Hin 4 ltac:(lia)).
      split; [lia|split; [lia|]]. intros j Hj. rewrite Hat. simpl.
      replace (off + i + 4 - j - off) with (i + (4 - j)) by lia.
      apply Hfive. lia.
Qed.

Lemma index_last {A} (l : list A) x : Py.index (l ++ [x]) (-1) = Some x.
Proof.
  unfold Py.index. rewrite length_app. simpl.
  replace (0 <=? -1) with false by done. simpl.
  replace (- Z.of_nat (length l + 1) <=? -1) with true by (symmetry; apply Z.leb_le; lia).
  simpl. replace (Z.to_nat (Z.of_nat (length l + 1) + -1)) with (length l) by lia.
  by rewrite list_lookup_middle.
Qed.

(** The four loops of [hasWinner] on the newest move. *)
Lemma hasWinner_lines g rest row col piece :
  wellFormed g → undoStack g = rest ++ [(row, col, piece)] → inBounds g row col →
  ∃ b, hasWinner g = Some b ∧
    (b = true ↔
       fiveThrough g row col piece (0, 1) ∨ fiveThrough g row col piece (1, 0) ∨
       fiveThrough g row col piece (1, 1) ∨ fiveThrough g row col piece (1, -1)).
Proof.
  intros Hwf Hstack [Hr Hc].
  assert (Hsize : ∀ k dr dc, inBounds g (row + k * dr) (col + k * dc) ↔
            (0 <= row + k * dr < size g ∧ 0 <= col + k * dc < size g)) by done.
  destruct (direction_win g row col piece (opponentOf piece) 0 1 col
              (λ eachCol, (row, eachCol))
              (λ eachCol, (eachCol - 5 >=? 0, (row, eachCol - 5)))
              (λ eachCol, (eachCol + 1 <? size g, (row, eachCol + 1)))
              (Z.max 0 (col - 5 + 1)) (Z.min (size g) (col + 5)) Hwf)
    as (b1 & H1 & Hb1).
  { intros k. f_equal; lia. }
  { intros k. rewrite Hsize. lia. }
  destruct (direction_win g row col piece (opponentOf piece) 1 0 row
              (λ eachRow, (eachRow, col))
              (λ eachRow, (eachRow - 5 >=? 0, (eachRow - 5, col)))
              (λ eachRow, (eachRow + 1 <? size g, (eachRow + 1, col)))
              (Z.max 0 (row - 5 + 1)) (Z.min (size g) (row + 5)) Hwf)
    as (b2 & H2 & Hb2).
  { intros k. f_equal; lia. }
  { intros k. rewrite Hsize. lia. }
  destruct (direction_win g row col piece (opponentOf piece) 1 1 0
              (λ inc, (row + inc, col + inc))
              (λ inc, let thisRow := row + inc in let thisCol := col + inc in
                      ((thisRow - 5 >=? 0) && (thisCol - 5 >=? 0),
                       (thisRow - 5, thisCol - 5)))
              (λ inc, let thisRow := row + inc in let thisCol := col + inc in
                      ((thisRow + 1 <? size g) && (thisCol + 1 <? size g),
                       (thisRow + 1, thisCol + 1)))
              ((-1) * Z.min (Z.min row col) (5 - 1))
              (Z.min (Z.min (size g - row) (size g - col)) 5) Hwf)
    as (b3 & H3 & Hb3).
  { intros k. f_equal; lia. }
  { intros k. rewrite Hsize. lia. }
  destruct (direction_win g row col piece (opponentOf piece) 1 (-1) 0
              (λ inc, (row + inc, col - inc))
              (λ inc, let thisRow := row + inc in let thisCol := col - inc in
                      ((thisRow - 5 >=? 0) && (thisCol + 5 <? size g),
                       (thisRow - 5, thisCol + 5)))
              (λ inc, let thisRow := row + inc in let thisCol := col - inc in
                      ((thisRow + 1 <? size g) && (thisCol - 1 >=? 0),
                       (thisRow + 1, thisCol - 1)))
              ((-1) * Z.min (Z.min row (size g - col - 1)) (5 - 1))
              (Z.min (Z.min (size g - row) (col + 1)) 5) Hwf)
    as (b4 & H4 & Hb4).
  { intros k. f_equal; lia. }
  { intros k. rewrite Hsize. lia. }
  exists (b1 || b2 || b3 || b4). split.
  - unfold hasWinner. rewrite Hstack, len_snoc.
    replace (Py.len rest + 1 =? 0) with false
      by (symmetry; apply Z.eqb_neq; unfold Py.len; lia).
    simpl. rewrite index_last. simpl.
    change (hasRowCombination g row col piece 5 2 = Some b1) in H1.
    change (hasColCombination g row col piece 5 2 = Some b2) in H2.
    change (hasLeftDiagonalCombination g row col piece 5 2 = Some b3) in H3.
    change (hasRightDiagonalCombination g row col piece 5 2 = Some b4) in H4.
    unfold hasAnyCombination. rewrite H1, H2, H3, H4. by destruct b1, b2, b3, b4.
  - rewrite !orb_true_iff, Hb1, Hb2, Hb3, Hb4. tauto.
Qed.

(** X8: when the newest move is on the board, [hasWinner] never raises
    and answers [True] exactly when five squares in a line through that move
    (along its row, its column or either diagonal) hold the piece of that
    move. *)
Theorem hasWinner_five g rest row col piece :
  wellFormed g → undoStack g = rest ++ [(row, col, piece)] → inBounds g row col →
  ∃ b, hasWinner g = Some b ∧
    (b = true ↔
       fiveThrough g row col piece (0, 1) ∨ fiveThrough g row col piece (1, 0) ∨
       fiveThrough g row col piece (1, 1) ∨ fiveThrough g row col piece (1, -1)).
Proof. apply hasWinner_lines. Qed.

Lemma hasWinner_five_witness :
  ∃ b, hasWinner fiveInRow = Some b ∧
    (b = true ↔
       fiveThrough fiveInRow 7 7 "X" (0, 1) ∨ fiveThrough fiveInRow 7 7 "X" (1, 0) ∨
       fiveThrough fiveInRow 7 7 "X" (1, 1) ∨ fiveThrough fiveInRow 7 7 "X" (1, -1)).
Proof.
  apply (hasWinner_five fiveInRow openFourMoves 7 7 "X").
  - unfold wellFormed. split; [by vm_compute|].
    split; [by vm_compute|]. split; [vm_compute; repeat constructor|].
    split; [by vm_compute|]. vm_compute; repeat constructor.
  - by vm_compute.
  - unfold inBounds. by vm_compute.
Defined.

(** The loop of the four [findQuick...Move] methods, started in the
    middle of a window with a count of [c]: it never raises when the squares
    it reads exist, and a square it returns is an empty end of four squares
    of the piece. *)
Lemma scan_quick g piece at_ before after m :
  (∀ k, (before k).2 = at_ (k - 4)) → (∀ k, (after k).2 = at_ (k + 1)) →
  ∀ a c, 0 <= c →
    (∀ k, a <= k < a + Z.of_nat m → is_Some (cell (board g) (at_ k).1 (at_ k).2)) →
    (∀ k, a <= k < a + Z.of_nat m → (before k).1 = true →
          is_Some (cell (board g) (at_ (k - 4)).1 (at_ (k - 4)).2)) →
    (∀ k, a <= k < a + Z.of_nat m → (after k).1 = true →
          is_Some (cell (board g) (at_ (k + 1)).1 (at_ (k + 1)).2)) →
    (∀ j, 1 <= j <= c → j <= 3 →
          cell (board g) (at_ (a - j)).1 (at_ (a - j)).2 = Some (Some piece)) →
    ∃ res, scanQuick g piece at_ before after (seqZ a (Z.of_nat m)) c = Some res ∧
      (res.1.1 = true →
       ∃ k e, a <= k < a + Z.of_nat m ∧
         (e = k - 4 ∧ (before k).1 = true ∨ e = k + 1 ∧ (after k).1 = true) ∧
         res = (true, Some (at_ e).1, Some (at_ e).2) ∧
         cell (board g) (at_ e).1 (at_ e).2 = Some None ∧
         a - c <= k - 3 ∧ streak g piece at_ k 4).
Proof.
  intros Hbefore Hafter.
  induction m as [|m IH]; intros a c Hc Hread Hlo Hhi Hprev.
  { exists (false, None, None). split; [done|]. done. }
  assert (Hrec : ∀ c', 0 <= c' <= c + 1 →
            (∀ j, 1 <= j <= c' → j <= 3 →
               cell (board g) (at_ (a + 1 - j)).1 (at_ (a + 1 - j)).2 = Some (Some piece)) →
            ∃ res, scanQuick g piece at_ before after (seqZ (a + 1) (Z.of_nat m)) c'
                   = Some res ∧
              (res.1.1 = true →
               ∃ k e, a <= k < a + Z.of_nat (S m) ∧
                 (e = k - 4 ∧ (before k).1 = true ∨ e = k + 1 ∧ (after k).1 = true) ∧
                 res = (true, Some (at_ e).1, Some (at_ e).2) ∧
                 cell (board g) (at_ e).1 (at_ e).2 = Some None ∧
                 a - c <= k - 3 ∧ streak g piece at_ k 4)).
  { intros c' Hc' Hprev'.
    destruct (IH (a + 1) c' (proj1 Hc')) as (res & Hres & Hspec).
    - intros k Hk. apply Hread. lia.
    - intros k Hk. apply Hlo. lia.
    - intros k Hk. apply Hhi. lia.
    - done.
    - exists res. split; [done|]. intros Ht.
      destruct (Hspec Ht) as (k & e & Hk & He & Heq & Hcell & Hlow & Hst).
      exists k, e. split; [lia|]. split; [done|]. split; [done|]. split; [done|].
      split; [lia|done]. }
  rewrite seqZ_S. cbn [scanQuick].
  destruct (Hread a ltac:(lia)) as [sq Hsq]. rewrite Hsq. cbn [mbind option_bind].
  destruct (decide (sq = Some piece)) as [->|Hne].
  - rewrite bool_decide_eq_true_2 by done.
    assert (Hnext : ∀ j, 1 <= j <= c + 1 → j <= 3 →
              cell (board g) (at_ (a + 1 - j)).1 (at_ (a + 1 - j)).2 = Some (Some piece)).
    { intros j Hj Hj3. destruct (Z.eq_dec j 1) as [->|].
      - by replace (a + 1 - 1) with a by lia.
      - replace (a + 1 - j) with (a - (j - 1)) by lia. apply Hprev; lia. }
    destruct (Z.eqb_spec (c + 1) 4) as [Heq|Hneq]; [|apply Hrec; [lia|done]].
    assert (Hst : streak g piece at_ a 4).
    { intros j Hj. destruct (Z.eq_dec j 0) as [->|]; [by rewrite Z.sub_0_r|].
      apply Hprev; lia. }
    unfold endEmpty. rewrite Hbefore, Hafter.
    destruct (before a).1 eqn:Hb.
    + destruct (Hlo a ltac:(lia) Hb) as [sq1 Hsq1]. rewrite Hsq1. cbn [mbind option_bind].
      destruct (decide (sq1 = None)) as [->|Hne1].
      * rewrite bool_decide_eq_true_2 by done. eexists. split; [done|]. intros _.
        exists a, (a - 4). split; [lia|]. split; [by left|].
        split; [done|]. split; [done|]. split; [lia|done].
      * rewrite bool_decide_eq_false_2 by done.
        destruct (after a).1 eqn:Ha.
        -- destruct (Hhi a ltac:(lia) Ha) as [sq2 Hsq2]. rewrite Hsq2.
           cbn [mbind option_bind].
           destruct (decide (sq2 = None)) as [->|Hne2].
           ++ rewrite bool_decide_eq_true_2 by done. eexists. split; [done|]. intros _.
              exists a, (a + 1). split; [lia|]. split; [by right|].
        split; [done|]. split; [done|]. split; [lia|done].
           ++ rewrite bool_decide_eq_false_2 by done. apply Hrec; [lia|done].
        -- cbn [mbind option_bind]. apply Hrec; [lia|done].
    + cbn [mbind option_bind].
      destruct (after a).1 eqn:Ha.
      * destruct (Hhi a ltac:(lia) Ha) as [sq2 Hsq2]. rewrite Hsq2.
        cbn [mbind option_bind].
        destruct (decide (sq2 = None)) as [->|Hne2].
        -- rewrite bool_decide_eq_true_2 by done. eexists. split; [done|]. intros _.
           exists a, (a + 1). split; [lia|]. split; [by right|].
        split; [done|]. split; [done|]. split; [lia|done].
        -- rewrite bool_decide_eq_false_2 by done. apply Hrec; [lia|done].
      * cbn [mbind option_bind]. apply Hrec; [lia|done].
  - rewrite bool_decide_eq_false_2 by done. apply Hrec; [lia|]. intros j Hj. lia.
Qed.

(** One direction of the quick search. *)
Lemma direction_quick g row col piece dr dc off at_ before after lo hi :
  wellFormed g →
  (∀ k, at_ k = (row + (k - off) * dr, col + (k - off) * dc)) →
  (∀ k, (before k).2 = at_ (k - 4)) → (∀ k, (after k).2 = at_ (k + 1)) →
  (∀ k, lo <= k < hi → inBounds g (at_ k).1 (at_ k).2) →
  (∀ k, lo <= k < hi → (before k).1 = true → inBounds g (at_ (k - 4)).1 (at_ (k - 4)).2) →
  (∀ k, lo <= k < hi → (after k).1 = true → inBounds g (at_ (k + 1)).1 (at_ (k + 1)).2) →
  ∃ status winRow winCol,
    scanQuick g piece at_ before after (Py.range lo hi) 0 = Some (status, winRow, winCol) ∧
    (status = true →
     ∃ r c s, winRow = Some r ∧ winCol = Some c ∧
       inBounds g r c ∧ cell (board g) r c = Some None ∧ (s = 1 ∨ s = -1) ∧
       fourBeside g r c piece (s * dr, s * dc)).
Proof.
  intros Hwf Hat Hb2 Ha2 Hwin Hb1 Ha1. unfold Py.range. rewrite seqZ_nat.
  assert (Hsome : ∀ k, inBounds g (at_ k).1 (at_ k).2 →
            is_Some (cell (board g) (at_ k).1 (at_ k).2)).
  { intros k Hin. destruct (cell_in_bounds g _ _ Hwf Hin) as (r & sq & _ & _ & ->). done. }
  destruct (scan_quick g piece at_ before after (Z.to_nat (hi - lo)) Hb2 Ha2 lo 0)
    as ([[status winRow] winCol] & Hscan & Hspec).
  - lia.
  - intros k Hk. apply Hsome, Hwin. lia.
  - intros k Hk Hb. apply Hsome, Hb1; [lia|done].
  - intros k Hk Ha. apply Hsome, Ha1; [lia|done].
  - intros j Hj. lia.
  - exists status, winRow, winCol. split; [done|]. intros ->.
    destruct (Hspec eq_refl) as (k & e & Hk & He & Heq & Hcell & Hlow & Hst).
    injection Heq as -> ->.
    assert (Hrun : ∀ j, 0 <= j < 4 →
              inBounds g (at_ (k - j)).1 (at_ (k - j)).2 ∧
              cell (board g) (at_ (k - j)).1 (at_ (k - j)).2 = Some (Some piece)).
    { intros j Hj. split; [apply Hwin; lia|by apply Hst]. }
    destruct He as [[-> Hb]|[-> Ha]].
    + exists (at_ (k - 4)).1, (at_ (k - 4)).2, 1. split_and!; [done | done | | done | by left |].
      * apply Hb1; [lia|done].
      * intros j Hj. specialize (Hrun (4 - j) ltac:(lia)). rewrite !Hat in *. simpl in *.
        replace (row + (k - 4 - off) * dr + j * (1 * dr))
          with (row + (k - (4 - j) - off) * dr) by ring.
        replace (col + (k - 4 - off) * dc + j * (1 * dc))
          with (col + (k - (4 - j) - off) * dc) by ring.
        done.
    + exists (at_ (k + 1)).1, (at_ (k + 1)).2, (-1).
      split_and!; [done | done | | done | by right |].
      * apply Ha1; [lia|done].
      * intros j Hj. specialize (Hrun (j - 1) ltac:(lia)). rewrite !Hat in *. simpl in *.
        replace (row + (k + 1 - off) * dr + j * (-1 * dr))
          with (row + (k - (j - 1) - off) * dr) by ring.
        replace (col + (k + 1 - off) * dc + j * (-1 * dc))
          with (col + (k - (j - 1) - off) * dc) by ring.
        done.
Qed.

(** What [placePiece] changes: one square, and the undo stack. *)
Lemma placePiece_cells g row col piece g' :
  wellFormed g → inBounds g row col → placePiece g row col piece = Some g' →
  size g' = size g ∧ undoStack g' = undoStack g ++ [(row, col, piece)] ∧
  ∀ r2 c2, inBounds g r2 c2 →
    cell (board g') r2 c2 =
      if decide ((r2, c2) = (row, col)) then Some (Some piece) else cell (board g) r2 c2.
Proof.
  intros Hwf Hin Hp.
  destruct (cell_in_bounds g row col Hwf Hin) as (r & sq & Hlk & _).
  destruct (placePiece_in_bounds g row col piece r Hwf Hin Hlk) as (z & _ & Heq).
  rewrite Heq in Hp. injection Hp as <-. simpl. split; [done|]. split; [done|].
  intros r2 c2 Hin2. destruct (decide _) as [Hsame|Hdiff].
  { injection Hsame as -> ->. by apply cell_written. }
  pose proof Hwf as (H0 & Hlen & Hrows & _). destruct Hin as [Hr Hc], Hin2 as [Hr2 Hc2].
  pose proof (Forall_lookup_1 _ _ _ _ Hrows Hlk) as Hrl. simpl in Hrl.
  unfold cell.
  rewrite !index_in_range by (unfold Py.len; rewrite ?length_insert; lia).
  destruct (decide (r2 = row)) as [->|Hrow].
  - rewrite list_lookup_insert_eq by lia. rewrite Hlk. simpl.
    rewrite !index_in_range by (unfold Py.len; rewrite ?length_insert; lia).
    apply list_lookup_insert_ne. intros Hz. apply Hdiff. f_equal. lia.
  - rewrite list_lookup_insert_ne by lia. done.
Qed.

(** Playing the free end of four squares of a piece makes five. *)
Lemma five_after_place g r c piece g' dr dc s :
  wellFormed g → inBounds g r c → cell (board g) r c = Some None →
  placePiece g r c piece = Some g' → s = 1 ∨ s = -1 →
  fourBeside g r c piece (s * dr, s * dc) →
  fiveThrough g' r c piece (dr, dc).
Proof.
  intros Hwf Hin Hfree Hp Hs Hfour.
  destruct (placePiece_cells g r c piece g' Hwf Hin Hp) as (Hsize & _ & Hcells).
  assert (Hsq : ∀ j, 0 <= j <= 4 →
            inBounds g' (r + j * (s * dr)) (c + j * (s * dc)) ∧
            cell (board g') (r + j * (s * dr)) (c + j * (s * dc)) = Some (Some piece)).
  { intros j Hj. unfold inBounds. rewrite Hsize.
    destruct (Z.eq_dec j 0) as [->|Hj0].
    - rewrite !Z.mul_0_l, !Z.add_0_r. split; [done|].
      rewrite Hcells by done. by rewrite decide_True.
    - destruct (Hfour j ltac:(lia)) as [Hin' Hcell']. simpl in Hin', Hcell'.
      split; [done|]. rewrite Hcells by done.
      rewrite decide_False; [done|]. intros Heq. injection Heq as Hr Hc.
      rewrite Hr, Hc, Hfree in Hcell'. done. }
  unfold fiveThrough. simpl. destruct Hs as [-> | ->].
  - exists 0. split; [lia|]. intros j Hj. specialize (Hsq j ltac:(lia)).
    by rewrite !Z.mul_1_l in Hsq.
  - exists (-4). split; [lia|]. intros j Hj. specialize (Hsq (4 - j) ltac:(lia)).
    replace ((4 - j) * (-1 * dr)) with ((-4 + j) * dr) in Hsq by ring.
    by replace ((4 - j) * (-1 * dc)) with ((-4 + j) * dc) in Hsq by ring.
Qed.

(** The four directions of [findQuickMove], tried in turn. *)
Lemma findQuickMove_four g row col piece :
  wellFormed g → inBounds g row col →
  ∃ res, findQuickMove g row col piece = Some res ∧
    ∀ winRow winCol, res = Some (winRow, winCol) →
      ∃ r c d s, winRow = Some r ∧ winCol = Some c ∧
        inBounds g r c ∧ cell (board g) r c = Some None ∧
        d ∈ [(0, 1); (1, 0); (1, 1); (1, -1)] ∧ (s = 1 ∨ s = -1) ∧
        fourBeside g r c piece (s * d.1, s * d.2).
Proof.
  intros Hwf [Hr Hc].
  destruct (direction_quick g row col piece 0 1 col
              (λ eachCol, (row, eachCol))
              (λ eachCol, (eachCol - 4 >=? 0, (row, eachCol - 4)))
              (λ eachCol, (eachCol + 1 <? size g, (row, eachCol + 1)))
              (Z.max 0 (col - 3)) (Z.min (size g) (col + 4)) Hwf)
    as (s1 & r1 & c1 & H1 & Hs1).
  { intros k. f_equal; lia. }
  { done. }
  { done. }
  { intros k Hk. unfold inBounds. simpl. lia. }
  { intros k Hk Hb. simpl in Hb. rewrite Z.geb_leb in Hb. apply Z.leb_le in Hb.
    unfold inBounds. simpl. lia. }
  { intros k Hk Hb. simpl in Hb. apply Z.ltb_lt in Hb. unfold inBounds. simpl. lia. }
  destruct (direction_quick g row col piece 1 0 row
              (λ eachRow, (eachRow, col))
              (λ eachRow, (eachRow - 4 >=? 0, (eachRow - 4, col)))
              (λ eachRow, (eachRow + 1 <? size g, (eachRow + 1, col)))
              (Z.max 0 (row - 3)) (Z.min (size g) (row + 4)) Hwf)
    as (s2 & r2 & c2 & H2 & Hs2).
  { intros k. f_equal; lia. }
  { done. }
  { done. }
  { intros k Hk. unfold inBounds. simpl. lia. }
  { intros k Hk Hb. simpl in Hb. rewrite Z.geb_leb in Hb. apply Z.leb_le in Hb.
    unfold inBounds. simpl. lia. }
  { intros k Hk Hb. simpl in Hb. apply Z.ltb_lt in Hb. unfold inBounds. simpl. lia. }
  destruct (direction_quick g row col piece 1 1 0
              (λ inc, (row + inc, col + inc))
              (λ inc, let thisRow := row + inc in let thisCol := col + inc in
                      ((thisRow - 4 >=? 0) && (thisCol - 4 >=? 0),
                       (thisRow - 4, thisCol - 4)))
              (λ inc, let thisRow := row + inc in let thisCol := col + inc in
                      ((thisRow + 1 <? size g) && (thisCol + 1 <? size g),
                       (thisRow + 1, thisCol + 1)))
              ((-1) * Z.min (Z.min row col) 3)
              (Z.min (Z.min (size g - row) (size g - col)) 4) Hwf)
    as (s3 & r3 & c3 & H3 & Hs3).
  { intros k. f_equal; lia. }
  { intros k. simpl. f_equal; lia. }
  { intros k. simpl. f_equal; lia. }
  { intros k Hk. unfold inBounds. simpl. lia. }
  { intros k Hk Hb. simpl in Hb. apply andb_true_iff in Hb as [Hb1 Hb2].
    rewrite Z.geb_leb in Hb1, Hb2. apply Z.leb_le in Hb1, Hb2.
    unfold inBounds. simpl. lia. }
  { intros k Hk Hb. simpl in Hb. apply andb_true_iff in Hb as [Hb1 Hb2].
    apply Z.ltb_lt in Hb1, Hb2. unfold inBounds. simpl. lia. }
  destruct (direction_quick g row col piece 1 (-1) 0
              (λ inc, (row + inc, col - inc))
              (λ inc, let thisRow := row + inc in let thisCol := col - inc in
                      ((thisRow - 4 >=? 0) && (thisCol + 4 <? size g),
                       (thisRow - 4, thisCol + 4)))
              (λ inc, let thisRow := row + inc in let thisCol := col - inc in
                      ((thisRow + 1 <? size g) && (thisCol - 1 >=? 0),
                       (thisRow + 1, thisCol - 1)))
              ((-1) * Z.min (Z.min row (size g - col - 1)) 3)
              (Z.min (Z.min (size g - row) (col + 1)) 4) Hwf)
    as (s4 & r4 & c4 & H4 & Hs4).
  { intros k. f_equal; lia. }
  { intros k. simpl. f_equal; lia. }
  { intros k. simpl. f_equal; lia. }
  { intros k Hk. unfold inBounds. simpl. lia. }
  { intros k Hk Hb. simpl in Hb. apply andb_true_iff in Hb as [Hb1 Hb2].
    rewrite Z.geb_leb in Hb1. apply Z.leb_le in Hb1. apply Z.ltb_lt in Hb2.
    unfold inBounds. simpl. lia. }
  { intros k Hk Hb. simpl in Hb. apply andb_true_iff in Hb as [Hb1 Hb2].
    rewrite Z.geb_leb in Hb2. apply Z.leb_le in Hb2. apply Z.ltb_lt in Hb1.
    unfold inBounds. simpl. lia. }
  change (findQuickRowMove g row col piece = Some (s1, r1, c1)) in H1.
  change (findQuickColMove g row col piece = Some (s2, r2, c2)) in H2.
  change (findQuickLeftDiagonalMove g row col piece = Some (s3, r3, c3)) in H3.
  change (findQuickRightDiagonalMove g row col piece = Some (s4, r4, c4)) in H4.
  assert (Hout : ∀ d status winRow winCol,
            d ∈ [(0, 1); (1, 0); (1, 1); (1, -1)] →
            (status = true →
             ∃ r c s, winRow = Some r ∧ winCol = Some c ∧
               inBounds g r c ∧ cell (board g) r c = Some None ∧ (s = 1 ∨ s = -1) ∧
               fourBeside g r c piece (s * d.1, s * d.2)) →
            status = true →
            ∀ winRow' winCol', Some (winRow, winCol) = Some (winRow', winCol') →
              ∃ r c d s, winRow' = Some r ∧ winCol' = Some c ∧
                inBounds g r c ∧ cell (board g) r c = Some None ∧
                d ∈ [(0, 1); (1, 0); (1, 1); (1, -1)] ∧ (s = 1 ∨ s = -1) ∧
                fourBeside g r c piece (s * d.1, s * d.2)).
  { intros d status wr wc Hd Hspec Hst wr' wc' [= <- <-].
    destruct (Hspec Hst) as (r & c & s & -> & -> & Hin & Hfree & Hs & Hfour).
    by exists r, c, d, s. }
  unfold findQuickMove. rewrite H1. simpl.
  destruct s1; [eexists; split; [done|]; apply (Hout (0, 1) true); [rewrite !elem_of_cons; auto|done..]|].
  rewrite H2. simpl.
  destruct s2; [eexists; split; [done|]; apply (Hout (1, 0) true); [rewrite !elem_of_cons; auto|done..]|].
  rewrite H3. simpl.
  destruct s3; [eexists; split; [done|]; apply (Hout (1, 1) true); [rewrite !elem_of_cons; auto|done..]|].
  rewrite H4. simpl.
  destruct s4; [eexists; split; [done|]; apply (Hout (1, -1) true); [rewrite !elem_of_cons; auto|done..]|].
  eexists. split; [done|]. done.
Qed.

(** The square of [findQuickMove], played. *)
Lemma findQuickMove_square g row col piece :
  wellFormed g → inBounds g row col →
  ∃ res, findQuickMove g row col piece = Some res ∧
    ∀ winRow winCol, res = Some (winRow, winCol) →
      ∃ r c g', winRow = Some r ∧ winCol = Some c ∧
        isBoardEmpty g = false ∧
        isLegalMove g r c = Some true ∧
        placePiece g r c piece = Some g' ∧ hasWinner g' = Some true.
Proof.
  intros Hwf Hin.
  destruct (findQuickMove_four g row col piece Hwf Hin) as (res & Hres & Hspec).
  exists res. split; [done|]. intros winRow winCol Heq.
  destruct (Hspec winRow winCol Heq)
    as (r & c & d & s & -> & -> & Hrc & Hfree & Hd & Hs & Hfour).
  destruct (cell_in_bounds g r c Hwf Hrc) as (rw & sq & Hlk & _).
  destruct (placePiece_in_bounds g r c piece rw Hwf Hrc Hlk) as (z & _ & Hplace).
  set (g' := mk _ _ _ _ _) in Hplace.
  exists r, c, g'. split; [done|]. split; [done|]. split.
  { destruct (Hfour 1 ltac:(lia)) as [Hin1 Hcell1].
    destruct (cell_in_bounds g _ _ Hwf Hin1) as (rw1 & sq1 & Hrw1 & Hsq1 & Hc1).
    rewrite Hc1 in Hcell1. injection Hcell1 as ->.
    by apply (isBoardEmpty_false g _ _ rw1 piece Hrw1 Hsq1). }
  split.
  { destruct (isLegalMove_spec g r c Hwf) as (legal & Hlegal & Hiff).
    rewrite Hlegal. f_equal. by apply Hiff. }
  split; [done|].
  pose proof (placePiece_wellFormed g r c piece g' Hwf Hrc Hplace) as Hwf'.
  destruct (placePiece_cells g r c piece g' Hwf Hrc Hplace) as (Hsize & Hstack & _).
  destruct (hasWinner_lines g' (undoStack g) r c piece Hwf' Hstack) as (b & Hb & Hiff).
  { unfold inBounds. by rewrite Hsize. }
  rewrite Hb. f_equal. apply Hiff.
  pose proof (five_after_place g r c piece g' d.1 d.2 s Hwf Hrc Hfree Hplace Hs Hfour)
    as Hfive.
  rewrite !elem_of_cons in Hd.
  destruct Hd as [-> | [-> | [-> | [-> | Hd]]]]; [auto..|].
  by apply elem_of_nil in Hd.
Qed.

(** X9: around a square of the board [findQuickMove] never raises, and a
    square it returns is a legal move that wins on the spot for [piece]:
    after [placePiece] there, [hasWinner] answers [True]. *)
Theorem findQuickMove_wins g row col piece :
  wellFormed g → inBounds g row col →
  ∃ res, findQuickMove g row col piece = Some res ∧
    ∀ winRow winCol, res = Some (winRow, winCol) →
      ∃ r c g', winRow = Some r ∧ winCol = Some c ∧
        isLegalMove g r c = Some true ∧
        placePiece g r c piece = Some g' ∧ hasWinner g' = Some true.
Proof.
  intros Hwf Hin.
  destruct (findQuickMove_square g row col piece Hwf Hin) as (res & Hres & Hspec).
  exists res. split; [done|]. intros winRow winCol Heq.
  destruct (Hspec winRow winCol Heq) as (r & c & g' & -> & -> & _ & Hlegal & Hp & Hw).
  by exists r, c, g'.
Qed.

Lemma findQuickMove_wins_witness :
  ∃ res, findQuickMove openFour 7 6 "X" = Some res ∧
    ∀ winRow winCol, res = Some (winRow, winCol) →
      ∃ r c g', winRow = Some r ∧ winCol = Some c ∧
        isLegalMove openFour r c = Some true ∧
        placePiece openFour r c "X" = Some g' ∧ hasWinner g' = Some true.
Proof.
  apply (findQuickMove_wins openFour 7 6 "X").
  - unfold wellFormed. split; [by vm_compute|].
    split; [by vm_compute|]. split; [vm_compute; repeat constructor|].
    split; [by vm_compute|]. vm_compute; repeat constructor.
  - unfold inBounds. by vm_compute.
Defined.

(** With squares that hold nothing but the two pieces, an end that does
    not hold the opponent is empty unless it holds the piece itself. *)
Lemma end_agree g opponent e x :
  (e.1 = true →
   ∃ sq, cell (board g) e.2.1 e.2.2 = Some sq ∧ (sq ≠ Some opponent → sq = None)) →
  endNot g opponent e = Some x → endEmpty g e = Some x.
Proof.
  unfold endNot, endEmpty. intros Hend. destruct e.1; [|done].
  destruct (Hend eq_refl) as (sq & -> & Himp). simpl. intros [= <-]. f_equal.
  destruct (decide (sq = None)) as [->|Hsome].
  - by rewrite bool_decide_eq_true_2, bool_decide_eq_true_2.
  - rewrite bool_decide_eq_false_2 by done. symmetry. apply bool_decide_eq_false_2.
    intros Hne. by apply Hsome, Himp.
Qed.

(** The loop of [has...Combination] for four squares with one end free,
    and the loop of [findQuick...Move], run side by side. *)
Lemma scan_lockstep g piece opponent at_ before after m :
  ∀ a c, 0 <= c →
    (∀ j, 1 <= j <= c → j <= 3 →
          cell (board g) (at_ (a - j)).1 (at_ (a - j)).2 = Some (Some piece)) →
    (∀ k, a <= k < a + Z.of_nat m → a - c <= k - 3 → streak g piece at_ k 4 →
       ∀ e, e = before k ∨ e = after k → e.1 = true →
         ∃ sq, cell (board g) e.2.1 e.2.2 = Some sq ∧ (sq ≠ Some opponent → sq = None)) →
    scanCombination g piece opponent 4 1 at_ before after (seqZ a (Z.of_nat m)) c
      = Some true →
    ∃ r c', scanQuick g piece at_ before after (seqZ a (Z.of_nat m)) c
            = Some (true, Some r, Some c').
Proof.
  induction m as [|m IH]; intros a c Hc Hprev Hend Hscan; [done|].
  assert (Hrec : ∀ c', 0 <= c' <= c + 1 →
            (∀ j, 1 <= j <= c' → j <= 3 →
               cell (board g) (at_ (a + 1 - j)).1 (at_ (a + 1 - j)).2 = Some (Some piece)) →
            scanCombination g piece opponent 4 1 at_ before after
              (seqZ (a + 1) (Z.of_nat m)) c' = Some true →
            ∃ r c'', scanQuick g piece at_ before after (seqZ (a + 1) (Z.of_nat m)) c'
                     = Some (true, Some r, Some c'')).
  { intros c' Hc' Hprev' Hscan'. apply (IH (a + 1) c'); [lia | done | | done].
    intros k Hk Hlow. apply Hend; lia. }
  rewrite seqZ_S in *. cbn [scanCombination scanQuick] in *.
  destruct (cell (board g) (at_ a).1 (at_ a).2) as [sq|] eqn:Hsq; [|done].
  cbn [mbind option_bind] in *.
  destruct (decide (sq = Some piece)) as [->|Hne].
  - rewrite bool_decide_eq_true_2 in * by done.
    assert (Hnext : ∀ j, 1 <= j <= c + 1 → j <= 3 →
              cell (board g) (at_ (a + 1 - j)).1 (at_ (a + 1 - j)).2 = Some (Some piece)).
    { intros j Hj Hj3. destruct (Z.eq_dec j 1) as [->|].
      - by replace (a + 1 - 1) with a by lia.
      - replace (a + 1 - j) with (a - (j - 1)) by lia. apply Hprev; lia. }
    destruct (Z.eqb_spec (c + 1) 4) as [Heq|Hneq]; [|apply Hrec; [lia|done..]].
    assert (Hst : streak g piece at_ a 4).
    { intros j Hj. destruct (Z.eq_dec j 0) as [->|]; [by rewrite Z.sub_0_r|].
      apply Hprev; lia. }
    replace (1 =? 2) with false in Hscan by done.
    replace (1 =? 1) with true in Hscan by done.
    destruct (endNot g opponent (before a)) as [left|] eqn:Hl; [|done].
    destruct (endNot g opponent (after a)) as [right|] eqn:Hr; [|done].
    cbn [mbind option_bind] in Hscan.
    apply end_agree in Hl; [|apply (Hend a); [lia | lia | done | by left]].
    apply end_agree in Hr; [|apply (Hend a); [lia | lia | done | by right]].
    rewrite Hl. cbn [mbind option_bind]. destruct left; [by eexists _, _|].
    rewrite Hr. cbn [mbind option_bind]. destruct right; [by eexists _, _|].
    simpl in Hscan. apply Hrec; [lia|done..].
  - rewrite bool_decide_eq_false_2 in * by done. apply Hrec; [lia| |done].
    intros j Hj. lia.
Qed.

(** One direction: unless five squares of the piece already stand in that
    line through (row, col), a four found by [has...Combination] gives
    [findQuick...Move] a square. *)
Lemma direction_lockstep g row col piece opponent dr dc off at_ before after lo hi :
  wellFormed g → twoPieces g →
  (∀ p : string, p = "X"%string ∨ p = "O"%string → p = piece ∨ p = opponent) →
  (∀ k, at_ k = (row + (k - off) * dr, col + (k - off) * dc)) →
  (∀ k, (before k).2 = at_ (k - 4)) → (∀ k, (after k).2 = at_ (k + 1)) →
  (∀ k, lo <= k < hi → inBounds g (at_ k).1 (at_ k).2) →
  (∀ k, lo <= k < hi → (before k).1 = true → inBounds g (at_ (k - 4)).1 (at_ (k - 4)).2) →
  (∀ k, lo <= k < hi → (after k).1 = true → inBounds g (at_ (k + 1)).1 (at_ (k + 1)).2) →
  off - 3 <= lo → hi <= off + 4 →
  ¬ fiveThrough g row col piece (dr, dc) →
  scanCombination g piece opponent 4 1 at_ before after (Py.range lo hi) 0 = Some true →
  ∃ r c, scanQuick g piece at_ before after (Py.range lo hi) 0 = Some (true, Some r, Some c).
Proof.
  intros Hwf Htwo Hpieces Hat Hb2 Ha2 Hwin Hb1 Ha1 Hlo Hhi Hnofive.
  unfold Py.range. rewrite seqZ_nat.
  apply scan_lockstep; [lia | intros j Hj; lia |].
  intros k Hk Hlow Hst e He He1.
  assert (Hin : inBounds g e.2.1 e.2.2).
  { destruct He as [-> | ->].
    - rewrite Hb2. apply Hb1; [lia|done].
    - rewrite Ha2. apply Ha1; [lia|done]. }
  destruct (cell_in_bounds g _ _ Hwf Hin) as (rw & sq & Hrw & Hsq & Hcell).
  exists sq. split; [done|]. intros Hopp. destruct sq as [p|]; [|done]. exfalso.
  assert (Hp : p = "X"%string ∨ p = "O"%string).
  { pose proof (Forall_lookup_1 _ _ _ _ Htwo Hrw) as Hrow. simpl in Hrow.
    pose proof (Forall_lookup_1 _ _ _ _ Hrow Hsq) as Hcase. simpl in Hcase.
    destruct Hcase as [?|[[= ->]|[= ->]]]; [done | by left | by right]. }
  destruct (Hpieces p Hp) as [-> | ->]; [|done].
  apply Hnofive. unfold fiveThrough. simpl.
  assert (Hrun : ∀ j, 0 <= j < 4 →
            inBounds g (row + (k - j - off) * dr) (col + (k - j - off) * dc) ∧
            cell (board g) (row + (k - j - off) * dr) (col + (k - j - off) * dc)
              = Some (Some piece)).
  { intros j Hj. pose proof (Hwin (k - j) ltac:(lia)) as Hw.
    pose proof (Hst j Hj) as Hs. rewrite Hat in Hw, Hs. done. }
  destruct He as [-> | ->].
  - rewrite Hb2, Hat in Hin, Hcell. simpl in Hin, Hcell.
    exists (k - 4 - off). split; [lia|]. intros j Hj.
    destruct (Z.eq_dec j 0) as [->|Hj0].
    + by rewrite Z.add_0_r.
    + replace (k - 4 - off + j) with (k - (4 - j) - off) by lia. apply Hrun. lia.
  - rewrite Ha2, Hat in Hin, Hcell. simpl in Hin, Hcell.
    exists (k - 3 - off). split; [lia|]. intros j Hj.
    destruct (Z.eq_dec j 4) as [->|Hj4].
    + by replace (k - 3 - off + 4) with (k + 1 - off) by lia.
    + replace (k - 3 - off + j) with (k - (3 - j) - off) by lia. apply Hrun. lia.
Qed.

Lemma findQuickMove_none g row col piece :
  findQuickMove g row col piece = Some None →
  (∀ r c, findQuickRowMove g row col piece ≠ Some (true, r, c)) ∧
  (∀ r c, findQuickColMove g row col piece ≠ Some (true, r, c)) ∧
  (∀ r c, findQuickLeftDiagonalMove g row col piece ≠ Some (true, r, c)) ∧
  (∀ r c, findQuickRightDiagonalMove g row col piece ≠ Some (true, r, c)).
Proof.
  unfold findQuickMove.
  destruct (findQuickRowMove g row col piece) as [[[[] r1] c1]|]; [done| |done].
  destruct (findQuickColMove g row col piece) as [[[[] r2] c2]|]; [done| |done].
  destruct (findQuickLeftDiagonalMove g row col piece) as [[[[] r3] c3]|]; [done| |done].
  destruct (findQuickRightDiagonalMove g row col piece) as [[[[] r4] c4]|]; [done| |done].
  done.
Qed.

Lemma opponentOf_other piece (p : string) :
  piece = "X"%string ∨ piece = "O"%string →
  p = "X"%string ∨ p = "O"%string → p = piece ∨ p = opponentOf piece.
Proof. intros [-> | ->] [-> | ->]; unfold opponentOf; simpl; auto. Qed.

(** A four seen by the test behind [selfHasFour] and [opponentHasFour]
    gives [findQuickMove] a square, unless the piece already has five. *)
Lemma four_gives_move g row col piece :
  wellFormed g → twoPieces g → inBounds g row col →
  piece = "X"%string ∨ piece = "O"%string →
  (∀ d, d ∈ [(0, 1); (1, 0); (1, 1); (1, -1)] → ¬ fiveThrough g row col piece d) →
  hasAnyCombination g row col piece 4 1 = Some true →
  ∃ r c, findQuickMove g row col piece = Some (Some (Some r, Some c)).
Proof.
  intros Hwf Htwo Hin Hpiece Hnofive Hany.
  destruct (findQuickMove_four g row col piece Hwf Hin) as (res & Hres & Hspec).
  destruct res as [[winRow winCol]|].
  { destruct (Hspec winRow winCol eq_refl) as (r & c & _ & _ & -> & -> & _).
    by exists r, c. }
  exfalso. destruct (findQuickMove_none g row col piece Hres) as (N1 & N2 & N3 & N4).
  destruct Hin as [Hr Hc].
  assert (Hdir : ∀ dr dc off at_ before after lo hi,
            (dr, dc) ∈ [(0, 1); (1, 0); (1, 1); (1, -1)] →
            (∀ k, at_ k = (row + (k - off) * dr, col + (k - off) * dc)) →
            (∀ k, (before k).2 = at_ (k - 4)) → (∀ k, (after k).2 = at_ (k + 1)) →
            (∀ k, lo <= k < hi → inBounds g (at_ k).1 (at_ k).2) →
            (∀ k, lo <= k < hi → (before k).1 = true →
                  inBounds g (at_ (k - 4)).1 (at_ (k - 4)).2) →
            (∀ k, lo <= k < hi → (after k).1 = true →
                  inBounds g (at_ (k + 1)).1 (at_ (k + 1)).2) →
            off - 3 <= lo → hi <= off + 4 →
            scanCombination g piece (opponentOf piece) 4 1 at_ before after
              (Py.range lo hi) 0 = Some true →
            ∃ r c, scanQuick g piece at_ before after (Py.range lo hi) 0
                   = Some (true, Some r, Some c)).
  { intros dr dc off at_ before after lo hi Hd. intros.
    eapply (direction_lockstep g row col piece (opponentOf piece) dr dc off); try done.
    - intros p Hp. by apply opponentOf_other.
    - by apply Hnofive. }
  unfold hasAnyCombination in Hany.
  destruct (hasRowCombination g row col piece 4 1) as [[]|] eqn:H1; [|simpl in Hany|done].
  { unfold hasRowCombination in H1. replace (col - 4 + 1) with (col - 3) in H1 by lia.
    apply (Hdir 0 1 col) in H1 as (r & c & H1).
    - by apply (N1 (Some r) (Some c)).
    - rewrite !elem_of_cons; auto.
    - intros k. f_equal; lia.
    - done.
    - done.
    - intros k Hk. unfold inBounds. simpl. lia.
    - intros k Hk Hb. simpl in Hb. rewrite Z.geb_leb in Hb. apply Z.leb_le in Hb.
      unfold inBounds. simpl. lia.
    - intros k Hk Hb. simpl in Hb. apply Z.ltb_lt in Hb. unfold inBounds. simpl. lia.
    - lia.
    - lia. }
  destruct (hasColCombination g row col piece 4 1) as [[]|] eqn:H2; [|simpl in Hany|done].
  { unfold hasColCombination in H2. replace (row - 4 + 1) with (row - 3) in H2 by lia.
    apply (Hdir 1 0 row) in H2 as (r & c & H2).
    - by apply (N2 (Some r) (Some c)).
    - rewrite !elem_of_cons; auto.
    - intros k. f_equal; lia.
    - done.
    - done.
    - intros k Hk. unfold inBounds. simpl. lia.
    - intros k Hk Hb. simpl in Hb. rewrite Z.geb_leb in Hb. apply Z.leb_le in Hb.
      unfold inBounds. simpl. lia.
    - intros k Hk Hb. simpl in Hb. apply Z.ltb_lt in Hb. unfold inBounds. simpl. lia.
    - lia.
    - lia. }
  destruct (hasLeftDiagonalCombination g row col piece 4 1) as [[]|] eqn:H3;
    [|simpl in Hany|done].
  { unfold hasLeftDiagonalCombination in H3.
    apply (Hdir 1 1 0) in H3 as (r & c & H3).
    - by apply (N3 (Some r) (Some c)).
    - rewrite !elem_of_cons; auto.
    - intros k. f_equal; lia.
    - intros k. simpl. f_equal; lia.
    - intros k. simpl. f_equal; lia.
    - intros k Hk. unfold inBounds. simpl. lia.
    - intros k Hk Hb. simpl in Hb. apply andb_true_iff in Hb as [Hb1 Hb2].
      rewrite Z.geb_leb in Hb1, Hb2. apply Z.leb_le in Hb1, Hb2.
      unfold inBounds. simpl. lia.
    - intros k Hk Hb. simpl in Hb. apply andb_true_iff in Hb as [Hb1 Hb2].
      apply Z.ltb_lt in Hb1, Hb2. unfold inBounds. simpl. lia.
    - lia.
    - lia. }
  unfold hasRightDiagonalCombination in Hany.
  apply (Hdir 1 (-1) 0) in Hany as (r & c & H4).
  - by apply (N4 (Some r) (Some c)).
  - rewrite !elem_of_cons; auto 6.
  - intros k. f_equal; lia.
  - intros k. simpl. f_equal; lia.
  - intros k. simpl. f_equal; lia.
  - intros k Hk. unfold inBounds. simpl. lia.
  - intros k Hk Hb. simpl in Hb. apply andb_true_iff in Hb as [Hb1 Hb2].
    rewrite Z.geb_leb in Hb1. apply Z.leb_le in Hb1. apply Z.ltb_lt in Hb2.
    unfold inBounds. simpl. lia.
  - intros k Hk Hb. simpl in Hb. apply andb_true_iff in Hb as [Hb1 Hb2].
    rewrite Z.geb_leb in Hb2. apply Z.leb_le in Hb2. apply Z.ltb_lt in Hb1.
    unfold inBounds. simpl. lia.
  - lia.
  - lia.
Qed.

Lemma index_last_but_one {A} (l : list A) x y : Py.index (l ++ [x; y]) (-2) = Some x.
Proof.
  unfold Py.index. rewrite length_app. simpl.
  replace (0 <=? -2) with false by done. simpl.
  replace (- Z.of_nat (length l + 2) <=? -2) with true by (symmetry; apply Z.leb_le; lia).
  simpl. replace (Z.to_nat (Z.of_nat (length l + 2) + -2)) with (length l) by lia.
  by rewrite list_lookup_middle.
Qed.

(** X10: the second return of [findNextMove].  On a grid that holds
    nothing but the two pieces, when [selfHasFour] answers [True] for the
    move before the newest one and that piece does not already stand five in
    a line there, [findNextMove] does not raise: it leaves the grid as it
    is and returns, with the evaluation 200000000 for X and -200000000 for
    O, a legal square where that piece wins on the spot. *)
Theorem findNextMove_quick_win search g turn rest row col piece last :
  wellFormed g → twoPieces g →
  undoStack g = rest ++ [(row, col, piece); last] →
  inBounds g row col → piece = "X"%string ∨ piece = "O"%string →
  (∀ d, d ∈ [(0, 1); (1, 0); (1, 1); (1, -1)] → ¬ fiveThrough g row col piece d) →
  selfHasFour g = Some true →
  ∃ r c g',
    ConnectFiveEngine.findNextMoveVia search g turn =
      Some (ConnectFiveEngine.QuickWin,
            (ConnectFiveEngine.Finite
               (if String.eqb turn "X" then 200000000 else -200000000)%Q,
             Some r, Some c), g) ∧
    isLegalMove g r c = Some true ∧
    placePiece g r c piece = Some g' ∧ hasWinner g' = Some true.
Proof.
  intros Hwf Htwo Hstack Hin Hpiece Hnofive Hfour.
  assert (Hany : hasAnyCombination g row col piece 4 1 = Some true).
  { unfold selfHasFour in Hfour. destruct (Py.len (undoStack g) >? 8); [|done].
    by rewrite Hstack, index_last_but_one in Hfour. }
  destruct (four_gives_move g row col piece Hwf Htwo Hin Hpiece Hnofive Hany)
    as (r & c & Hquick).
  destruct (findQuickMove_square g row col piece Hwf Hin) as (res & Hres & Hspec).
  rewrite Hquick in Hres. injection Hres as <-.
  destruct (Hspec (Some r) (Some c) eq_refl)
    as (r' & c' & g' & [= <-] & [= <-] & Hempty & Hlegal & Hplace & Hwin).
  exists r, c, g'. split; [|done].
  unfold ConnectFiveEngine.findNextMoveVia. rewrite Hempty, Hfour. simpl.
  unfold findQuickWin. rewrite Hstack, index_last_but_one. simpl.
  by rewrite Hquick.
Qed.

Lemma findNextMove_quick_win_witness :
  ∃ r c g',
    ConnectFiveEngine.findNextMoveVia (λ _ _, None) tenPlies "X" =
      Some (ConnectFiveEngine.QuickWin,
            (ConnectFiveEngine.Finite
               (if String.eqb "X" "X" then 200000000 else -200000000)%Q,
             Some r, Some c), tenPlies) ∧
    isLegalMove tenPlies r c = Some true ∧
    placePiece tenPlies r c "X" = Some g' ∧ hasWinner g' = Some true.
Proof.
  apply (findNextMove_quick_win (λ _ _, None) tenPlies "X"
           (take 8 tenMoves) 7 6 "X" (0, 8, "O"%string)).
  - unfold wellFormed. split; [by vm_compute|].
    split; [by vm_compute|]. split; [vm_compute; repeat constructor|].
    split; [by vm_compute|]. vm_compute; repeat constructor.
  - unfold twoPieces. vm_compute. repeat (constructor; auto).
  - by vm_compute.
  - unfold inBounds. by vm_compute.
  - by left.
  - intros d Hd (i & Hi & Hfive). rewrite !elem_of_cons in Hd.
    assert (Hcases : i = -4 ∨ i = -3 ∨ i = -2 ∨ i = -1 ∨ i = 0) by lia.
    destruct Hd as [-> | [-> | [-> | [-> | Hd]]]]; [..|by apply elem_of_nil in Hd];
      destruct Hcases as [-> | [-> | [-> | [-> | ->]]]];
      first [ destruct (Hfive 0 ltac:(lia)) as [_ Hc]; by vm_compute in Hc
            | destruct (Hfive 4 ltac:(lia)) as [_ Hc]; by vm_compute in Hc ].
  - by vm_compute.
Defined.

(** X11: the forced block.  On a grid that holds nothing but the two
    pieces, when [opponentHasFour] answers [True] for the newest move and
    that piece does not already stand five in a line there,
    [findForcedBlock] returns a legal square, and it is a square where the
    piece of the newest move would win on the spot. *)
Theorem findForcedBlock_square g rest row col piece :
  wellFormed g → twoPieces g →
  undoStack g = rest ++ [(row, col, piece)] →
  inBounds g row col → piece = "X"%string ∨ piece = "O"%string →
  (∀ d, d ∈ [(0, 1); (1, 0); (1, 1); (1, -1)] → ¬ fiveThrough g row col piece d) →
  opponentHasFour g = Some true →
  ∃ r c g',
    findForcedBlock g = Some (Some (Some r, Some c)) ∧
    isLegalMove g r c = Some true ∧
    placePiece g r c piece = Some g' ∧ hasWinner g' = Some true.
Proof.
  intros Hwf Htwo Hstack Hin Hpiece Hnofive Hfour.
  assert (Hany : hasAnyCombination g row col piece 4 1 = Some true).
  { unfold opponentHasFour in Hfour. destruct (Py.len (undoStack g) >? 6); [|done].
    by rewrite Hstack, index_last in Hfour. }
  destruct (four_gives_move g row col piece Hwf Htwo Hin Hpiece Hnofive Hany)
    as (r & c & Hquick).
  destruct (findQuickMove_square g row col piece Hwf Hin) as (res & Hres & Hspec).
  rewrite Hquick in Hres. injection Hres as <-.
  destruct (Hspec (Some r) (Some c) eq_refl)
    as (r' & c' & g' & [= <-] & [= <-] & Hempty & Hlegal & Hplace & Hwin).
  exists r, c, g'. split; [|done].
  unfold findForcedBlock. rewrite Hstack, index_last. simpl. done.
Qed.

Lemma findForcedBlock_square_witness :
  ∃ r c g',
    findForcedBlock ninePlies = Some (Some (Some r, Some c)) ∧
    isLegalMove ninePlies r c = Some true ∧
    placePiece ninePlies r c "X" = Some g' ∧ hasWinner g' = Some true.
Proof.
  apply (findForcedBlock_square ninePlies (take 8 tenMoves) 7 6 "X").
  - unfold wellFormed. split; [by vm_compute|].
    split; [by vm_compute|]. split; [vm_compute; repeat constructor|].
    split; [by vm_compute|]. vm_compute; repeat constructor.
  - unfold twoPieces. vm_compute. repeat (constructor; auto).
  - by vm_compute.
  - unfold inBounds. by vm_compute.
  - by left.
  - intros d Hd (i & Hi & Hfive). rewrite !elem_of_cons in Hd.
    assert (Hcases : i = -4 ∨ i = -3 ∨ i = -2 ∨ i = -1 ∨ i = 0) by lia.
    destruct Hd as [-> | [-> | [-> | [-> | Hd]]]]; [..|by apply elem_of_nil in Hd];
      destruct Hcases as [-> | [-> | [-> | [-> | ->]]]];
      first [ destruct (Hfive 0 ltac:(lia)) as [_ Hc]; by vm_compute in Hc
            | destruct (Hfive 4 ltac:(lia)) as [_ Hc]; by vm_compute in Hc ].
  - by vm_compute.
Defined.

End GridMore.

Module CandidateFacts.
Import ConnectFiveBoard ConnectFiveEngine GridShape GridFacts Candidates.

Lemma esize_size g : wellFormed g → esize g = size g.
Proof. intros (H0 & Hlen & _). unfold esize, Py.len. lia. Qed.

Lemma addIfFree_spec g adj guard r c (P : Prop) :
  wellFormed g → (guard = true ↔ P) → (P → inBounds g r c) →
  ∃ adj', addIfFree g adj guard r c = Some adj' ∧
    ∀ r2 c2, (r2, c2) ∈ adj' ↔
      (r2, c2) ∈ adj ∨ (r2 = r ∧ c2 = c ∧ P ∧ cell (board g) r c = Some None).
Proof.
  intros Hwf Hguard Hin. unfold addIfFree, endEmpty. simpl. destruct guard.
  - destruct (cell_in_bounds g r c Hwf (Hin (proj1 Hguard eq_refl)))
      as (rw & sq & _ & _ & ->). simpl.
    destruct (decide (sq = None)) as [->|Hne].
    + rewrite bool_decide_eq_true_2 by done. eexists. split; [done|]. intros r2 c2.
      rewrite elem_of_union, elem_of_singleton. split.
      * intros [?|[= -> ->]]; [by left|]. right. split_and!; [done..| |done].
        by apply Hguard.
      * intros [?|(-> & -> & _)]; [by left|by right].
    + rewrite bool_decide_eq_false_2 by done. eexists. split; [done|]. intros r2 c2.
      split; [by left|]. intros [?|(_ & _ & _ & Hc)]; [done|]. congruence.
  - simpl. eexists. split; [done|]. intros r2 c2. split; [by left|].
    intros [?|(_ & _ & HP & _)]; [done|]. by apply Hguard in HP.
Qed.

Lemma geb_guard a : (a >=? 0) = true ↔ 0 <= a.
Proof. rewrite Z.geb_leb. apply Z.leb_le. Qed.

Lemma true_guard : true = true ↔ True.
Proof. done. Qed.

Ltac add_square Hwf P Hguard :=
  match goal with
  | |- context [addIfFree ?g ?adj ?guard ?r ?c] =>
      let adj' := fresh "adj" in
      let Heq := fresh "Heq" in
      let Hadj := fresh "Hadj" in
      destruct (addIfFree_spec g adj guard r c P Hwf Hguard) as (adj' & Heq & Hadj);
      [intros ?; unfold inBounds; lia
      |rewrite Heq; clear Heq; cbn [mbind option_bind]]
  end.

(** The squares of [getFreeAdjacentSquares] are the empty squares of the
    board among the eight around (row, col). *)
Lemma getFreeAdjacentSquares_spec g row col :
  wellFormed g → inBounds g row col →
  ∃ adj, getFreeAdjacentSquares g row col = Some adj ∧
    ∀ r c, (r, c) ∈ adj ↔
      inBounds g r c ∧ cell (board g) r c = Some None ∧ around row col r c.
Proof.
  intros Hwf [Hr Hc]. unfold getFreeAdjacentSquares. cbv zeta.
  rewrite (esize_size g Hwf).
  assert (Hfinish : ∀ adj0 : gset (Z * Z),
            (∀ r c, (r, c) ∈ adj0 ↔
               inBounds g r c ∧ cell (board g) r c = Some None ∧
               around row col r c ∧ r ≠ row) →
            ∃ adj,
              (adj ← addIfFree g adj0 (col - 1 >=? 0) row (col - 1);
               addIfFree g adj (col + 1 <? size g) row (col + 1)) = Some adj ∧
              ∀ r c, (r, c) ∈ adj ↔
                inBounds g r c ∧ cell (board g) r c = Some None ∧ around row col r c).
  { intros adj0 H0.
    add_square Hwf (0 <= col - 1) (geb_guard (col - 1)).
    add_square Hwf (col + 1 < size g) (Z.ltb_lt (col + 1) (size g)).
    eexists. split; [done|]. intros r c. rewrite Hadj0, Hadj, H0.
    unfold inBounds, around. split.
    - intros [[H|(-> & -> & HP & Hcell)]|(-> & -> & HP & Hcell)].
      + destruct H as (? & ? & ? & ?). done.
      + split; [lia|]. split; [done|]. lia.
      + split; [lia|]. split; [done|]. lia.
    - intros (Hin & Hcell & Har).
      destruct (Z.eq_dec r row) as [->|Hrow].
      + assert (c = col - 1 ∨ c = col + 1) as [-> | ->] by lia.
        * left. right. split_and!; [done | done | lia | done].
        * right. split_and!; [done | done | lia | done].
      + left. left. done. }
  assert (Hrow : ∀ (adj0 : gset (Z * Z)) r0,
            0 <= r0 < size g →
            ∃ adj,
              (adj ← addIfFree g adj0 (col - 1 >=? 0) r0 (col - 1);
               adj ← addIfFree g adj true r0 col;
               addIfFree g adj (col + 1 <? size g) r0 (col + 1)) = Some adj ∧
              ∀ r c, (r, c) ∈ adj ↔
                (r, c) ∈ adj0 ∨
                (r = r0 ∧ -1 <= c - col <= 1 ∧ inBounds g r c ∧
                 cell (board g) r c = Some None)).
  { intros adj0 r0 Hr0.
    add_square Hwf (0 <= col - 1) (geb_guard (col - 1)).
    add_square Hwf True true_guard.
    add_square Hwf (col + 1 < size g) (Z.ltb_lt (col + 1) (size g)).
    eexists. split; [done|]. intros r c. rewrite Hadj1, Hadj0, Hadj.
    unfold inBounds. split.
    - intros [[[H|(-> & -> & HP & Hcell)]|(-> & -> & HP & Hcell)]|(-> & -> & HP & Hcell)].
      + by left.
      + right. split; [done|]. split; [lia|]. split; [lia|done].
      + right. split; [done|]. split; [lia|]. split; [lia|done].
      + right. split; [done|]. split; [lia|]. split; [lia|done].
    - intros [H|(-> & Hc3 & Hin & Hcell)]; [by do 3 left|].
      assert (c = col - 1 ∨ c = col ∨ c = col + 1) as [-> | [-> | ->]] by lia.
      + do 2 left. right. split_and!; [done | done | lia | done].
      + left. right. split_and!; [done | done | done | done].
      + right. split_and!; [done | done | lia | done]. }
  destruct (Z.leb_spec 0 (row - 1)) as [Habove|Habove];
    rewrite (Z.geb_leb (row - 1) 0);
    [replace (0 <=? row - 1) with true by (symmetry; apply Z.leb_le; lia)
    |replace (0 <=? row - 1) with false by (symmetry; apply Z.leb_gt; lia)].
  - destruct (Hrow ∅ (row - 1) ltac:(lia)) as (adj1 & -> & H1).
    cbn [mbind option_bind].
    destruct (Z.ltb_spec (row + 1) (size g)) as [Hbelow|Hbelow].
    + destruct (Hrow adj1 (row + 1) ltac:(lia)) as (adj2 & -> & H2).
      cbn [mbind option_bind]. apply Hfinish. intros r c. rewrite H2, H1.
      unfold inBounds, around. split.
      * intros [[H|(-> & ? & ? & ?)]|(-> & ? & ? & ?)].
        -- by apply elem_of_empty in H.
        -- split; [done|]. split; [done|]. lia.
        -- split; [done|]. split; [done|]. lia.
      * intros (Hin & Hcell & Har & Hne).
        assert (r = row - 1 ∨ r = row + 1) as [-> | ->] by lia.
        -- left. right. split; [done|]. split; [lia|done].
        -- right. split; [done|]. split; [lia|done].
    + cbn [mbind option_bind]. apply Hfinish. intros r c. rewrite H1.
      unfold inBounds, around. split.
      * intros [H|(-> & ? & ? & ?)].
        -- by apply elem_of_empty in H.
        -- split; [done|]. split; [done|]. lia.
      * intros (Hin & Hcell & Har & Hne).
        right. split; [lia|]. split; [lia|done].
  - cbn [mbind option_bind].
    destruct (Z.ltb_spec (row + 1) (size g)) as [Hbelow|Hbelow].
    + destruct (Hrow ∅ (row + 1) ltac:(lia)) as (adj2 & -> & H2).
      cbn [mbind option_bind]. apply Hfinish. intros r c. rewrite H2.
      unfold inBounds, around. split.
      * intros [H|(-> & ? & ? & ?)].
        -- by apply elem_of_empty in H.
        -- split; [done|]. split; [done|]. lia.
      * intros (Hin & Hcell & Har & Hne).
        right. split; [lia|]. split; [lia|done].
    + cbn [mbind option_bind]. apply Hfinish. intros r c.
      unfold inBounds, around. split.
      * intros H. by apply elem_of_empty in H.
      * intros (Hin & Hcell & Har & Hne). lia.
Qed.

(** A loop that only adds to a set. *)
Lemma collect_spec {K} (f : option (gset (Z * Z)) → K → option (gset (Z * Z)))
    (Q : K → Z * Z → Prop) (ks : list K) :
  (∀ k acc, k ∈ ks →
     ∃ acc', f (Some acc) k = Some acc' ∧ ∀ x, x ∈ acc' ↔ x ∈ acc ∨ Q k x) →
  ∀ acc, ∃ acc', foldl f (Some acc) ks = Some acc' ∧
    ∀ x, x ∈ acc' ↔ x ∈ acc ∨ ∃ k, k ∈ ks ∧ Q k x.
Proof.
  induction ks as [|k ks IH]; intros Hstep acc.
  { exists acc. split; [done|]. intros x. split; [by left|].
    intros [?|(k & Hk & _)]; [done|]. by apply elem_of_nil in Hk. }
  destruct (Hstep k acc) as (acc1 & Hacc1 & H1); [by left|].
  destruct (IH (λ k' acc' Hk', Hstep k' acc' (list_elem_of_further _ _ _ Hk')) acc1)
    as (acc' & Hacc' & H').
  exists acc'. split; [simpl; by rewrite Hacc1|]. intros x. rewrite H', H1. split.
  - intros [[?|HQ]|(k' & Hk' & HQ)]; [by left | |].
    + right. exists k. split; [by left|done].
    + right. exists k'. split; [by right|done].
  - intros [?|(k' & Hk' & HQ)]; [by do 2 left|].
    apply elem_of_cons in Hk' as [->|Hk']; [by left; right|].
    right. by exists k'.
Qed.

(** X12: on a well-formed grid [findNeighbourSquares] never raises, and
    the set it returns holds exactly the empty squares of the board that
    touch an occupied square, along a side or a corner. *)
Theorem findNeighbourSquares_spec g :
  wellFormed g →
  ∃ available, findNeighbourSquares g = Some available ∧
    ∀ r c, (r, c) ∈ available ↔
      inBounds g r c ∧ cell (board g) r c = Some None ∧
      ∃ row col piece, inBounds g row col ∧
        cell (board g) row col = Some (Some piece) ∧ around row col r c.
Proof.
  intros Hwf. unfold findNeighbourSquares. rewrite (esize_size g Hwf).
  pose proof Hwf as (Hsize & _).
  destruct (collect_spec
              (λ acc row, foldl (visit g row) acc (Py.range 0 (size g)))
              (λ row x, ∃ col piece, inBounds g row col ∧
                 cell (board g) row col = Some (Some piece) ∧
                 inBounds g x.1 x.2 ∧ cell (board g) x.1 x.2 = Some None ∧
                 around row col x.1 x.2)
              (Py.range 0 (size g))) with (acc := (∅ : gset (Z * Z)))
    as (available & Hrun & Hspec).
  { intros row acc Hrow. apply elem_of_seqZ in Hrow.
    destruct (collect_spec (visit g row)
                (λ col x, ∃ piece, inBounds g row col ∧
                   cell (board g) row col = Some (Some piece) ∧
                   inBounds g x.1 x.2 ∧ cell (board g) x.1 x.2 = Some None ∧
                   around row col x.1 x.2)
                (Py.range 0 (size g))) with (acc := acc)
      as (acc' & Hacc' & H').
    { intros col acc0 Hcol. apply elem_of_seqZ in Hcol.
      assert (Hin : inBounds g row col) by (unfold inBounds; lia).
      destruct (cell_in_bounds g row col Hwf Hin) as (rw & sq & _ & _ & Hcell).
      unfold visit. simpl. rewrite Hcell. simpl.
      destruct sq as [piece|].
      - rewrite bool_decide_eq_false_2 by done. simpl.
        destruct (getFreeAdjacentSquares_spec g row col Hwf Hin) as (adj & -> & Hadj).
        simpl. eexists. split; [done|]. intros [r c]. rewrite elem_of_union, Hadj.
        simpl. split.
        + intros [?|(? & ? & ?)]; [by left|]. right. by exists piece.
        + intros [?|(piece' & _ & _ & ? & ? & ?)]; [by left|]. by right.
      - rewrite bool_decide_eq_true_2 by done. simpl.
        eexists. split; [done|]. intros x. split; [by left|].
        intros [?|(piece & _ & ? & _)]; [done|]. done. }
    exists acc'. split; [done|]. intros x. rewrite H'. split.
    - intros [?|(col & Hcol & piece & HQ)]; [by left|]. right. by exists col, piece.
    - intros [?|(col & piece & HQ)]; [by left|]. right. exists col.
      split; [|by exists piece]. apply elem_of_seqZ. destruct HQ as [[_ ?] _]. lia. }
  exists available. split; [done|]. intros r c. rewrite Hspec. simpl. split.
  - intros [H|(row & Hrow & col & piece & ? & ? & ? & ? & ?)].
    + by apply elem_of_empty in H.
    + split; [done|]. split; [done|]. by exists row, col, piece.
  - intros (? & ? & row & col & piece & Hin & ? & ?). right. exists row. split.
    + apply elem_of_seqZ. destruct Hin as [? _]. lia.
    + by exists col, piece.
Qed.

Lemma findNeighbourSquares_spec_witness :
  ∃ available, findNeighbourSquares History.onePly = Some available ∧
    ∀ r c, (r, c) ∈ available ↔
      inBounds History.onePly r c ∧ cell (board History.onePly) r c = Some None ∧
      ∃ row col piece, inBounds History.onePly row col ∧
        cell (board History.onePly) row col = Some (Some piece) ∧ around row col r c.
Proof.
  apply (findNeighbourSquares_spec History.onePly).
  apply (placePiece_wellFormed empty15 7 7 "X").
  - apply init_wellFormed. lia.
  - unfold inBounds. simpl. lia.
  - by vm_compute.
Defined.

End CandidateFacts.

Module HeuristicMore.
Import ConnectFiveBoard ConnectFiveEngine GridShape GridFacts Streaks HeuristicFacts.

(** The loop of [fill], stopped after [m] squares. *)
Lemma fill_prefix n read (v : Z → Square) (m : nat) :
  Z.of_nat m <= n → (∀ k, 0 <= k < n → read k = Some (v k)) →
  foldl (λ acc k, line ← acc; v ← read k; Py.setitem line k v)
        (Some (replicate (Z.to_nat (n + 1)) None)) (seqZ 0 (Z.of_nat m))
  = Some ((v <$> seqZ 0 (Z.of_nat m)) ++ replicate (Z.to_nat (n + 1) - m) None).
Proof.
  intros Hm Hread. induction m as [|m IH].
  { simpl. by rewrite Nat.sub_0_r. }
  replace (Z.of_nat (S m)) with (Z.of_nat m + 1) by lia.
  rewrite seqZ_app by lia. rewrite foldl_app, IH by lia.
  change (seqZ (0 + Z.of_nat m) 1) with [0 + Z.of_nat m]. rewrite Z.add_0_l.
  cbn [foldl mbind option_bind]. rewrite Hread by lia. cbn [mbind option_bind].
  assert (Hlen : length (v <$> seqZ 0 (Z.of_nat m)) = m).
  { rewrite length_fmap, length_seqZ. lia. }
  rewrite setitem_in_range
    by (unfold Py.len; rewrite length_app, Hlen, length_replicate; lia).
  f_equal. rewrite Nat2Z.id.
  rewrite insert_app_r_alt by lia. rewrite Hlen, Nat.sub_diag.
  replace (Z.to_nat (n + 1) - m)%nat with (S (Z.to_nat (n + 1) - S m)) by lia.
  simpl. rewrite fmap_app. simpl. by rewrite <- app_assoc.
Qed.

(** [fill] returns the [n] squares it reads, in order, and one [None]. *)
Lemma fill_spec n read :
  0 <= n → (∀ k, 0 <= k < n → is_Some (read k)) →
  ∃ line, fill (n + 1) n read = Some (line ++ [None]) ∧
    Z.of_nat (length line) = n ∧
    ∀ k, 0 <= k < n → line !! Z.to_nat k = read k.
Proof.
  intros Hn Hread.
  pose proof (fill_prefix n read (λ k, default None (read k)) (Z.to_nat n)) as Hfill.
  rewrite Z2Nat.id in Hfill by done.
  exists ((λ k, default None (read k)) <$> seqZ 0 n). split_and!.
  - unfold fill, Py.range. rewrite Z.sub_0_r, Hfill.
    + by replace (Z.to_nat (n + 1) - Z.to_nat n)%nat with 1%nat by lia.
    + lia.
    + intros k Hk. by destruct (Hread k Hk) as [sq ->].
  - rewrite length_fmap, length_seqZ. lia.
  - intros k Hk. rewrite list_lookup_fmap, lookup_seqZ_lt by lia. simpl.
    rewrite Z2Nat.id, Z.add_0_l by lia. by destruct (Hread k Hk) as [sq ->].
Qed.

Lemma read_in_bounds g row col :
  wellFormed g → inBounds g row col → is_Some (cell (board g) row col).
Proof.
  intros Hwf Hin. destruct (cell_in_bounds g row col Hwf Hin) as (r & sq & _ & _ & ->).
  done.
Qed.

Lemma engine_size g : wellFormed g → esize g = size g.
Proof. intros (H0 & Hlen & _). unfold esize, Py.len. lia. Qed.

Lemma getColumn_spec g col :
  wellFormed g → 0 <= col < size g →
  ∃ line, getColumn g col = Some (line ++ [None]) ∧
    Z.of_nat (length line) = size g ∧
    ∀ k, 0 <= k < size g → line !! Z.to_nat k = cell (board g) k col.
Proof.
  intros Hwf Hc. pose proof Hwf as (Hsize & _).
  unfold getColumn. rewrite (engine_size g Hwf).
  apply fill_spec; [lia|]. intros k Hk. apply read_in_bounds; [done|].
  unfold inBounds. lia.
Qed.

Lemma getLeftDiagonal_spec g row col :
  wellFormed g → inBounds g row col →
  ∃ line, getLeftDiagonal g row col = Some (line ++ [None]) ∧
    Z.of_nat (length line) = size g - Z.max row col ∧
    ∀ k, 0 <= k < size g - Z.max row col →
      line !! Z.to_nat k = cell (board g) (row + k) (col + k).
Proof.
  intros Hwf [Hr Hc].
  unfold getLeftDiagonal. rewrite (engine_size g Hwf). cbv zeta.
  apply fill_spec; [lia|]. intros k Hk. apply read_in_bounds; [done|].
  unfold inBounds. lia.
Qed.

Lemma getRightDiagonal_spec g row col :
  wellFormed g → inBounds g row col → col = 0 ∨ size g - 1 <= row + col →
  ∃ line, getRightDiagonal g row col = Some (line ++ [None]) ∧
    Z.of_nat (length line) = (if col =? 0 then row + 1 else size g - col) ∧
    ∀ k, 0 <= k < (if col =? 0 then row + 1 else size g - col) →
      line !! Z.to_nat k = cell (board g) (row - k) (col + k).
Proof.
  intros Hwf [Hr Hc] Hedge.
  unfold getRightDiagonal. rewrite (engine_size g Hwf). cbv zeta.
  apply fill_spec; [destruct (Z.eqb_spec col 0); lia|].
  intros k Hk. apply read_in_bounds; [done|].
  unfold inBounds. destruct (Z.eqb_spec col 0); lia.
Qed.

(** X13: the three methods that copy a line of the board.  [getColumn]
    on a column of the board, [getLeftDiagonal] from any square of the board
    and [getRightDiagonal] from a square of the left edge, or from one whose
    diagonal runs into the right edge, never raise; each returns the squares
    of its line in order, followed by one [None]. *)
Theorem lines_copied g row col :
  wellFormed g → inBounds g row col →
  (∃ line, getColumn g col = Some (line ++ [None]) ∧
     Z.of_nat (length line) = size g ∧
     ∀ k, 0 <= k < size g → line !! Z.to_nat k = cell (board g) k col) ∧
  (∃ line, getLeftDiagonal g row col = Some (line ++ [None]) ∧
     Z.of_nat (length line) = size g - Z.max row col ∧
     ∀ k, 0 <= k < size g - Z.max row col →
       line !! Z.to_nat k = cell (board g) (row + k) (col + k)) ∧
  (col = 0 ∨ size g - 1 <= row + col →
   ∃ line, getRightDiagonal g row col = Some (line ++ [None]) ∧
     Z.of_nat (length line) = (if col =? 0 then row + 1 else size g - col) ∧
     ∀ k, 0 <= k < (if col =? 0 then row + 1 else size g - col) →
       line !! Z.to_nat k = cell (board g) (row - k) (col + k)).
Proof.
  intros Hwf Hin. split_and!.
  - apply getColumn_spec; [done|]. by destruct Hin.
  - by apply getLeftDiagonal_spec.
  - by apply getRightDiagonal_spec.
Qed.

Lemma lines_copied_witness :
  (∃ line, getColumn openFour 4 = Some (line ++ [None]) ∧
     Z.of_nat (length line) = size openFour ∧
     ∀ k, 0 <= k < size openFour → line !! Z.to_nat k = cell (board openFour) k 4) ∧
  (∃ line, getLeftDiagonal openFour 14 4 = Some (line ++ [None]) ∧
     Z.of_nat (length line) = size openFour - Z.max 14 4 ∧
     ∀ k, 0 <= k < size openFour - Z.max 14 4 →
       line !! Z.to_nat k = cell (board openFour) (14 + k) (4 + k)) ∧
  (4 = 0 ∨ size openFour - 1 <= 14 + 4 →
   ∃ line, getRightDiagonal openFour 14 4 = Some (line ++ [None]) ∧
     Z.of_nat (length line) = (if 4 =? 0 then 14 + 1 else size openFour - 4) ∧
     ∀ k, 0 <= k < (if 4 =? 0 then 14 + 1 else size openFour - 4) →
       line !! Z.to_nat k = cell (board openFour) (14 - k) (4 + k)).
Proof.
  apply (lines_copied openFour 14 4).
  - unfold wellFormed. split; [by vm_compute|].
    split; [by vm_compute|]. split; [vm_compute; repeat constructor|].
    split; [by vm_compute|]. vm_compute; repeat constructor.
  - unfold inBounds. by vm_compute.
Defined.

Lemma getHeuristicScore_total sequence turn : is_Some (getHeuristicScore sequence turn).
Proof.
  destruct (scanLoop_inv sequence turn [] sequence (mkScan 0 0%Q None)
              eq_refl (scanInv_start _ _)) as (st & Hloop & _).
  unfold getHeuristicScore.
  change (Z.of_nat (length (@nil Square))) with 0 in Hloop. by rewrite Hloop.
Qed.

Lemma sumScores_total {A} (f : A → option Q) (xs : list A) :
  (∀ x, x ∈ xs → is_Some (f x)) → is_Some (sumScores f xs).
Proof.
  unfold sumScores. generalize 0%Q.
  induction xs as [|x xs IH]; intros q Hall; [done|].
  simpl. destruct (Hall x) as [v ->]; [by left|]. simpl.
  apply IH. intros y Hy. apply Hall. by right.
Qed.

Lemma overallHeuristicScore_some g turn :
  wellFormed g → is_Some (overallHeuristicScore g turn).
Proof.
  intros Hwf. pose proof Hwf as (Hsize & _).
  assert (Hh : is_Some (horizontalHeuristic g turn)).
  { apply sumScores_total. intros row _. apply getHeuristicScore_total. }
  assert (Hv : is_Some (verticalHeuristic g turn)).
  { apply sumScores_total. intros col Hcol.
    rewrite (engine_size g Hwf) in Hcol. apply elem_of_seqZ in Hcol.
    destruct (getColumn_spec g col Hwf) as (line & -> & _); [lia|]. simpl.
    apply getHeuristicScore_total. }
  assert (Hl : is_Some (leftDiagonalHeuristic g turn)).
  { apply sumScores_total. intros [row col] Hsq.
    rewrite (engine_size g Hwf) in Hsq. unfold criteria in Hsq.
    assert (Hin : inBounds g row col).
    { apply elem_of_app in Hsq as [Hsq|Hsq];
        apply list_elem_of_fmap in Hsq as (k & [= -> ->] & Hk);
        apply elem_of_seqZ in Hk; unfold inBounds; lia. }
    destruct (getLeftDiagonal_spec g row col Hwf Hin) as (line & Hline & _).
    simpl. rewrite Hline. simpl. apply getHeuristicScore_total. }
  assert (Hr : is_Some (rightDiagonalHeuristic g turn)).
  { apply sumScores_total. intros [row col] Hsq.
    rewrite (engine_size g Hwf) in Hsq. unfold criteria in Hsq.
    assert (Hin : inBounds g row col ∧ (col = 0 ∨ size g - 1 <= row + col)).
    { apply elem_of_app in Hsq as [Hsq|Hsq];
        apply list_elem_of_fmap in Hsq as (k & [= -> ->] & Hk);
        apply elem_of_seqZ in Hk; unfold inBounds; lia. }
    destruct (getRightDiagonal_spec g row col Hwf (proj1 Hin) (proj2 Hin))
      as (line & Hline & _).
    simpl. rewrite Hline. simpl. apply getHeuristicScore_total. }
  unfold overallHeuristicScore.
  destruct Hh as [h ->], Hl as [l ->], Hv as [v ->], Hr as [r ->]. done.
Qed.



Lemma isBoardEmpty_cell g row col :
  wellFormed g → inBounds g row col → isBoardEmpty g = true →
  cell (board g) row col = Some None.
Proof.
  intros Hwf Hin Hempty.
  destruct (cell_in_bounds g row col Hwf Hin) as (r & sq & Hr & Hsq & ->).
  f_equal. unfold isBoardEmpty in Hempty. rewrite forallb_forall in Hempty.
  specialize (Hempty r). rewrite <- list_elem_of_In in Hempty.
  specialize (Hempty (list_elem_of_lookup_2 _ _ _ Hr)).
  rewrite forallb_forall in Hempty. specialize (Hempty sq).
  rewrite <- list_elem_of_In in Hempty.
  specialize (Hempty (list_elem_of_lookup_2 _ _ _ Hsq)).
  by apply bool_decide_eq_true in Hempty.
Qed.

(** A piece placed on an empty square and taken back. *)
Lemma place_then_undo g row col piece :
  wellFormed g → inBounds g row col → cell (board g) row col = Some None →
  ∃ g1, placePiece g row col piece = Some g1 ∧ wellFormed g1 ∧ undoMove g1 = Some g.
Proof.
  intros Hwf Hin Hempty.
  destruct (cell_in_bounds g row col Hwf Hin) as (r & sq & Hlk & Hsq & Hcell).
  assert (sq = None) as -> by congruence.
  destruct (placePiece_in_bounds g row col piece r Hwf Hin Hlk) as (z & Hz & Hplace).
  set (g1 := mk _ _ _ _ _) in Hplace.
  assert (Hwf1 : wellFormed g1) by (by apply written_wellFormed).
  assert (Hlk1 : board g1 !! Z.to_nat row = Some (<[Z.to_nat col := Some piece]> r)).
  { simpl. apply list_lookup_insert_eq. by eapply lookup_lt_Some. }
  exists g1. split; [done|]. split; [done|].
  pose proof (setCell_in_bounds g1 row col Hwf1 Hin _ None Hlk1) as Hset.
  simpl in Hset. unfold undoMove. simpl. rewrite pop_snoc. simpl.
  rewrite Hset. simpl.
  change (zobrist _ row col piece) with (zobrist g row col piece).
  rewrite Hz. simpl. rewrite lxor_twice, !list_insert_insert_eq.
  rewrite (list_insert_id r) by done. rewrite list_insert_id by done.
  by destruct g.
Qed.

(** X15: the first return of [findNextMove].  On an empty grid with at
    least one square [findNextMove] does not raise: it answers the centre
    square (size // 2, size // 2) with a finite evaluation and hands the
    grid back as it was, board, undo stack and hash. *)
Theorem findNextMove_opening search g turn :
  wellFormed g → 1 <= size g → isBoardEmpty g = true →
  ∃ heuristic,
    findNextMoveVia search g turn =
      Some (Opening, (Finite heuristic, Some (size g `div` 2), Some (size g `div` 2)), g) ∧
    findNextMove search g turn =
      Some ((Finite heuristic, Some (size g `div` 2), Some (size g `div` 2)), g).
Proof.
  intros Hwf Hsize Hempty.
  assert (Hin : inBounds g (size g `div` 2) (size g `div` 2)).
  { unfold inBounds. pose proof (Z.div_pos (size g) 2).
    pose proof (Z.div_lt_upper_bound (size g) 2 (size g)). lia. }
  destruct (place_then_undo g _ _ turn Hwf Hin (isBoardEmpty_cell g _ _ Hwf Hin Hempty))
    as (g1 & Hplace & Hwf1 & Hundo).
  destruct (overallHeuristicScore_some g1 (if String.eqb turn "O" then "X" else "O") Hwf1)
    as [heuristic Hscore].
  exists heuristic.
  assert (Hvia : findNextMoveVia search g turn =
            Some (Opening,
                  (Finite heuristic, Some (size g `div` 2), Some (size g `div` 2)), g)).
  { unfold findNextMoveVia. rewrite Hempty, (engine_size g Hwf). cbv zeta.
    rewrite Hplace. cbn [mbind option_bind]. rewrite Hscore. cbn [mbind option_bind].
    by rewrite Hundo. }
  split; [done|]. unfold findNextMove. by rewrite Hvia.
Qed.

Lemma findNextMove_opening_witness :
  ∃ heuristic,
    findNextMoveVia (λ _ _, None) empty15 "X" =
      Some (Opening,
            (Finite heuristic, Some (size empty15 `div` 2), Some (size empty15 `div` 2)),
            empty15) ∧
    findNextMove (λ _ _, None) empty15 "X" =
      Some ((Finite heuristic, Some (size empty15 `div` 2), Some (size empty15 `div` 2)),
            empty15).
Proof.
  apply (findNextMove_opening (λ _ _, None) empty15 "X").
  - apply init_wellFormed. lia.
  - simpl. lia.
  - by vm_compute.
Defined.

End HeuristicMore.

Module DisplayFacts.
Import Board Display GridFacts.

Lemma truthy_bit m z : 0 <= m → truthy (Z.land (2 ^ m) z) = Z.testbit z m.
Proof.
  intros Hm. unfold truthy. destruct (Z.testbit z m) eqn:Hbit.
  - apply negb_true_iff, Z.eqb_neq. intros H0.
    assert (Hb : Z.testbit (Z.land (2 ^ m) z) m = true).
    { by rewrite Z.land_spec, Z.pow2_bits_true, Hbit. }
    rewrite H0, Z.bits_0 in Hb. done.
  - apply negb_false_iff, Z.eqb_eq. apply Z.bits_inj'. intros n Hn.
    rewrite Z.land_spec, Z.bits_0, Z.pow2_bits_eqb by done.
    destruct (Z.eqb_spec m n) as [->|]; [by rewrite Hbit|done].
Qed.

Lemma setColour_spec board row col colour :
  length board = 6%nat → Forall (λ r, length r = 7%nat) board →
  0 <= row < 6 → 0 <= col < 7 →
  ∃ board', setColour board row col colour = Some board' ∧
    length board' = 6%nat ∧ Forall (λ r, length r = 7%nat) board' ∧
    ∀ row2 col2, 0 <= row2 < 6 → 0 <= col2 < 7 →
      shown board' row2 col2 =
        if decide (row2 = row ∧ col2 = col) then Some colour else shown board row2 col2.
Proof.
  intros Hlen Hrows Hrow Hcol.
  destruct (lookup_lt_is_Some_2 board (Z.to_nat row)) as [r Hr]; [lia|].
  pose proof (Forall_lookup_1 _ _ _ _ Hrows Hr) as Hrl. simpl in Hrl.
  unfold setColour.
  rewrite index_in_range by (unfold Py.len; lia). rewrite Hr. simpl.
  rewrite setitem_in_range by (unfold Py.len; lia). simpl.
  rewrite setitem_in_range by (unfold Py.len; lia).
  eexists. split; [done|]. split; [by rewrite length_insert|]. split.
  { apply Forall_insert; [done|]. by rewrite length_insert. }
  intros row2 col2 Hrow2 Hcol2. unfold shown.
  destruct (decide (row2 = row ∧ col2 = col)) as [[-> ->]|Hne].
  - rewrite list_lookup_insert_eq by lia. simpl. apply list_lookup_insert_eq. lia.
  - destruct (decide (row2 = row)) as [->|Hr2].
    + rewrite list_lookup_insert_eq by lia. rewrite Hr. simpl.
      apply list_lookup_insert_ne. intros Heq. apply Hne. split; [done|lia].
    + rewrite list_lookup_insert_ne by lia. done.
Qed.

(** One pass of the loop. *)
Lemma paint_step player1 player2 m st :
  0 <= m < 42 → painted player1 player2 m st →
  ∃ st', paint player1 player2 (Some st) m = Some st' ∧
    painted player1 player2 (m + 1) st'.
Proof.
  intros Hm (Hbit & Hlen & Hrows & Hcells). destruct st as [board bit]. simpl in *.
  subst bit. unfold paint. cbn [mbind option_bind]. cbv zeta.
  rewrite !truthy_bit by lia. unfold ROWCOUNT.
  assert (Hrow : 0 <= 5 - m `mod` 6 < 6) by (pose proof (Z.mod_pos_bound m 6); lia).
  assert (Hcol : 0 <= m `div` 6 < 7).
  { split; [apply Z.div_pos; lia|]. apply Z.div_lt_upper_bound; lia. }
  assert (Hm6 : 6 * (m `div` 6) + (5 - (5 - m `mod` 6)) = m).
  { pose proof (Z.div_mod m 6). lia. }
  assert (Hpow : Z.shiftl (2 ^ m) 1 = 2 ^ (m + 1)).
  { rewrite Z.shiftl_mul_pow2 by lia. rewrite Z.pow_add_r by lia. done. }
  assert (Hset : ∀ colour, colourOf player1 player2 m = colour →
            ∃ board', setColour board (5 - m `mod` 6) (m `div` 6) colour = Some board' ∧
              painted player1 player2 (m + 1) (board', 2 ^ (m + 1))).
  { intros colour Hcolour.
    destruct (setColour_spec board _ _ colour Hlen Hrows Hrow Hcol)
      as (board' & Hb' & Hlen' & Hrows' & Hcells').
    exists board'. split; [done|]. split; [done|]. split; [done|]. split; [done|].
    simpl. intros row col Hr Hc. rewrite Hcells' by done.
    destruct (decide _) as [[-> ->]|Hne].
    - rewrite Hm6. replace (m <? m + 1) with true by (symmetry; apply Z.ltb_lt; lia).
      by rewrite Hcolour.
    - rewrite Hcells by done.
      assert (6 * col + (5 - row) ≠ m).
      { intros Heq. apply Hne. pose proof (Z.div_mod m 6).
        pose proof (Z.mod_pos_bound m 6).
        assert (col = m `div` 6).
        { apply (Z.div_unique m 6 col (5 - row)); lia. }
        split; lia. }
      destruct (Z.ltb_spec (6 * col + (5 - row)) m),
        (Z.ltb_spec (6 * col + (5 - row)) (m + 1)); (done || lia). }
  destruct (Z.testbit player1 m) eqn:H1.
  - destruct (Hset "red"%string) as (board' & -> & Hp).
    { unfold colourOf. by rewrite H1. }
    simpl. rewrite Hpow. by eexists.
  - destruct (Z.testbit player2 m) eqn:H2.
    + destruct (Hset "yellow"%string) as (board' & -> & Hp).
      { unfold colourOf. by rewrite H1, H2. }
      simpl. rewrite Hpow. by eexists.
    + simpl. rewrite Hpow. eexists. split; [done|].
      split; [done|]. split; [done|]. split; [done|].
      simpl. intros row col Hr Hc. rewrite Hcells by done.
      destruct (Z.ltb_spec (6 * col + (5 - row)) m),
        (Z.ltb_spec (6 * col + (5 - row)) (m + 1)); try (done || lia).
      assert (6 * col + (5 - row) = m) as -> by lia.
      unfold colourOf. by rewrite H1, H2.
Qed.

Lemma paint_loop player1 player2 (n : nat) :
  ∀ m st, 0 <= m → m + Z.of_nat n <= 42 → painted player1 player2 m st →
  ∃ st', foldl (paint player1 player2) (Some st) (seqZ m (Z.of_nat n)) = Some st' ∧
    painted player1 player2 (m + Z.of_nat n) st'.
Proof.
  induction n as [|n IH]; intros m st Hm Hle Hp.
  { exists st. split; [done|]. by rewrite Z.add_0_r. }
  rewrite seqZ_cons by lia. cbn [foldl].
  destruct (paint_step player1 player2 m st ltac:(lia) Hp) as (st1 & -> & Hp1).
  destruct (IH (m + 1) st1 ltac:(lia) ltac:(lia) Hp1) as (st' & Hloop & Hp').
  exists st'. replace (Z.pred (Z.of_nat (S n))) with (Z.of_nat n) by lia.
  replace (Z.succ m) with (m + 1) by lia.
  split; [done|]. by replace (m + Z.of_nat (S n)) with (m + 1 + Z.of_nat n) by lia.
Qed.

(** X16: [displayBoard] never raises, whatever the two masks are, and
    returns six rows of seven squares: the square in row [row] from the top
    and column [col] shows bit 6 * col + (5 - row), as red when player 1
    holds it, else as yellow when player 2 holds it, else as the empty
    string. *)
Theorem displayBoard_shows player1 player2 turn :
  ∃ board, displayBoard (player1, player2, turn) = Some board ∧
    length board = 6%nat ∧ Forall (λ r, length r = 7%nat) board ∧
    ∀ row col, 0 <= row < 6 → 0 <= col < 7 →
      shown board row col = Some (colourOf player1 player2 (6 * col + (5 - row))).
Proof.
  unfold displayBoard.
  destruct (paint_loop player1 player2 42 0
              ((λ _, replicate (Z.to_nat COLUMNCOUNT) ""%string) <$> Py.range 0 ROWCOUNT, 1))
    as ([board bit] & Hloop & Hbit & Hlen & Hrows & Hcells).
  - lia.
  - lia.
  - split; [done|]. split; [done|]. split; [by repeat constructor|].
    simpl. intros row col Hr Hc.
    replace (6 * col + (5 - row) <? 0) with false by (symmetry; apply Z.ltb_ge; lia).
    assert (Hrow : row = 0 ∨ row = 1 ∨ row = 2 ∨ row = 3 ∨ row = 4 ∨ row = 5) by lia.
    assert (Hcol : col = 0 ∨ col = 1 ∨ col = 2 ∨ col = 3 ∨ col = 4 ∨ col = 5 ∨ col = 6)
      by lia.
    destruct Hrow as [-> | [-> | [-> | [-> | [-> | ->]]]]];
      destruct Hcol as [-> | [-> | [-> | [-> | [-> | [-> | ->]]]]]]; reflexivity.
  - change (Py.range 0 (ROWCOUNT * COLUMNCOUNT)) with (seqZ 0 (Z.of_nat 42)).
    rewrite Hloop. simpl. exists board. split; [done|]. split; [done|]. split; [done|].
    intros row col Hr Hc. cbn [fst snd] in Hcells.
    change (0 + Z.of_nat 42) with 42 in Hcells. rewrite Hcells by done.
    by replace (6 * col + (5 - row) <? 42) with true by (symmetry; apply Z.ltb_lt; lia).
Qed.

End DisplayFacts.

Module FirstFreeFacts.
Import ConnectFiveBoard GridShape GridFacts FirstFree.

Lemma firstFreeIn_spec g row (n : nat) :
  wellFormed g → 0 <= row < size g →
  ∀ a, 0 <= a → a + Z.of_nat n <= size g →
  ∃ found, firstFreeIn g row (seqZ a (Z.of_nat n)) = Some found ∧
    match found with
    | Some (r, c) =>
        r = row ∧ a <= c < a + Z.of_nat n ∧ cell (board g) row c = Some None ∧
        ∀ c', a <= c' < c → cell (board g) row c' ≠ Some None
    | None => ∀ c', a <= c' < a + Z.of_nat n → cell (board g) row c' ≠ Some None
    end.
Proof.
  intros Hwf Hrow. induction n as [|n IH]; intros a Ha Hle.
  { exists None. split; [done|]. intros c' Hc'. lia. }
  rewrite seqZ_cons by lia. cbn [firstFreeIn].
  replace (Z.succ a) with (a + 1) by lia.
  replace (Z.pred (Z.of_nat (S n))) with (Z.of_nat n) by lia.
  assert (Hin : inBounds g row a) by (unfold inBounds; lia).
  destruct (cell_in_bounds g row a Hwf Hin) as (rw & sq & _ & _ & Hcell).
  rewrite Hcell. cbn [mbind option_bind].
  destruct (decide (sq = None)) as [->|Hne].
  - rewrite bool_decide_eq_true_2 by done. exists (Some (row, a)).
    split; [done|]. split; [done|]. split; [lia|]. split; [done|]. intros c' Hc'. lia.
  - rewrite bool_decide_eq_false_2 by done.
    destruct (IH (a + 1) ltac:(lia) ltac:(lia)) as (found & -> & Hfound).
    exists found. split; [done|].
    assert (Hfirst : cell (board g) row a ≠ Some None) by (rewrite Hcell; congruence).
    destruct found as [[r c]|].
    + destruct Hfound as (-> & Hc & Hfree & Hbefore).
      split; [done|]. split; [lia|]. split; [done|]. intros c' Hc'.
      destruct (Z.eq_dec c' a) as [->|]; [done|]. apply Hbefore. lia.
    + intros c' Hc'. destruct (Z.eq_dec c' a) as [->|]; [done|]. apply Hfound. lia.
Qed.

Lemma firstFreeFrom_spec g (n : nat) :
  wellFormed g →
  ∀ a, 0 <= a → a + Z.of_nat n <= size g →
  ∃ found, firstFreeFrom g (seqZ a (Z.of_nat n)) = Some found ∧
    match found with
    | Some (r, c) =>
        a <= r < a + Z.of_nat n ∧ 0 <= c < size g ∧ cell (board g) r c = Some None ∧
        ∀ r' c', a <= r' → 0 <= c' < size g → before r' c' r c →
                 cell (board g) r' c' ≠ Some None
    | None => ∀ r' c', a <= r' < a + Z.of_nat n → 0 <= c' < size g →
                       cell (board g) r' c' ≠ Some None
    end.
Proof.
  intros Hwf. pose proof Hwf as (Hsize & _).
  induction n as [|n IH]; intros a Ha Hle.
  { exists None. split; [done|]. intros r' c' Hr'. lia. }
  rewrite seqZ_cons by lia. cbn [firstFreeFrom].
  replace (Z.succ a) with (a + 1) by lia.
  replace (Z.pred (Z.of_nat (S n))) with (Z.of_nat n) by lia.
  destruct (firstFreeIn_spec g a (Z.to_nat (size g)) Hwf ltac:(lia) 0 ltac:(lia) ltac:(lia))
    as (found & Hfound & Hspec).
  unfold Py.range. rewrite Z.sub_0_r, (GridMore.seqZ_nat 0 (size g)) by lia.
  rewrite Hfound. cbn [mbind option_bind]. rewrite Z2Nat.id in Hspec by lia.
  destruct found as [[r c]|].
  - destruct Hspec as (-> & Hc & Hfree & Hbefore).
    exists (Some (a, c)). split; [done|]. split; [lia|]. split; [lia|]. split; [done|].
    intros r' c' Hr' Hc' [Hlt|[-> Hlt]]; [lia|]. apply Hbefore. lia.
  - destruct (IH (a + 1) ltac:(lia) ltac:(lia)) as (found & -> & Hrest).
    exists found. split; [done|]. destruct found as [[r c]|].
    + destruct Hrest as (Hr & Hc & Hfree & Hbefore).
      split; [lia|]. split; [done|]. split; [done|]. intros r' c' Hr' Hc' Hb.
      destruct (Z.eq_dec r' a) as [->|]; [apply Hspec; lia|]. apply Hbefore; [lia|done..].
    + intros r' c' Hr' Hc'.
      destruct (Z.eq_dec r' a) as [->|]; [apply Hspec; lia|]. apply Hrest; [lia|done].
Qed.

Lemma isBoardFull_cells g :
  wellFormed g →
  isBoardFull g = true ↔
  ∀ r c, inBounds g r c → cell (board g) r c ≠ Some None.
Proof.
  intros Hwf. pose proof Hwf as (Hsize & Hlen & Hrows & _). unfold isBoardFull. split.
  - intros Hfull r c Hin.
    destruct (cell_in_bounds g r c Hwf Hin) as (rw & sq & Hrw & Hsq & ->).
    rewrite forallb_forall in Hfull. specialize (Hfull rw).
    rewrite <- list_elem_of_In in Hfull.
    specialize (Hfull (list_elem_of_lookup_2 _ _ _ Hrw)).
    rewrite forallb_forall in Hfull. specialize (Hfull sq).
    rewrite <- list_elem_of_In in Hfull.
    specialize (Hfull (list_elem_of_lookup_2 _ _ _ Hsq)).
    apply negb_true_iff, bool_decide_eq_false in Hfull. congruence.
  - intros Hall. apply forallb_forall. intros rw Hrw.
    apply list_elem_of_In, list_elem_of_lookup_1 in Hrw as [i Hi].
    apply forallb_forall. intros sq Hsq.
    apply list_elem_of_In, list_elem_of_lookup_1 in Hsq as [j Hj].
    pose proof (lookup_lt_Some _ _ _ Hi) as Hilt.
    pose proof (lookup_lt_Some _ _ _ Hj) as Hjlt.
    pose proof (Forall_lookup_1 _ _ _ _ Hrows Hi) as Hrl. simpl in Hrl.
    assert (Hin : inBounds g (Z.of_nat i) (Z.of_nat j)) by (unfold inBounds; lia).
    destruct (cell_in_bounds g _ _ Hwf Hin) as (rw' & sq' & Hrw' & Hsq' & Hcell).
    rewrite Nat2Z.id in Hrw', Hsq'.
    assert (rw' = rw) as -> by congruence. assert (sq' = sq) as -> by congruence.
    apply negb_true_iff, bool_decide_eq_false. intros ->.
    by apply (Hall _ _ Hin).
Qed.

(** X17: on a well-formed grid [getFirstFreeSquare] never raises.  It
    returns [None] exactly when [isBoardFull] holds; otherwise it returns a
    legal move, the first empty square when the board is read row by row
    from the top, each row from the left. *)
Theorem getFirstFreeSquare_first g :
  wellFormed g →
  ∃ found, getFirstFreeSquare g = Some found ∧
    (found = None ↔ isBoardFull g = true) ∧
    ∀ r c, found = Some (r, c) →
      isLegalMove g r c = Some true ∧
      ∀ r' c', inBounds g r' c' → before r' c' r c → cell (board g) r' c' ≠ Some None.
Proof.
  intros Hwf. pose proof Hwf as (Hsize & _).
  destruct (firstFreeFrom_spec g (Z.to_nat (size g)) Hwf 0 ltac:(lia) ltac:(lia))
    as (found & Hfound & Hspec).
  rewrite Z2Nat.id in Hspec by lia.
  exists found. split.
  { unfold getFirstFreeSquare, Py.range. by rewrite Z.sub_0_r, (GridMore.seqZ_nat 0 (size g)). }
  rewrite (isBoardFull_cells g Hwf). destruct found as [[r c]|].
  - destruct Hspec as (Hr & Hc & Hfree & Hbefore). split.
    + split; [done|]. intros Hall. exfalso. apply (Hall r c); [|done].
      unfold inBounds. lia.
    + intros r0 c0 [= <- <-]. split.
      * destruct (isLegalMove_spec g r c Hwf) as (legal & -> & Hiff). f_equal.
        apply Hiff. split; [|done]. unfold inBounds. lia.
      * intros r' c' [Hr' Hc'] Hb. apply Hbefore; [lia|done..].
  - split; [|done]. split; [|done]. intros _ r c [Hr Hc]. apply Hspec; lia.
Qed.

Lemma getFirstFreeSquare_first_witness :
  ∃ found, getFirstFreeSquare openFour = Some found ∧
    (found = None ↔ isBoardFull openFour = true) ∧
    ∀ r c, found = Some (r, c) →
      isLegalMove openFour r c = Some true ∧
      ∀ r' c', inBounds openFour r' c' → before r' c' r c →
               cell (board openFour) r' c' ≠ Some None.
Proof.
  apply (getFirstFreeSquare_first openFour).
  unfold wellFormed. split; [by vm_compute|].
  split; [by vm_compute|]. split; [vm_compute; repeat constructor|].
  split; [by vm_compute|]. vm_compute; repeat constructor.
Defined.

End FirstFreeFacts.
